(* ===================================================================== *)
(* The read-through product cache of backend/controllers/productController.js
   (getProducts, getProductById, createProduct, updateProduct,
   deleteProduct, createProductReview, getTopProducts), embedded as
   state-passing functions over an explicit world: the process
   environment, the database behind the Product model, the heap of live
   document objects, the module-level cache, a clock and an event log.   *)
(* ===================================================================== *)

From Stdlib Require Import ZArith String Ascii List Lia DecimalString DecimalPos DecimalZ.
From Stdlib Require Import QArith Qabs Qround Qpower Lqa.
From stdpp Require Import base option list gmap strings.
Import ListNotations.

#[local] Set Warnings "-register-all".

Local Open Scope string_scope.
Local Open Scope list_scope.
Local Open Scope Z_scope.

(* --------------------------------------------------------------------- *)
(* 1. JavaScript numbers                                                 *)
(* --------------------------------------------------------------------- *)

(* A JavaScript number is an IEEE 754 double: NaN, an infinity, a signed
   zero, or a finite non-zero value (-1)^neg * m * 2^e, written with an odd
   mantissa m.  The doubles are the values with m < 2^53, -1074 <= e and
   m * 2^e < 2^1024. *)
Inductive jsnum : Type :=
  | NaN
  | Inf (neg : bool)
  | Zero (neg : bool)
  | Fin (neg : bool) (m : positive) (e : Z).

Definition odd_pos (m : positive) : bool :=
  match m with
  | xO _ => false
  | _ => true
  end.

Definition valid (x : jsnum) : bool :=
  match x with
  | Fin _ m e =>
      odd_pos m && (Z.pos m <? 2 ^ 53) && (-1074 <=? e) && (Z.log2 (Z.pos m) + e <? 1024)
  | _ => true
  end.

Definition jsnum_eqb (x y : jsnum) : bool :=
  match x, y with
  | NaN, NaN => true
  | Inf a, Inf b => Bool.eqb a b
  | Zero a, Zero b => Bool.eqb a b
  | Fin a m e, Fin b m' e' => Bool.eqb a b && Pos.eqb m m' && Z.eqb e e'
  | _, _ => false
  end.

(* b^e as a rational, for an exponent of either sign. *)
Definition Qpow (b e : Z) : Q :=
  if 0 <=? e then inject_Z (b ^ e) else / inject_Z (b ^ (- e)).

(* The exact value of a finite number. *)
Definition num_value (x : jsnum) : Q :=
  match x with
  | Fin neg m e => (if neg then - inject_Z (Z.pos m) else inject_Z (Z.pos m)) * Qpow 2 e
  | _ => 0
  end.

Definition is_finite (x : jsnum) : bool :=
  match x with
  | Zero _ | Fin _ _ _ => true
  | _ => false
  end.

(* floor (log2 q) for a positive rational *)
Definition floor_log2 (q : Q) : Z :=
  let p := Qnum q in
  let d := Z.pos (Qden q) in
  let l := Z.log2 p - Z.log2 d in
  if (if 0 <=? l then d * 2 ^ l <=? p else d <=? p * 2 ^ (- l)) then l else l - 1.

(* The integer nearest to a rational, the even one on a tie. *)
Definition round_half_even (t : Q) : Z :=
  let n := Qfloor t in
  match (t - inject_Z n ?= 1 # 2)%Q with
  | Lt => n
  | Gt => n + 1
  | Eq => if Z.even n then n else n + 1
  end.

Fixpoint strip (m : positive) (e : Z) : positive * Z :=
  match m with
  | xO m' => strip m' (e + 1)
  | _ => (m, e)
  end.

(* n * 2^ex as a number, infinite from 2^1024 on *)
Definition finite_or_inf (neg : bool) (n ex : Z) : jsnum :=
  match n with
  | Z.pos m =>
      let '(m', e') := strip m ex in
      if 1024 <=? Z.log2 (Z.pos m') + e' then Inf neg else Fin neg m' e'
  | _ => Zero neg
  end.

(* Rounding q > 0 to the nearest double, ties to even: 53 significant
   bits, and multiples of 2^-1074 below 2^-1022. *)
Definition round_pos (neg : bool) (q : Q) : jsnum :=
  let ex := Z.max (floor_log2 q - 52) (-1074) in
  finite_or_inf neg (round_half_even (q * Qpow 2 (- ex))) ex.

(* The number nearest to a rational. *)
Definition round64 (q : Q) : jsnum :=
  let r := Qred q in
  match Qnum r with
  | Z0 => Zero false
  | Z.pos _ => round_pos false r
  | Z.neg _ => round_pos true (- r)
  end.

(* The number for an integer. *)
Definition Num (z : Z) : jsnum := round64 (inject_Z z).

Definition js_neg (x : jsnum) : jsnum :=
  match x with
  | NaN => NaN
  | Inf s => Inf (negb s)
  | Zero s => Zero (negb s)
  | Fin s m e => Fin (negb s) m e
  end.

Definition sign_of (x : jsnum) : bool :=
  match x with
  | Inf s | Zero s | Fin s _ _ => s
  | NaN => false
  end.

(* x + y *)
Definition js_add (x y : jsnum) : jsnum :=
  match x, y with
  | NaN, _ | _, NaN => NaN
  | Inf a, Inf b => if Bool.eqb a b then Inf a else NaN
  | Inf a, _ => Inf a
  | _, Inf b => Inf b
  | Zero a, Zero b => Zero (a && b)
  | Zero _, _ => y
  | _, Zero _ => x
  | _, _ => round64 (num_value x + num_value y)
  end.

(* x - y *)
Definition js_sub (x y : jsnum) : jsnum := js_add x (js_neg y).

(* x * y *)
Definition js_mul (x y : jsnum) : jsnum :=
  match x, y with
  | NaN, _ | _, NaN => NaN
  | Inf a, Zero _ | Zero _, Inf a => NaN
  | Inf a, _ | _, Inf a => Inf (xorb (sign_of x) (sign_of y))
  | Zero _, _ | _, Zero _ => Zero (xorb (sign_of x) (sign_of y))
  | Fin a _ _, Fin b _ _ =>
      match round64 (num_value x * num_value y) with
      | Zero _ => Zero (xorb a b)
      | r => r
      end
  end.

(* x / y *)
Definition js_div (x y : jsnum) : jsnum :=
  match x, y with
  | NaN, _ | _, NaN => NaN
  | Inf _, Inf _ => NaN
  | Zero _, Zero _ => NaN
  | Inf _, _ | _, Zero _ => Inf (xorb (sign_of x) (sign_of y))
  | Zero _, _ | _, Inf _ => Zero (xorb (sign_of x) (sign_of y))
  | Fin a _ _, Fin b _ _ =>
      match round64 (num_value x / num_value y) with
      | Zero _ => Zero (xorb a b)
      | r => r
      end
  end.

(* Math.ceil(x) *)
Definition Math_ceil (x : jsnum) : jsnum :=
  match x with
  | Fin neg m e =>
      if 0 <=? e then x
      else
        let c := if neg then - (Z.pos m / 2 ^ (- e)) else - (- Z.pos m / 2 ^ (- e)) in
        if c =? 0 then Zero true else Num c
  | _ => x
  end.

(* ToBoolean on a number: NaN, +0 and -0 are falsy. *)
Definition truthy_num (n : jsnum) : bool :=
  match n with
  | NaN | Zero _ => false
  | _ => true
  end.

(* x <= y, false when either is NaN *)
Definition js_le (x y : jsnum) : bool :=
  match x, y with
  | NaN, _ | _, NaN => false
  | Inf true, _ | _, Inf false => true
  | Inf false, _ | _, Inf true => false
  | _, _ => Qle_bool (num_value x) (num_value y)
  end.

(* --------------------------------------------------------------------- *)
(* 2. Strings and numbers                                                *)
(* --------------------------------------------------------------------- *)

(* ToBoolean on a string: only the empty string is falsy. *)
Definition truthy_str (s : string) : bool :=
  match s with
  | EmptyString => false
  | String _ _ => true
  end.

(* White space that StringToNumber strips, among the code units below
   256: tab, line feed, vertical tab, form feed, carriage return, space and
   no-break space. *)
Definition is_ws (a : ascii) : bool :=
  let n := nat_of_ascii a in
  ((n =? 32) || (n =? 9) || (n =? 10) || (n =? 11) || (n =? 12) || (n =? 13) || (n =? 160))%nat.

Fixpoint trim_left (s : string) : string :=
  match s with
  | String a r => if is_ws a then trim_left r else s
  | EmptyString => EmptyString
  end.

Fixpoint rev_string (s acc : string) : string :=
  match s with
  | EmptyString => acc
  | String a r => rev_string r (String a acc)
  end.

Definition trim (s : string) : string :=
  rev_string (trim_left (rev_string (trim_left s) "")) "".

Definition digit_of (a : ascii) : option Z :=
  let n := nat_of_ascii a in
  if ((48 <=? n) && (n <=? 57))%nat then Some (Z.of_nat n - 48) else None.

(* The value of a digit in a radix up to 16. *)
Definition hex_digit_of (a : ascii) : option Z :=
  let n := nat_of_ascii a in
  if ((48 <=? n) && (n <=? 57))%nat then Some (Z.of_nat n - 48)
  else if ((97 <=? n) && (n <=? 102))%nat then Some (Z.of_nat n - 87)
  else if ((65 <=? n) && (n <=? 70))%nat then Some (Z.of_nat n - 55)
  else None.

(* The value of a run of decimal digits, continuing from acc. *)
Fixpoint digits_from (acc : Z) (s : string) : option Z :=
  match s with
  | EmptyString => Some acc
  | String a r =>
      match digit_of a with
      | Some d => digits_from (10 * acc + d) r
      | None => None
      end
  end.

(* The value of a non-empty run of digits in a radix. *)
Fixpoint radix_from (radix acc : Z) (s : string) : option Z :=
  match s with
  | EmptyString => Some acc
  | String a r =>
      match hex_digit_of a with
      | Some d => if d <? radix then radix_from radix (radix * acc + d) r else None
      | None => None
      end
  end.

(* The decimal digits at the head of a text, and what follows them. *)
Fixpoint span_digits (s : string) : string * string :=
  match s with
  | String a r =>
      match digit_of a with
      | Some _ => let '(ds, rest) := span_digits r in (String a ds, rest)
      | None => (EmptyString, s)
      end
  | EmptyString => (EmptyString, EmptyString)
  end.

Definition split_sign (s : string) : bool * string :=
  match s with
  | String "-" r => (true, r)
  | String "+" r => (false, r)
  | _ => (false, s)
  end.

(* ExponentPart, when present: e or E, a sign, digits. *)
Definition exponent_part (s : string) : option Z :=
  match s with
  | EmptyString => Some 0
  | String c r =>
      if (Ascii.eqb c "e" || Ascii.eqb c "E")%bool then
        let '(neg, u) := split_sign r in
        match u with
        | EmptyString => None
        | _ =>
            match digits_from 0 u with
            | Some v => Some (if neg then - v else v)
            | None => None
            end
        end
      else None
  end.

(* mant * 10^d, rounded; the sign is kept on a zero. *)
Definition decimal (neg : bool) (mant d : Z) : jsnum :=
  if mant =? 0 then Zero neg
  else round64 ((if neg then - inject_Z mant else inject_Z mant) * Qpow 10 d).

(* StrDecimalLiteral without Infinity: sign, digits, fraction, exponent. *)
Definition parse_decimal (t : string) : option jsnum :=
  let '(neg, u) := split_sign t in
  let '(ip, r1) := span_digits u in
  let '(fp, r2) :=
    match r1 with
    | String "." r => span_digits r
    | _ => (EmptyString, r1)
    end in
  match ip +:+ fp with
  | EmptyString => None
  | ds =>
      match exponent_part r2, digits_from 0 ds with
      | Some ex, Some mant => Some (decimal neg mant (ex - Z.of_nat (String.length fp)))
      | _, _ => None
      end
  end.

(* NonDecimalIntegerLiteral: 0x, 0o, 0b and digits, without a sign. *)
Definition parse_radix (t : string) : option jsnum :=
  match t with
  | String "0" (String c (String a r)) =>
      let radix :=
        if (Ascii.eqb c "x" || Ascii.eqb c "X")%bool then Some 16
        else if (Ascii.eqb c "o" || Ascii.eqb c "O")%bool then Some 8
        else if (Ascii.eqb c "b" || Ascii.eqb c "B")%bool then Some 2
        else None in
      match radix with
      | Some b =>
          match radix_from b 0 (String a r) with
          | Some v => Some (Num v)
          | None => None
          end
      | None => None
      end
  | _ => None
  end.

Definition parse_infinity (t : string) : jsnum :=
  let '(neg, u) := split_sign t in
  if String.eqb u "Infinity" then Inf neg else NaN.

(* Number(s) for a string (StringToNumber): surrounding white space is
   dropped; the empty text is 0; a decimal literal with optional sign,
   fraction and exponent, a binary, octal or hexadecimal integer literal, or
   a signed Infinity is its value rounded to a double; any other text is
   NaN. *)
Definition Number_of_string (s : string) : jsnum :=
  match trim s with
  | EmptyString => Zero false
  | t =>
      match parse_decimal t with
      | Some n => n
      | None =>
          match parse_radix t with
          | Some n => n
          | None => parse_infinity t
          end
      end
  end.

(* ---- Number::toString ------------------------------------------------ *)

(* The decimal digits of a non-negative integer. *)
Definition string_of_nonneg (n : Z) : string :=
  match n with
  | Z.pos p => NilEmpty.string_of_uint (Pos.to_uint p)
  | _ => "0"
  end.

Fixpoint zeros (n : nat) : string :=
  match n with
  | O => EmptyString
  | S n' => String "0" (zeros n')
  end.

Fixpoint take (n : nat) (s : string) : string :=
  match n, s with
  | S n', String a r => String a (take n' r)
  | _, _ => EmptyString
  end.

Fixpoint drop (n : nat) (s : string) : string :=
  match n, s with
  | S n', String a r => drop n' r
  | _, _ => s
  end.

(* floor (log10 q) for a positive rational *)
Definition floor_log10 (q : Q) : Z :=
  let e0 := (floor_log2 q * 1233) / 4096 in
  let e1 := if Qle_bool (Qpow 10 e0) q then e0 else e0 - 1 in
  if Qle_bool (Qpow 10 (e1 + 1)) q then e1 + 1 else e1.

(* The multiple s * 10^k nearest to q among those that round to x, when
   there is one: only the multiples next to q can. *)
Definition candidate (x : jsnum) (q : Q) (k : Z) : option Z :=
  let t := (q * Qpow 10 (- k))%Q in
  let lo := Qfloor t in
  let hi := lo + 1 in
  let ok c := (0 <? c) && jsnum_eqb (decimal false c k) x in
  if Qeq_bool t (inject_Z lo) then (if ok lo then Some lo else None)
  else
    match ok lo, ok hi with
    | true, true =>
        match (t - inject_Z lo ?= 1 # 2)%Q with
        | Lt => Some lo
        | Gt => Some hi
        | Eq => if Z.even lo then Some lo else Some hi
        end
    | true, false => Some lo
    | false, true => Some hi
    | false, false => None
    end.

(* The first exponent k, counting down, with a candidate: the fewest
   digits. *)
Fixpoint shortest (fuel : nat) (x : jsnum) (q : Q) (k : Z) : Z * Z :=
  match candidate x q k with
  | Some s => (s, k)
  | None =>
      match fuel with
      | O => (0, k)
      | S f => shortest f x q (k - 1)
      end
  end.

(* Dropping the zeros at the end of s, each into the exponent. *)
Fixpoint strip10 (fuel : nat) (s k : Z) : Z * Z :=
  match fuel with
  | O => (s, k)
  | S f => if (0 <? s) && (s mod 10 =? 0) then strip10 f (s / 10) (k + 1) else (s, k)
  end.

(* The digits s and the exponent n of Number::toString for a positive
   finite number: s * 10^(n - k) rounds to x, with k, the number of digits
   of s, as small as possible. *)
Definition shortest_digits (m : positive) (e : Z) : Z * Z :=
  let q := num_value (Fin false m e) in
  let k0 := Z.max (floor_log10 q) (-1074) in
  let '(s, k) := shortest (Z.to_nat (k0 + 1074)) (Fin false m e) q k0 in
  strip10 (S (Z.to_nat (Z.log2 s))) s k.

(* The text for the digits ds and the exponent n (steps 6 to 10 of
   Number::toString). *)
Definition format_digits (ds : string) (n : Z) : string :=
  let k := Z.of_nat (String.length ds) in
  if (k <=? n) && (n <=? 21) then ds +:+ zeros (Z.to_nat (n - k))
  else if (0 <? n) && (n <=? 21) then
    take (Z.to_nat n) ds +:+ String "." (drop (Z.to_nat n) ds)
  else if (-6 <? n) && (n <=? 0) then
    String "0" (String "." (zeros (Z.to_nat (- n)) +:+ ds))
  else
    let ex := String "e" (String (if n - 1 <? 0 then "-" else "+")
                            (string_of_nonneg (Z.abs (n - 1)))) in
    match ds with
    | String a (String b r) => String a (String "." (String b r +:+ ex))
    | _ => ds +:+ ex
    end.

(* Number::toString(x), radix 10, which template literals and
   String(x) apply to a number. *)
Definition toString_num (x : jsnum) : string :=
  match x with
  | NaN => "NaN"
  | Inf neg => if neg then "-Infinity" else "Infinity"
  | Zero _ => "0"
  | Fin neg m e =>
      let '(s, k) := shortest_digits m e in
      let ds := string_of_nonneg s in
      let t := format_digits ds (k + Z.of_nat (String.length ds)) in
      if neg then String "-" t else t
  end.

(* --------------------------------------------------------------------- *)
(* 3. Query parameters, their normalisation and the cache keys
      (getProducts, lines 12-17; getTopProducts, line 186)               *)
(* --------------------------------------------------------------------- *)

(* What the query parser of Express hands over for one parameter: a text,
   an array (a parameter given several times) or a nested object. *)
Inductive qvalue : Type :=
  | QStr (s : string)
  | QArr (items : list qvalue)
  | QObj (members : list (string * qvalue)).

(* ToBoolean on a query value: only the empty text is falsy. *)
Definition truthy_q (v : qvalue) : bool :=
  match v with
  | QStr s => truthy_str s
  | _ => true
  end.

(* Array.prototype.join with a comma, on the texts of the elements. *)
Fixpoint join_comma (l : list string) : string :=
  match l with
  | [] => ""
  | x :: r =>
      match r with
      | [] => x
      | _ => x +:+ "," +:+ join_comma r
      end
  end.

(* v.toString() on a query value: a text is itself, an array is the texts
   of its elements joined by commas, an object is [object Object]. *)
Fixpoint q_toString (v : qvalue) : string :=
  match v with
  | QStr s => s
  | QArr items => join_comma (map q_toString items)
  | QObj _ => "[object Object]"
  end.

(* Number(v) for a query parameter, which is undefined when missing; an
   array or an object is read through its text. *)
Definition Number (q : option qvalue) : jsnum :=
  match q with
  | None => NaN
  | Some v => Number_of_string (q_toString v)
  end.

(* const page = Number(req.query.pageNumber) || 1 *)
Definition page_of (pageNumber : option qvalue) : jsnum :=
  let n := Number pageNumber in
  if truthy_num n then n else Num 1.

(* const keywordStr = req.query.keyword ? req.query.keyword.toString() : '' *)
Definition keywordStr_of (keyword : option qvalue) : string :=
  match keyword with
  | Some v => if truthy_q v then q_toString v else ""
  | None => ""
  end.

(* `products_page_${page}_keyword_${keywordStr}` *)
Definition cacheKey (page : jsnum) (keywordStr : string) : string :=
  "products_page_" +:+ toString_num page +:+ "_keyword_" +:+ keywordStr.

Definition top_products_key : string := "top_products".

(* --------------------------------------------------------------------- *)
(* 4. Documents, JavaScript values and the heap of live documents        *)
(* --------------------------------------------------------------------- *)

(* An ObjectId. *)
Definition Id := nat.
Bind Scope nat_scope with Id.

Record User := mkUser { u_id : Id; u_name : string }.

(* A review sub-document, with the members createProductReview writes. *)
Record Review := mkReview {
  r_name : string;
  r_rating : jsnum;
  r_comment : string;
  r_user : Id
}.

(* A product document, with the members the controller reads and writes. *)
Record Product := mkProduct {
  p_id : Id;
  p_name : string;
  p_price : Z;
  p_user : Id;
  p_image : string;
  p_brand : string;
  p_category : string;
  p_countInStock : Z;
  p_numReviews : Z;
  p_description : string;
  p_rating : jsnum;
  p_reviews : list Review
}.

(* Live document objects are heap cells; a handler that holds a document
   holds its address.  Two values naming the same address alias. *)
Definition loc := nat.
Definition Heap := list Product.

Definition alloc (p : Product) (h : Heap) : loc * Heap :=
  (List.length h, h ++ [p]).

Fixpoint alloc_all (ps : list Product) (h : Heap) : list loc * Heap :=
  match ps with
  | [] => ([], h)
  | p :: ps' =>
      let '(l, h1) := alloc p h in
      let '(ls, h2) := alloc_all ps' h1 in
      (l :: ls, h2)
  end.

(* JavaScript values as they travel through the controller: JSON-like
   data, plus references to live documents.  [VData p] is the plain
   object holding the data of a document (what its toJSON gives);
   [VDoc l] is the live document object at address [l]. *)
Inductive jsval : Type :=
  | VUndefined
  | VNull
  | VBool (b : bool)
  | VNum (n : jsnum)
  | VStr (s : string)
  | VArr (items : list jsval)
  | VObj (members : list (string * jsval))
  | VData (p : Product)
  | VDoc (l : loc).

(* A value is plain when no live document is reachable from it. *)
Fixpoint plain (v : jsval) : bool :=
  match v with
  | VDoc _ => false
  | VArr items => forallb plain items
  | VObj members => forallb (fun m => plain (snd m)) members
  | _ => true
  end.

Definition is_undefined (v : jsval) : bool :=
  match v with VUndefined => true | _ => false end.

(* The JSON text of a number, read back: null when it is not finite, and
   0 for -0.  A finite number reads back as itself. *)
Definition json_num (n : jsnum) : jsval :=
  match n with
  | NaN | Inf _ => VNull
  | Zero _ => VNum (Zero false)
  | Fin _ _ _ => VNum n
  end.

(* JSON.parse(JSON.stringify(v)) against the heap [h]: live documents are
   replaced by their data, non-finite numbers become null, undefined
   becomes null inside arrays and is dropped from objects. *)
Fixpoint JSON_roundtrip (h : Heap) (v : jsval) : jsval :=
  match v with
  | VUndefined => VUndefined
  | VNull => VNull
  | VBool b => VBool b
  | VNum n => json_num n
  | VStr s => VStr s
  | VArr items =>
      VArr (map (fun x => if is_undefined x then VNull else JSON_roundtrip h x) items)
  | VObj members =>
      VObj (flat_map (fun m => if is_undefined (snd m) then []
                               else [(fst m, JSON_roundtrip h (snd m))]) members)
  | VData p => VData p
  | VDoc l =>
      match h !! l with
      | Some p => VData p
      | None => VNull
      end
  end.

(* What a holder of [v] observes when reading through it now. *)
Definition observe (h : Heap) (v : jsval) : jsval := JSON_roundtrip h v.

(* Member lookup on an object value. *)
Fixpoint assoc (k : string) (ms : list (string * jsval)) : option jsval :=
  match ms with
  | [] => None
  | (k', v) :: ms' => if String.eqb k k' then Some v else assoc k ms'
  end.

Definition member (k : string) (v : jsval) : option jsval :=
  match v with
  | VObj ms => assoc k ms
  | _ => None
  end.

(* ToString on a value; inside an array null and undefined give the empty
   text. *)
Fixpoint js_toString (v : jsval) : string :=
  match v with
  | VUndefined => "undefined"
  | VNull => "null"
  | VBool b => if b then "true" else "false"
  | VNum n => toString_num n
  | VStr s => s
  | VArr items =>
      join_comma (map (fun x => match x with
                                | VUndefined | VNull => ""
                                | _ => js_toString x
                                end) items)
  | VObj _ | VData _ | VDoc _ => "[object Object]"
  end.

(* ToNumber, which Number(v) and the arithmetic operators apply. *)
Definition ToNumber (v : jsval) : jsnum :=
  match v with
  | VUndefined => NaN
  | VNull => Num 0
  | VBool b => if b then Num 1 else Num 0
  | VNum n => n
  | VStr s => Number_of_string s
  | VArr _ => Number_of_string (js_toString v)
  | VObj _ | VData _ | VDoc _ => NaN
  end.

(* --------------------------------------------------------------------- *)
(* 5. The cache store                                                    *)
(* --------------------------------------------------------------------- *)

(* The NodeCache class behind the module-level [cache] is a package the
   controller imports; its source is not part of the controller.  The store
   is therefore modelled on the CacheStore contract of the specification.
   Times are in seconds. *)

(** Modelled from the spec: the entry of the NodeCache store, which is
    { value, storedAt, ttl }. *)
Record CacheEntry := mkEntry {
  value : jsval;
  storedAt : Z;
  ttl : Z
}.

(** Modelled from the spec: the NodeCache store, a mapping from keys to
    entries created with a default time-to-live. *)
Record CacheStore := mkStore {
  stdTTL : Z;
  data : gmap string CacheEntry
}.

(** Modelled from the spec: liveness of a NodeCache entry, which is live
    while now < storedAt + ttl and expired otherwise. *)
Definition live (now : Z) (e : CacheEntry) : bool :=
  now <? storedAt e + ttl e.

(** Modelled from the spec: NodeCache's has(key), true iff an entry exists
    for the key and is live. *)
Definition cache_has (now : Z) (key : string) (c : CacheStore) : bool :=
  match data c !! key with
  | Some e => live now e
  | None => false
  end.

(** Modelled from the spec: NodeCache's get(key), the stored value if live,
    absent otherwise; the store is not changed. *)
Definition cache_get (now : Z) (key : string) (c : CacheStore) : option jsval :=
  match data c !! key with
  | Some e => if live now e then Some (value e) else None
  | None => None
  end.

(** Modelled from the spec: the value of an entry is a materialized
    snapshot, not a live reference to a domain object.  What the store keeps
    of a value handed to it is a copy taken at that moment, in which every
    live document is replaced by its data. *)
Fixpoint materialize (h : Heap) (v : jsval) : jsval :=
  match v with
  | VDoc l =>
      match h !! l with
      | Some p => VData p
      | None => VUndefined
      end
  | VArr items => VArr (map (materialize h) items)
  | VObj members => VObj (map (fun m => (fst m, materialize h (snd m))) members)
  | _ => v
  end.

(** Modelled from the spec: NodeCache's set(key, value), which inserts or
    overwrites the entry and restarts its expiry clock at now, with the
    default time-to-live. *)
Definition cache_set (now : Z) (key : string) (v : jsval) (c : CacheStore) : CacheStore :=
  mkStore (stdTTL c) (<[key := mkEntry v now (stdTTL c)]> (data c)).

(** Modelled from the spec: NodeCache's flushAll(), which removes every
    entry, live or not. *)
Definition cache_flushAll (c : CacheStore) : CacheStore :=
  mkStore (stdTTL c) ∅.

Record NodeCacheOptions := mkOptions { opt_stdTTL : Z }.

(** Modelled from the spec: NodeCache's constructor, an empty store with
    the configured default time-to-live. *)
Definition NodeCache_new (o : NodeCacheOptions) : CacheStore :=
  mkStore (opt_stdTTL o) ∅.

(* process.env *)
Definition Env := gmap string string.

(* const cache = new NodeCache({ stdTTL: 300 }), evaluated when the module
   is loaded in a process whose environment is [e]. *)
Definition module_cache (e : Env) : CacheStore :=
  NodeCache_new (mkOptions 300).

(* --------------------------------------------------------------------- *)
(* 6. The data-access layer                                              *)
(* --------------------------------------------------------------------- *)

Record Error := mkError { message : string }.

(* The query object handed to the Product model.  The pattern is the query
   parameter as it came, whatever its kind. *)
Inductive Filter : Type :=
  | FAll                                              (* {} *)
  | FNameRegex (pattern : qvalue) (options : string). (* { name: { $regex, $options } } *)

Record Query := mkQuery {
  q_filter : Filter;
  q_sort_rating_desc : bool;                     (* .sort({ rating: -1 }) *)
  q_limit : jsval;                               (* .limit(n) *)
  q_skip : option jsnum                          (* .skip(n), when given *)
}.

(* The Product model and the database behind it are collaborators of the
   controller: an interface, with every call able to fail.  A count that is
   answered is a whole number of documents, which a number holds exactly. *)
Class DataAccess (DB : Type) := {
  countDocuments : Filter -> DB -> Error + Z;
  find : Query -> DB -> Error + list Product;
  findById : Id -> DB -> Error + option Product;
  save : Product -> DB -> Error + (Product * DB);
  deleteOne : Id -> DB -> Error + DB;
  newObjectId : DB -> Id;
  count_range : forall f d c, countDocuments f d = inr c -> 0 <= c < 2 ^ 53
}.

(* --------------------------------------------------------------------- *)
(* 7. The world, requests, responses and the handler monad               *)
(* --------------------------------------------------------------------- *)

(* What a handler does that an observer can order in time. *)
Inductive Event : Type :=
  | CacheHas (key : string)
  | CacheGet (key : string)
  | CacheSet (key : string)
  | CacheFlushAll
  | DbQuery          (* a read answered by the data-access layer *)
  | DbCommit         (* a mutation committed by the data-access layer *)
  | DbError          (* a data-access call that failed *)
  | Send (status : Z).

Record World (DB : Type) := mkWorld {
  env : Env;               (* process.env *)
  db : DB;                 (* the database behind Product *)
  heap : Heap;             (* live document objects *)
  cache : CacheStore;      (* the module-level cache *)
  clock : Z;               (* the current time *)
  log : list Event         (* events so far, oldest first *)
}.
Arguments mkWorld {DB}.
Arguments env {DB}.
Arguments db {DB}.
Arguments heap {DB}.
Arguments cache {DB}.
Arguments clock {DB}.
Arguments log {DB}.

(* The Express response object of one request. *)
Record Res := mkRes {
  statusCode : Z;
  headers : gmap string string;
  body : option jsval
}.

(* The Express request, with the parts the handlers read. *)
Record Request := mkRequest {
  query_pageNumber : option qvalue;
  query_keyword : option qvalue;
  params_id : Id;
  req_user : option User;
  body_name : string;
  body_price : Z;
  body_description : string;
  body_image : string;
  body_brand : string;
  body_category : string;
  body_countInStock : Z;
  body_rating : jsval;
  body_comment : string
}.

Inductive outcome (A : Type) : Type :=
  | Ok (a : A)
  | Throw (e : Error).
Arguments Ok {A}.
Arguments Throw {A}.

Definition is_ok {A} (o : outcome A) : bool :=
  match o with Ok _ => true | Throw _ => false end.

(* A handler step: it reads and writes the world and the response, and
   either yields a value or throws.  What was written before a throw
   stays written.  The asyncHandler wrapper passes a thrown error on to the
   error middleware; here the error is the outcome of the run. *)
Definition M (DB A : Type) : Type :=
  World DB * Res -> outcome A * (World DB * Res).

Definition ret {DB A} (a : A) : M DB A := fun s => (Ok a, s).

Definition bind {DB A B} (m : M DB A) (k : A -> M DB B) : M DB B :=
  fun s =>
    match m s with
    | (Ok a, s') => k a s'
    | (Throw e, s') => (Throw e, s')
    end.

Definition throw {DB A} (e : Error) : M DB A := fun s => (Throw e, s).

Declare Scope handler_scope.
Delimit Scope handler_scope with handler.
Notation "x <- m ;; k" := (bind m (fun x => k))
  (at level 100, m at next level, right associativity) : handler_scope.
Notation "m ;; k" := (bind m (fun _ => k))
  (at level 100, right associativity) : handler_scope.

Definition set_db {DB} (d : DB) (w : World DB) : World DB :=
  mkWorld (env w) d (heap w) (cache w) (clock w) (log w).
Definition set_heap {DB} (h : Heap) (w : World DB) : World DB :=
  mkWorld (env w) (db w) h (cache w) (clock w) (log w).
Definition set_cache {DB} (c : CacheStore) (w : World DB) : World DB :=
  mkWorld (env w) (db w) (heap w) c (clock w) (log w).
Definition set_clock {DB} (t : Z) (w : World DB) : World DB :=
  mkWorld (env w) (db w) (heap w) (cache w) t (log w).
Definition emit {DB} (e : Event) (w : World DB) : World DB :=
  mkWorld (env w) (db w) (heap w) (cache w) (clock w) (log w ++ [e]).

(* Time passing between two requests. *)
Definition advance {DB} (d : Z) (w : World DB) : World DB :=
  set_clock (clock w + d) w.

Section Controller.
Context {DB : Type} `{DataAccess DB}.

Local Open Scope handler_scope.

(* process.env[name] *)
Definition process_env (name : string) : M DB (option string) :=
  fun s => (Ok (env (fst s) !! name), s).

(* cache.has(key), cache.get(key), cache.set(key, v), cache.flushAll() *)
Definition do_cache_has (key : string) : M DB bool :=
  fun s =>
    let w := fst s in
    (Ok (cache_has (clock w) key (cache w)), (emit (CacheHas key) w, snd s)).

Definition do_cache_get (key : string) : M DB jsval :=
  fun s =>
    let w := fst s in
    (Ok (default VUndefined (cache_get (clock w) key (cache w))),
     (emit (CacheGet key) w, snd s)).

(* The store keeps its own copy of the value it is handed. *)
Definition do_cache_set (key : string) (v : jsval) : M DB unit :=
  fun s =>
    let w := fst s in
    (Ok tt,
     (emit (CacheSet key)
        (set_cache (cache_set (clock w) key (materialize (heap w) v) (cache w)) w),
      snd s)).

Definition do_cache_flushAll : M DB unit :=
  fun s =>
    let w := fst s in
    (Ok tt, (emit CacheFlushAll (set_cache (cache_flushAll (cache w)) w), snd s)).

(* res.set(name, v), res.status(n), res.json(v) *)
Definition res_set (name v : string) : M DB unit :=
  fun s =>
    let r := snd s in
    (Ok tt, (fst s, mkRes (statusCode r) (<[name := v]> (headers r)) (body r))).

Definition res_status (n : Z) : M DB unit :=
  fun s =>
    let r := snd s in
    (Ok tt, (fst s, mkRes n (headers r) (body r))).

(* The body sent is the serialisation of [v] at the time of the call. *)
Definition res_json (v : jsval) : M DB unit :=
  fun s =>
    let w := fst s in
    let r := snd s in
    (Ok tt, (emit (Send (statusCode r)) w,
             mkRes (statusCode r) (headers r) (Some (JSON_roundtrip (heap w) v)))).

(* JSON.parse(JSON.stringify(v)) *)
Definition JSON_parse_stringify (v : jsval) : M DB jsval :=
  fun s => (Ok (JSON_roundtrip (heap (fst s)) v), s).

(* Lifting a data-access read: the answer, or the error thrown. *)
Definition db_read {A} (q : DB -> Error + A) : M DB A :=
  fun s =>
    let w := fst s in
    match q (db w) with
    | inr a => (Ok a, (emit DbQuery w, snd s))
    | inl e => (Throw e, (emit DbError w, snd s))
    end.

(* Lifting a data-access mutation: on success the new database is in
   place when the call returns. *)
Definition db_write {A} (q : DB -> Error + (A * DB)) : M DB A :=
  fun s =>
    let w := fst s in
    match q (db w) with
    | inr (a, d) => (Ok a, (emit DbCommit (set_db d w), snd s))
    | inl e => (Throw e, (emit DbError w, snd s))
    end.

(* Turning the documents of an answer into live document objects. *)
Definition hydrate (ps : list Product) : M DB (list loc) :=
  fun s =>
    let w := fst s in
    let '(ls, h) := alloc_all ps (heap w) in
    (Ok ls, (set_heap h w, snd s)).

Definition hydrate_one (p : Product) : M DB loc :=
  fun s =>
    let w := fst s in
    let '(l, h) := alloc p (heap w) in
    (Ok l, (set_heap h w, snd s)).

(* Reading and assigning the members of a live document. *)
Definition doc_read (l : loc) : M DB Product :=
  fun s =>
    match heap (fst s) !! l with
    | Some p => (Ok p, s)
    | None => (Throw (mkError "TypeError"), s)
    end.

Definition doc_assign (l : loc) (f : Product -> Product) : M DB unit :=
  fun s =>
    let w := fst s in
    match heap w !! l with
    | Some p => (Ok tt, (set_heap (<[l := f p]> (heap w)) w, snd s))
    | None => (Throw (mkError "TypeError"), s)
    end.

(* Product.countDocuments(filter) *)
Definition Product_countDocuments (f : Filter) : M DB Z :=
  db_read (countDocuments f).

(* Product.find(...) with its chained limit, skip and sort *)
Definition Product_find (q : Query) : M DB (list loc) :=
  ps <- db_read (find q) ;;
  hydrate ps.

(* Product.findById(id): a live document, or null *)
Definition Product_findById (id : Id) : M DB (option loc) :=
  o <- db_read (findById id) ;;
  match o with
  | Some p => l <- hydrate_one p ;; ret (Some l)
  | None => ret None
  end.

(* new Product({...}): a live document with a fresh ObjectId *)
Definition Product_new (mk : Id -> Product) : M DB loc :=
  fun s => hydrate_one (mk (newObjectId (db (fst s)))) s.

(* product.save(): the stored document is the same object *)
Definition doc_save (l : loc) : M DB loc :=
  p <- doc_read l ;;
  p' <- db_write (save p) ;;
  doc_assign l (fun _ => p') ;;
  ret l.

(* Product.deleteOne({ _id: id }) *)
Definition Product_deleteOne (id : Id) : M DB unit :=
  db_write (fun d => match deleteOne id d with
                     | inr d' => inr (tt, d')
                     | inl e => inl e
                     end).

(* ------------------------------------------------------------------- *)
(* 8. The handlers of productController.js                              *)
(* ------------------------------------------------------------------- *)

(* process.env.PAGINATION_LIMIT || 8: the variable's text when it is set
   and not empty, the number 8 otherwise. *)
Definition pageSize_of (limit : option string) : jsval :=
  match limit with
  | Some s => if truthy_str s then VStr s else VNum (Num 8)
  | None => VNum (Num 8)
  end.

(* Math.ceil(a / b) *)
Definition Math_ceil_div (a b : jsnum) : jsnum := Math_ceil (js_div a b).

(* req.query.keyword ? { name: { $regex: req.query.keyword, $options: 'i' } } : {} *)
Definition keyword_filter (keyword : option qvalue) : Filter :=
  match keyword with
  | Some v => if truthy_q v then FNameRegex v "i" else FAll
  | None => FAll
  end.

Definition getProducts (req : Request) : M DB unit :=
  limit <- process_env "PAGINATION_LIMIT" ;;
  let pageSize := pageSize_of limit in
  let page := page_of (query_pageNumber req) in
  let keywordStr := keywordStr_of (query_keyword req) in
  let key := cacheKey page keywordStr in
  hit <- do_cache_has key ;;
  if hit : bool then
    res_set "X-Cache" "HIT" ;;
    v <- do_cache_get key ;;
    res_json v
  else
    res_set "X-Cache" "MISS" ;;
    let keyword := keyword_filter (query_keyword req) in
    count <- Product_countDocuments keyword ;;
    products <- Product_find
                  (mkQuery keyword false pageSize
                     (Some (js_mul (ToNumber pageSize) (js_sub page (Num 1))))) ;;
    let responseData :=
      VObj [("products", VArr (map VDoc products));
            ("page", VNum page);
            ("pages", VNum (Math_ceil_div (Num count) (ToNumber pageSize)))] in
    plainResponseData <- JSON_parse_stringify responseData ;;
    do_cache_set key plainResponseData ;;
    res_json plainResponseData.

Definition getProductById (req : Request) : M DB unit :=
  product <- Product_findById (params_id req) ;;
  match product with
  | Some l => res_json (VDoc l)
  | None =>
      res_status 404 ;;
      throw (mkError "Product not found")
  end.

(* req.user._id and req.user.name throw a TypeError without a user. *)
Definition the_user (req : Request) : M DB User :=
  match req_user req with
  | Some u => ret u
  | None => throw (mkError "TypeError")
  end.

(* The members the literal does not give (rating, reviews) start at 0 and
   empty. *)
Definition createProduct (req : Request) : M DB unit :=
  u <- the_user req ;;
  product <- Product_new (fun id =>
    mkProduct id "Sample name" 0 (u_id u) "/images/sample.jpg" "Sample brand"
      "Sample category" 0 0 "Sample description" (Num 0) []) ;;
  createdProduct <- doc_save product ;;
  do_cache_flushAll ;;
  res_status 201 ;;
  res_json (VDoc createdProduct).

Definition assign_body (req : Request) (p : Product) : Product :=
  mkProduct (p_id p) (body_name req) (body_price req) (p_user p) (body_image req)
    (body_brand req) (body_category req) (body_countInStock req) (p_numReviews p)
    (body_description req) (p_rating p) (p_reviews p).

Definition updateProduct (req : Request) : M DB unit :=
  product <- Product_findById (params_id req) ;;
  match product with
  | Some l =>
      doc_assign l (assign_body req) ;;
      updatedProduct <- doc_save l ;;
      do_cache_flushAll ;;
      res_json (VDoc updatedProduct)
  | None =>
      res_status 404 ;;
      throw (mkError "Product not found")
  end.

Definition deleteProduct (req : Request) : M DB unit :=
  product <- Product_findById (params_id req) ;;
  match product with
  | Some l =>
      p <- doc_read l ;;
      Product_deleteOne (p_id p) ;;
      do_cache_flushAll ;;
      res_json (VObj [("message", VStr "Product removed")])
  | None =>
      res_status 404 ;;
      throw (mkError "Product not found")
  end.

(* product.reviews.push(review) *)
Definition push_review (r : Review) (p : Product) : Product :=
  mkProduct (p_id p) (p_name p) (p_price p) (p_user p) (p_image p) (p_brand p)
    (p_category p) (p_countInStock p) (p_numReviews p) (p_description p)
    (p_rating p) (p_reviews p ++ [r]).

(* product.numReviews = product.reviews.length *)
Definition assign_numReviews (p : Product) : Product :=
  mkProduct (p_id p) (p_name p) (p_price p) (p_user p) (p_image p) (p_brand p)
    (p_category p) (p_countInStock p) (Z.of_nat (List.length (p_reviews p)))
    (p_description p) (p_rating p) (p_reviews p).

(* product.reviews.reduce((acc, item) => item.rating + acc, 0) *)
Definition reduce_ratings (rs : list Review) : jsnum :=
  fold_left (fun acc item => js_add (r_rating item) acc) rs (Num 0).

(* product.rating = product.reviews.reduce((acc, item) => item.rating + acc, 0)
                    / product.reviews.length *)
Definition assign_rating (p : Product) : Product :=
  mkProduct (p_id p) (p_name p) (p_price p) (p_user p) (p_image p) (p_brand p)
    (p_category p) (p_countInStock p) (p_numReviews p) (p_description p)
    (js_div (reduce_ratings (p_reviews p)) (Num (Z.of_nat (List.length (p_reviews p)))))
    (p_reviews p).

Definition createProductReview (req : Request) : M DB unit :=
  product <- Product_findById (params_id req) ;;
  match product with
  | Some l =>
      p <- doc_read l ;;
      u <- the_user req ;;
      let alreadyReviewed :=
        existsb (fun r => Nat.eqb (r_user r) (u_id u)) (p_reviews p) in
      if alreadyReviewed then
        res_status 400 ;;
        throw (mkError "Product already reviewed")
      else
        let review :=
          mkReview (u_name u) (ToNumber (body_rating req)) (body_comment req) (u_id u) in
        doc_assign l (push_review review) ;;
        doc_assign l assign_numReviews ;;
        doc_assign l assign_rating ;;
        doc_save l ;;
        do_cache_flushAll ;;
        res_status 201 ;;
        res_json (VObj [("message", VStr "Review added")])
  | None =>
      res_status 404 ;;
      throw (mkError "Product not found")
  end.

Definition getTopProducts (req : Request) : M DB unit :=
  let key := top_products_key in
  hit <- do_cache_has key ;;
  if hit : bool then
    res_set "X-Cache" "HIT" ;;
    v <- do_cache_get key ;;
    res_json v
  else
    res_set "X-Cache" "MISS" ;;
    products <- Product_find (mkQuery FAll true (VNum (Num 3)) None) ;;
    do_cache_set key (VArr (map VDoc products)) ;;
    res_json (VArr (map VDoc products)).

(* ------------------------------------------------------------------- *)
(* 9. Routes                                                            *)
(* ------------------------------------------------------------------- *)

Inductive Route : Type :=
  | GET_products              (* GET    /api/products *)
  | GET_products_id           (* GET    /api/products/:id *)
  | POST_products             (* POST   /api/products *)
  | PUT_products_id           (* PUT    /api/products/:id *)
  | DELETE_products_id        (* DELETE /api/products/:id *)
  | POST_products_id_reviews  (* POST   /api/products/:id/reviews *)
  | GET_products_top.         (* GET    /api/products/top *)

Definition is_GET (r : Route) : bool :=
  match r with
  | GET_products | GET_products_id | GET_products_top => true
  | _ => false
  end.

Definition handler (r : Route) : Request -> M DB unit :=
  match r with
  | GET_products => getProducts
  | GET_products_id => getProductById
  | POST_products => createProduct
  | PUT_products_id => updateProduct
  | DELETE_products_id => deleteProduct
  | POST_products_id_reviews => createProductReview
  | GET_products_top => getTopProducts
  end.

Definition fresh_res : Res := mkRes 200 ∅ None.

(* One request served: the handler's outcome, the response object as the
   handler left it, and the world afterwards. *)
Definition run (m : M DB unit) (w : World DB) : outcome unit * Res * World DB :=
  let '(o, (w', r)) := m (w, fresh_res) in (o, r, w').

Definition serve (r : Route) (req : Request) (w : World DB)
  : outcome unit * Res * World DB :=
  run (handler r req) w.

End Controller.

(* --------------------------------------------------------------------- *)
(* 10. An in-memory data-access layer, for running the handlers          *)
(* --------------------------------------------------------------------- *)

(* A list of documents and a switch for the connection: with the
   connection down every call fails.  A $regex pattern that is a text is
   read as a literal text searched in the name, ignoring case under the
   option i; a pattern of another kind, a limit or a skip that is no whole
   number is refused.  A limit of 0 is no limit. *)
Record MemDB := mkMemDB {
  docs : list Product;
  online : bool
}.

Definition lower (a : ascii) : ascii :=
  let n := nat_of_ascii a in
  if ((65 <=? n) && (n <=? 90))%nat then ascii_of_nat (n + 32) else a.

Fixpoint lower_string (s : string) : string :=
  match s with
  | EmptyString => EmptyString
  | String a r => String (lower a) (lower_string r)
  end.

Fixpoint contains (pat s : string) : bool :=
  String.prefix pat s ||
  match s with
  | EmptyString => false
  | String _ r => contains pat r
  end.

Definition matcher (f : Filter) : option (Product -> bool) :=
  match f with
  | FAll => Some (fun _ => true)
  | FNameRegex (QStr pat) opts =>
      Some (fun p => if contains "i" opts
                     then contains (lower_string pat) (lower_string (p_name p))
                     else contains pat (p_name p))
  | FNameRegex _ _ => None
  end.

Fixpoint insert_by_rating (p : Product) (ps : list Product) : list Product :=
  match ps with
  | [] => [p]
  | x :: xs =>
      if js_le (p_rating x) (p_rating p) then p :: ps
      else x :: insert_by_rating p xs
  end.

Definition sort_by_rating_desc (ps : list Product) : list Product :=
  fold_right insert_by_rating [] ps.

Definition offline_error : Error := mkError "connection lost".
Definition cast_error : Error := mkError "CastError".

(* A number of documents: a whole number that is not negative. *)
Definition amount (n : jsnum) : option nat :=
  match n with
  | Zero _ => Some O
  | Fin false m e => if 0 <=? e then Some (Z.to_nat (Z.pos m * 2 ^ e)) else None
  | _ => None
  end.

Definition limited (lim : nat) (ps : list Product) : list Product :=
  match lim with
  | O => ps
  | _ => firstn lim ps
  end.

Definition mem_find (q : Query) (d : MemDB) : Error + list Product :=
  if online d then
    match matcher (q_filter q), amount (ToNumber (q_limit q)),
          match q_skip q with Some n => amount n | None => Some O end with
    | Some m, Some lim, Some sk =>
        let hits := List.filter m (docs d) in
        let sorted := if q_sort_rating_desc q then sort_by_rating_desc hits else hits in
        inr (limited lim (skipn sk sorted))
    | _, _, _ => inl cast_error
    end
  else inl offline_error.

Definition mem_count (f : Filter) (d : MemDB) : Error + Z :=
  if online d then
    match matcher f with
    | Some m =>
        let n := Z.of_nat (List.length (List.filter m (docs d))) in
        if n <? 2 ^ 53 then inr n else inl (mkError "too many documents")
    | None => inl cast_error
    end
  else inl offline_error.

Definition mem_findById (id : Id) (d : MemDB) : Error + option Product :=
  if online d then inr (List.find (fun p => Nat.eqb (p_id p) id) (docs d))
  else inl offline_error.

Fixpoint upsert (p : Product) (ps : list Product) : list Product :=
  match ps with
  | [] => [p]
  | x :: xs => if Nat.eqb (p_id x) (p_id p) then p :: xs else x :: upsert p xs
  end.

Definition mem_save (p : Product) (d : MemDB) : Error + (Product * MemDB) :=
  if online d then inr (p, mkMemDB (upsert p (docs d)) true)
  else inl offline_error.

Definition mem_deleteOne (id : Id) (d : MemDB) : Error + MemDB :=
  if online d
  then inr (mkMemDB (List.filter (fun p => negb (Nat.eqb (p_id p) id)) (docs d)) true)
  else inl offline_error.

Definition mem_newObjectId (d : MemDB) : Id :=
  S (fold_right (fun p m => Nat.max (p_id p) m) O (docs d)).

#[export] Instance MemDB_access : DataAccess MemDB.
Proof.
  refine {| countDocuments := mem_count;
            find := mem_find;
            findById := mem_findById;
            save := mem_save;
            deleteOne := mem_deleteOne;
            newObjectId := mem_newObjectId |}.
  intros f d c. unfold mem_count.
  destruct (online d); [| discriminate].
  destruct (matcher f) as [m |]; [| discriminate].
  destruct (Z.ltb_spec (Z.of_nat (List.length (List.filter m (docs d)))) (2 ^ 53));
    [| discriminate].
  intros [= <-]. split; [apply Nat2Z.is_nonneg | assumption].
Defined.

(* A small catalogue and some requests. *)
Definition shirt : Product :=
  mkProduct 1 "Blue Shirt" 20 7 "/images/shirt.jpg" "Acme" "Clothes" 3 1 "A shirt"
    (Num 4) [mkReview "ann" (Num 4) "fine" 9].
Definition shoe : Product :=
  mkProduct 2 "Red Shoe" 50 7 "/images/shoe.jpg" "Acme" "Shoes" 5 0 "A shoe" (Num 0) [].

Definition admin : User := mkUser 7 "admin".
Definition ann : User := mkUser 9 "ann".

(* A request whose query parameters, when given, are texts. *)
Definition request (pageNumber keyword : option string) (id : Id) (u : option User)
  : Request :=
  mkRequest (QStr <$> pageNumber) (QStr <$> keyword) id u "Green Shirt" 25 "A green shirt"
    "/images/green.jpg" "Acme" "Clothes" 4 (VNum (Num 5)) "great".

Definition list_all : Request := request None None 0 None.

(* The world of a freshly started process with the database [d]. *)
Definition boot {DB} (e : Env) (d : DB) (now : Z) : World DB :=
  mkWorld e d [] (module_cache e) now [].

Definition w0 : World MemDB := boot ∅ (mkMemDB [shirt; shoe] true) 1000.
Definition w0_down : World MemDB := boot ∅ (mkMemDB [shirt; shoe] false) 1000.

Definition outcome_of {A B C} (x : A * B * C) : A := fst (fst x).
Definition res_of {A B C} (x : A * B * C) : B := snd (fst x).
Definition after {A B C} (x : A * B * C) : C := snd x.

(* --------------------------------------------------------------------- *)
(* 11. Notions used in the statements                                    *)
(* --------------------------------------------------------------------- *)

Fixpoint occurs (c : ascii) (s : string) : bool :=
  match s with
  | EmptyString => false
  | String a r => Ascii.eqb a c || occurs c r
  end.

(* A text without white space. *)
Fixpoint no_ws (s : string) : bool :=
  match s with
  | EmptyString => true
  | String a r => negb (is_ws a) && no_ws r
  end.

Definition is_digit (a : ascii) : bool :=
  match digit_of a with
  | Some _ => true
  | None => false
  end.

(* A text of decimal digits only. *)
Fixpoint all_digits (s : string) : bool :=
  match s with
  | EmptyString => true
  | String a r => is_digit a && all_digits r
  end.

(* The characters of the text of a finite number. *)
Definition number_char (a : ascii) : bool :=
  is_digit a || Ascii.eqb a "." || Ascii.eqb a "e" || Ascii.eqb a "+" || Ascii.eqb a "-".

Fixpoint number_text (s : string) : bool :=
  match s with
  | EmptyString => true
  | String a r => number_char a && number_text r
  end.

(* A text that starts with no digit, or is empty. *)
Definition digit_free_head (y : string) : Prop :=
  match y with
  | EmptyString => True
  | String c _ => digit_of c = None
  end.

(* The exponent part that Number::toString writes. *)
Definition exponent_text (n : Z) : string :=
  String "e" (String (if n <? 0 then "-" else "+") (string_of_nonneg (Z.abs n))).

(* A number without the sign of its zero. *)
Definition unsigned_zero (x : jsnum) : jsnum :=
  match x with
  | Zero _ => Zero false
  | _ => x
  end.

(* The normalised (page, keyword) pair of a list request and its key. *)
Definition normalized (req : Request) : jsnum * string :=
  (page_of (query_pageNumber req), keywordStr_of (query_keyword req)).

Definition key_of (req : Request) : string :=
  cacheKey (fst (normalized req)) (snd (normalized req)).

Definition with_query (pageNumber keyword : option qvalue) (req : Request) : Request :=
  mkRequest pageNumber keyword (params_id req) (req_user req) (body_name req)
    (body_price req) (body_description req) (body_image req) (body_brand req)
    (body_category req) (body_countInStock req) (body_rating req) (body_comment req).

(* A pageNumber parameter that is missing, not numeric, or zero. *)
Definition defaulted_page (q : option qvalue) : Prop :=
  q = None \/ Number q = NaN \/ exists s, Number q = Zero s.

(* A query parameter that is missing or a text. *)
Definition is_text (q : option qvalue) : Prop :=
  match q with
  | None | Some (QStr _) => True
  | _ => False
  end.

(* The page size in force under an environment. *)
Definition pageSize (e : Env) : jsval := pageSize_of (e !! "PAGINATION_LIMIT").

Definition is_cache_event (e : Event) : bool :=
  match e with
  | CacheHas _ | CacheGet _ | CacheSet _ | CacheFlushAll => true
  | _ => false
  end.

Definition is_cache_write (e : Event) : bool :=
  match e with
  | CacheSet _ | CacheFlushAll => true
  | _ => false
  end.

Definition X_Cache (r : Res) : option string := headers r !! "X-Cache".

(* The body of a list response once serialised: the data of the documents
   found, the page, and the number of pages. *)
Definition list_payload (ps : list Product) (page pages : jsnum) : jsval :=
  VObj [("products", VArr (map VData ps));
        ("page", json_num page);
        ("pages", json_num pages)].

(* Values that a JSON round trip leaves as they are. *)
Fixpoint normal (v : jsval) : bool :=
  match v with
  | VUndefined => false
  | VNum (Fin _ _ _) | VNum (Zero false) => true
  | VNum _ => false
  | VDoc _ => false
  | VArr items => forallb normal items
  | VObj members => forallb (fun m => normal (snd m)) members
  | _ => true
  end.

(* The queries the two cached reads send to the data-access layer. *)
Definition list_query (e : Env) (req : Request) : Query :=
  mkQuery (keyword_filter (query_keyword req)) false (pageSize e)
    (Some (js_mul (ToNumber (pageSize e))
             (js_sub (page_of (query_pageNumber req)) (Num 1)))).

Definition top_query : Query := mkQuery FAll true (VNum (Num 3)) None.

(* The number of pages for a count under an environment. *)
Definition pages_for (e : Env) (count : Z) : jsnum :=
  Math_ceil_div (Num count) (ToNumber (pageSize e)).

Definition is_mutation (r : Route) : bool := negb (is_GET r).

(* Events that may precede the commit of a successful mutation: reads of
   the data-access layer only. *)
Definition is_db_read (e : Event) : bool :=
  match e with
  | DbQuery => true
  | _ => false
  end.

(* A run of requests and waits, as one process serves them in turn. *)
Inductive Step : Type :=
  | Serve (r : Route) (req : Request)
  | Wait (d : Z).

Definition step {DB} `{DataAccess DB} (s : Step) (w : World DB) : World DB :=
  match s with
  | Serve r req => after (serve r req w)
  | Wait d => advance d w
  end.

Definition steps {DB} `{DataAccess DB} (l : list Step) (w : World DB) : World DB :=
  fold_left (fun w s => step s w) l w.

(* A step that mutates nothing in the catalogue: a wait that does not go
   back in time, a read, or a mutation that fails. *)
Definition quiet {DB} `{DataAccess DB} (s : Step) (w : World DB) : bool :=
  match s with
  | Serve r req => is_GET r || negb (is_ok (outcome_of (serve r req w)))
  | Wait d => 0 <=? d
  end.

Fixpoint all_quiet {DB} `{DataAccess DB} (l : list Step) (w : World DB) : bool :=
  match l with
  | [] => true
  | s :: l' => quiet s w && all_quiet l' (step s w)
  end.

(* The worlds a process can be in: it boots with an empty cache, then
   serves requests while time passes; the database may also change behind
   the controller's back. *)
Inductive reachable {DB} `{DataAccess DB} : World DB -> Prop :=
  | reach_boot (e : Env) (d : DB) (t : Z) : reachable (boot e d t)
  | reach_serve (r : Route) (req : Request) (w : World DB) :
      reachable w -> reachable (after (serve r req w))
  | reach_wait (d : Z) (w : World DB) :
      0 <= d -> reachable w -> reachable (advance d w)
  | reach_db (d : DB) (w : World DB) :
      reachable w -> reachable (set_db d w).

(* What holds of the cache in every such world: entries under a list key
   are list payloads for the page of the key, built from a count the
   data-access layer can answer, stored with the standard time-to-live, not
   in the future. *)
Definition entry_ok (e : Env) (now : Z) (page : jsnum) (c : CacheEntry) : Prop :=
  (exists ps count,
      0 <= count < 2 ^ 53 /\ value c = list_payload ps page (pages_for e count))
  /\ ttl c = 300 /\ storedAt c <= now.

Definition world_ok {DB} (w : World DB) : Prop :=
  stdTTL (cache w) = 300
  /\ forall p kw c, valid p = true ->
                    data (cache w) !! cacheKey p kw = Some c ->
                    entry_ok (env w) (clock w) p c.

(* Every cached value is a snapshot: no live document is reachable from
   it. *)
Definition snapshots_ok {DB} (w : World DB) : Prop :=
  forall k c, data (cache w) !! k = Some c -> plain (value c) = true.

(* The review createProductReview builds, and its test for a reviewer who
   has reviewed already. *)
Definition review_of (req : Request) (u : User) : Review :=
  mkReview (u_name u) (ToNumber (body_rating req)) (body_comment req) (u_id u).

Definition alreadyReviewed (u : User) (p : Product) : bool :=
  existsb (fun r => Nat.eqb (r_user r) (u_id u)) (p_reviews p).

(* The document createProductReview saves. *)
Definition reviewed (req : Request) (u : User) (p : Product) : Product :=
  assign_rating (assign_numReviews (push_review (review_of req u) p)).

(* The document createProduct builds for a user. *)
Definition sample_for (id : Id) (u : User) : Product :=
  mkProduct id "Sample name" 0 (u_id u) "/images/sample.jpg" "Sample brand"
    "Sample category" 0 0 "Sample description" (Num 0) [].

(* What the data-access layer answers to the one mutation a route performs
   for a request on the database [d], once the reads before it have been
   answered: the database it leaves, or its error.  Nothing when the route
   performs no mutation for that request (a read; an absent product; a
   request without user; a second review by the same user). *)
Definition mutation_answer {DB} `{DataAccess DB} (r : Route) (req : Request) (d : DB)
  : option (Error + DB) :=
  let saved (p : Product) :=
    match save p d with
    | inr (_, d') => inr d'
    | inl e => inl e
    end in
  match r with
  | POST_products =>
      match req_user req with
      | Some u => Some (saved (sample_for (newObjectId d) u))
      | None => None
      end
  | PUT_products_id =>
      match findById (params_id req) d with
      | inr (Some p) => Some (saved (assign_body req p))
      | _ => None
      end
  | DELETE_products_id =>
      match findById (params_id req) d with
      | inr (Some p) => Some (deleteOne (p_id p) d)
      | _ => None
      end
  | POST_products_id_reviews =>
      match findById (params_id req) d, req_user req with
      | inr (Some p), Some u =>
          if alreadyReviewed u p then None else Some (saved (reviewed req u p))
      | _, _ => None
      end
  | _ => None
  end.

(* The world after a first list read, what is served in the meantime, and
   the entry that read leaves in the cache. *)
Definition w1 : World MemDB := after (serve GET_products list_all w0).

Definition meantime : list Step :=
  [Wait 100;
   Serve GET_products_top list_all;
   Serve PUT_products_id (request None None 99 (Some admin));
   Serve GET_products (request None (Some "shoe") 0 None);
   Serve GET_products_id (request None None 1 None);
   Wait 199].

Definition entry0 : CacheEntry :=
  mkEntry (VObj [("products", VArr [VData shirt; VData shoe]);
                 ("page", VNum (Num 1));
                 ("pages", VNum (Num 1))]) 1000 300.

(* The document createProduct adds to the catalogue of [w0]. *)
Definition sample : Product := sample_for 3 admin.

Definition create_request : Request := request None None 0 (Some admin).
Definition update_absent : Request := request None None 99 (Some admin).

(* ---- The mount point of the product routes (server.js) ---------------- *)

(* The method of each route, as its @route comment gives it. *)
Definition method_of (r : Route) : string :=
  match r with
  | GET_products | GET_products_id | GET_products_top => "GET"
  | POST_products | POST_products_id_reviews => "POST"
  | PUT_products_id => "PUT"
  | DELETE_products_id => "DELETE"
  end.

(* app.use('/api/products', (req, res, next) => {
     if (req.method === 'GET') res.set('Cache-Control', 'public, s-maxage=3600');
     next();
   }, productRoutes) *)
Definition http_cache {DB} (method : string) : M DB unit :=
  fun s =>
    let r := snd s in
    if String.eqb method "GET"
    then (Ok tt, (fst s, mkRes (statusCode r)
                           (<["Cache-Control" := "public, s-maxage=3600"]> (headers r))
                           (body r)))
    else (Ok tt, s).

(* A request to /api/products: the middleware, then the route's handler. *)
Definition app_products {DB} `{DataAccess DB} (r : Route) (req : Request) (w : World DB)
  : outcome unit * Res * World DB :=
  run (bind (http_cache (method_of r)) (fun _ => handler r req)) w.

(* ---- Notions for the properties of the single handlers ----------------- *)


Definition is_send (e : Event) : bool :=
  match e with
  | Send _ => true
  | _ => false
  end.

Definition is_db_event (e : Event) : bool :=
  match e with
  | DbQuery | DbCommit | DbError => true
  | _ => false
  end.

(* The sum of whole ratings. *)
Definition sum_Z (zs : list Z) : Z := fold_right Z.add 0 zs.

(* Reviews whose ratings are the whole numbers [zs], in this order. *)
Definition whole_ratings (zs : list Z) (rs : list Review) : Prop :=
  map r_rating rs = map Num zs /\ Forall (fun z => 0 <= z <= 5) zs.

(* The status a route answers with when it succeeds. *)
Definition success_status (r : Route) : Z :=
  match r with
  | POST_products | POST_products_id_reviews => 201
  | _ => 200
  end.

(* Some more requests on the catalogue of [w0]. *)
Definition review_shoe : Request := request None None 2 (Some admin).
Definition review_shirt_again : Request := request None None 1 (Some ann).
Definition update_shirt : Request := request None None 1 (Some admin).
Definition delete_shoe : Request := request None None 2 (Some admin).
Definition get_shirt : Request := request None None 1 None.
Definition w_top : World MemDB := after (serve GET_products_top list_all w0).
Definition w_badsize : World MemDB :=
  boot {[ "PAGINATION_LIMIT" := "0" ]} (mkMemDB [shirt; shoe] true) 0.

(* A keyword given twice in the query string, and the text it shares its
   key with. *)
Definition keyword_twice : Request :=
  with_query None (Some (QArr [QStr "a"; QStr "b"])) list_all.
Definition keyword_joined : Request :=
  with_query None (Some (QStr "a,b")) list_all.

Arguments Num : simpl never.
Arguments round64 : simpl never.
Arguments js_add : simpl never.
Arguments js_sub : simpl never.
Arguments js_mul : simpl never.
Arguments js_div : simpl never.
Arguments Math_ceil : simpl never.
Arguments Math_ceil_div : simpl never.
Arguments toString_num : simpl never.
Arguments Number_of_string : simpl never.
Arguments page_of : simpl never.
Arguments ToNumber : simpl never.

(* Proof steps shared by the properties of the handlers. *)
Ltac unfold_handlers :=
  unfold serve, run, handler, getProducts, getProductById, createProduct,
    updateProduct, deleteProduct, createProductReview, getTopProducts,
    the_user, doc_save, Product_new, Product_findById, Product_find,
    Product_countDocuments, Product_deleteOne, hydrate, hydrate_one,
    doc_read, doc_assign, db_read, db_write, JSON_parse_stringify,
    res_json, res_status, res_set, do_cache_flushAll, do_cache_set,
    do_cache_get, do_cache_has, process_env, bind, ret, throw in *.

Ltac break_match :=
  match goal with
  | H : context [match ?x with _ => _ end] |- _ => destruct x eqn:?
  | |- context [match ?x with _ => _ end] => destruct x eqn:?
  end.

(* The events a run added to the log. *)
Ltac new_events :=
  first
    [ exists []; split; [symmetry; apply app_nil_r | reflexivity]
    | repeat rewrite <- app_assoc; simpl; eexists; split; reflexivity ].

Ltac red_world :=
  cbn -[JSON_roundtrip materialize Math_ceil_div ToNumber pageSize_of cacheKey alloc_all
        Num js_mul js_sub js_add js_div page_of keywordStr_of] in *.

(* Every branch of a handler, one goal each. *)
Ltac cases :=
  repeat (break_match; red_world; try discriminate); simplify_eq; red_world.

(* The events of a successful mutation end with commit, flush, send. *)
Ltac commit_tail :=
  repeat rewrite <- app_assoc; simpl;
  first [ exists []; eexists; split; reflexivity
        | exists [DbQuery]; eexists; split; reflexivity ].

(* A log that is the old log followed by new events. *)
Ltac log_is :=
  first [ symmetry; apply app_nil_r | repeat rewrite <- app_assoc; simpl; reflexivity ].

(* Reading and assigning the document a handler has just allocated. *)
Ltac heap_facts :=
  unfold Heap, loc in *;
  repeat match goal with
    | H : context [<[List.length ?h := ?y]> (?h ++ [?x])] |- _ =>
        rewrite (insert_app_r_alt h [x] (List.length h) y) in H by lia;
        rewrite Nat.sub_diag in H; change (<[0%nat := y]> [x]) with [y] in H
    | |- context [<[List.length ?h := ?y]> (?h ++ [?x])] =>
        rewrite (insert_app_r_alt h [x] (List.length h) y) by lia;
        rewrite Nat.sub_diag; change (<[0%nat := y]> [x]) with [y]
    | H : context [(?h ++ [?x]) !! List.length ?h] |- _ =>
        rewrite (lookup_app_r h [x] (List.length h)) in H by lia;
        rewrite Nat.sub_diag in H; change ([x] !! 0%nat) with (Some x) in H
    | |- context [(?h ++ [?x]) !! List.length ?h] =>
        rewrite (lookup_app_r h [x] (List.length h)) by lia;
        rewrite Nat.sub_diag; change ([x] !! 0%nat) with (Some x)
    end;
  simplify_eq.

Ltac settle := repeat (progress (red_world; heap_facts)).

(* Running one handler along the branch a hypothesis selects. *)
Ltac run_with H1 :=
  unfold after, outcome_of, res_of; unfold_handlers; red_world; rewrite ?H1; settle.

Ltac answer :=
  repeat (progress (cbv [fst snd emit set_cache set_heap set_db]; simpl; heap_facts));
  repeat split.

(* Two runs of the same handler take the same branches. *)
Ltac same_branches :=
  repeat match goal with
    | H1 : ?x = _, H2 : ?x = _ |- _ => rewrite H1 in H2; simplify_eq
    end.

(* Turning the tests of [valid] and of the parsers into propositions. *)
Ltac bool_facts :=
  rewrite ?andb_true_iff, ?Z.ltb_lt, ?Z.leb_le in *.

(* ===================================================================== *)
(* Properties                                                            *)
(* ===================================================================== *)

(* ---- Numbers and their texts ------------------------------------------ *)

(* ---- Powers as rationals ---- *)

Lemma Qpow_Qpower (b e : Z) : 0 < b -> (Qpow b e == inject_Z b ^ e)%Q.
Proof.
  intros Hb. unfold Qpow. destruct (Z.leb_spec 0 e) as [He | He].
  - now apply Zpower_Qpower.
  - rewrite Zpower_Qpower by lia.
    rewrite <- Qpower_opp. now rewrite Z.opp_involutive.
Qed.

Lemma inject_Z_pos_nz (b : Z) : 0 < b -> ~ (inject_Z b == 0)%Q.
Proof. intros Hb E. unfold Qeq in E. simpl in E. lia. Qed.

Lemma Qpow_pos (b e : Z) : 0 < b -> (0 < Qpow b e)%Q.
Proof.
  intros Hb. rewrite Qpow_Qpower by exact Hb. apply Qpower_0_lt.
  unfold Qlt. simpl. lia.
Qed.

Lemma Qpow_add (b x y : Z) : 0 < b -> (Qpow b (x + y) == Qpow b x * Qpow b y)%Q.
Proof.
  intros Hb. rewrite !Qpow_Qpower by exact Hb.
  apply Qpower_plus. now apply inject_Z_pos_nz.
Qed.

Lemma Qpow_0 (b : Z) : (Qpow b 0 == 1)%Q.
Proof. reflexivity. Qed.

Lemma Qpow_nonneg (b e : Z) : 0 <= e -> Qpow b e = inject_Z (b ^ e).
Proof. intros He. unfold Qpow. destruct (Z.leb_spec 0 e); [reflexivity | lia]. Qed.

Lemma Qpow_opp (b e : Z) : 0 < b -> (Qpow b (- e) == / Qpow b e)%Q.
Proof.
  intros Hb. rewrite !Qpow_Qpower by exact Hb. apply Qpower_opp.
Qed.

Lemma Qpow_cancel (b e : Z) : 0 < b -> (Qpow b e * Qpow b (- e) == 1)%Q.
Proof.
  intros Hb. rewrite <- Qpow_add by exact Hb. now rewrite Z.add_opp_diag_r.
Qed.

Lemma Qpow_le_mono (b x y : Z) : 1 < b -> x <= y -> (Qpow b x <= Qpow b y)%Q.
Proof.
  intros Hb Hxy. rewrite !Qpow_Qpower by lia.
  apply Qpower_le_compat_l; [exact Hxy |]. unfold Qle. simpl. lia.
Qed.

Lemma Qpow_lt_mono (b x y : Z) : 1 < b -> x < y -> (Qpow b x < Qpow b y)%Q.
Proof.
  intros Hb Hxy. rewrite !Qpow_Qpower by lia.
  apply Qpower_lt_compat_l; [exact Hxy |]. unfold Qlt. simpl. lia.
Qed.

Lemma Qpow_lt_inv (b x y : Z) : 1 < b -> (Qpow b x < Qpow b y)%Q -> x < y.
Proof.
  intros Hb Hlt. destruct (Z.lt_ge_cases x y) as [H | H]; [exact H |].
  pose proof (Qpow_le_mono b y x Hb H). lra.
Qed.

(* ---- floor_log2 ---- *)

Lemma Qmake_as_div (p : Z) (d : positive) : (p # d == inject_Z p / inject_Z (Z.pos d))%Q.
Proof. apply Qmake_Qdiv. Qed.

Lemma floor_log2_spec (q : Q) :
  (0 < q)%Q -> (Qpow 2 (floor_log2 q) <= q < Qpow 2 (floor_log2 q + 1))%Q.
Proof.
  destruct q as [p d]. intros Hq.
  assert (Hp : 0 < p) by (unfold Qlt in Hq; simpl in Hq; lia).
  unfold floor_log2. cbn [Qnum Qden].
  pose proof (Z.log2_spec p Hp) as [Hp1 Hp2].
  pose proof (Z.log2_spec (Z.pos d) ltac:(lia)) as [Hd1 Hd2].
  pose proof (Z.log2_nonneg p) as Hlp. pose proof (Z.log2_nonneg (Z.pos d)) as Hld.
  set (a := Z.log2 p) in *. set (b := Z.log2 (Z.pos d)) in *.
  rewrite <- Z.add_1_r in Hp2, Hd2.
  (* p / d between 2^(a-b-1) and 2^(a-b+1) *)
  assert (Qd : (0 < inject_Z (Z.pos d))%Q) by (unfold Qlt; simpl; lia).
  assert (Key : forall l : Z,
            ((Qpow 2 l <= p # d)%Q <->
             (if 0 <=? l then Z.pos d * 2 ^ l <=? p else Z.pos d <=? p * 2 ^ (- l)) = true)).
  { intros l. unfold Qpow. destruct (Z.leb_spec 0 l) as [Hl | Hl].
    - unfold Qle. simpl. rewrite Z.leb_le. pose proof (Z.pow_pos_nonneg 2 l). lia.
    - assert (Hpow : 0 < 2 ^ (- l)) by (apply Z.pow_pos_nonneg; lia).
      rewrite Z.leb_le. destruct (2 ^ (- l)) as [| t | t] eqn:Et; try lia.
      unfold Qle, Qinv, inject_Z. simpl. lia. }
  assert (Hlow : (Qpow 2 (a - b - 1) <= p # d)%Q).
  { apply Key. destruct (Z.leb_spec 0 (a - b - 1)) as [Hl | Hl]; apply Z.leb_le.
    - replace a with ((a - b - 1) + (b + 1)) in Hp1 by lia.
      rewrite Z.pow_add_r in Hp1 by lia. nia.
    - replace (b + 1) with (a + - (a - b - 1)) in Hd2 by lia.
      rewrite Z.pow_add_r in Hd2 by lia. nia. }
  assert (Hhigh : (p # d < Qpow 2 (a - b + 1))%Q).
  { apply Qnot_le_lt. intros Hc. apply Key in Hc.
    destruct (Z.leb_spec 0 (a - b + 1)) as [Hl | Hl]; apply Z.leb_le in Hc.
    - replace (a + 1) with (b + (a - b + 1)) in Hp2 by lia.
      rewrite Z.pow_add_r in Hp2 by lia. nia.
    - replace b with ((a + 1) + - (a - b + 1)) in Hd1 by lia.
      rewrite Z.pow_add_r in Hd1 by lia. nia. }
  destruct (if 0 <=? a - b then Z.pos d * 2 ^ (a - b) <=? p
            else Z.pos d <=? p * 2 ^ (- (a - b))) eqn:T.
  - split; [now apply Key | exact Hhigh].
  - split.
    + exact Hlow.
    + replace (a - b - 1 + 1) with (a - b) by lia.
      apply Qnot_le_lt. intros Hc. apply Key in Hc. congruence.
Qed.

Lemma floor_log2_unique (q : Q) (L : Z) :
  (Qpow 2 L <= q < Qpow 2 (L + 1))%Q -> floor_log2 q = L.
Proof.
  intros [H1 H2].
  assert (Hq : (0 < q)%Q) by (pose proof (Qpow_pos 2 L ltac:(lia)); lra).
  destruct (floor_log2_spec q Hq) as [G1 G2].
  assert (floor_log2 q < L + 1) by (apply (Qpow_lt_inv 2); [lia | lra]).
  assert (L < floor_log2 q + 1) by (apply (Qpow_lt_inv 2); [lia | lra]).
  lia.
Qed.

(* ---- strip ---- *)

Lemma strip_spec (m : positive) (e : Z) :
  let '(m', e') := strip m e in
  odd_pos m' = true /\ e <= e' /\ Z.pos m = Z.pos m' * 2 ^ (e' - e).
Proof.
  revert e. induction m as [m IH | m IH |]; intros e; simpl.
  - repeat split; try lia. rewrite Z.sub_diag. simpl. lia.
  - specialize (IH (e + 1)). destruct (strip m (e + 1)) as [m' e'].
    destruct IH as (Ho & He & Hv). repeat split; [exact Ho | lia |].
    replace (e' - e) with (e' - (e + 1) + 1) by lia.
    rewrite Z.pow_add_r by lia. change (2 ^ 1) with 2. lia.
  - repeat split; try lia. rewrite Z.sub_diag. simpl. lia.
Qed.

Lemma strip_shift (m : positive) (j : Z) (e : Z) (n : positive) :
  odd_pos m = true -> 0 <= j -> Z.pos n = Z.pos m * 2 ^ j ->
  strip n e = (m, e + j).
Proof.
  intros Ho Hj. revert n e. pattern j. apply natlike_ind; [| | exact Hj].
  - intros n e E. simpl in E. assert (n = m) by lia. subst n.
    rewrite Z.add_0_r. destruct m; simpl in *; try reflexivity. discriminate.
  - intros x Hx IH n e E. rewrite Z.pow_succ_r in E by exact Hx.
    destruct n as [n | n |]; try lia.
    simpl. rewrite (IH n (e + 1)) by lia. f_equal. lia.
Qed.

(* ---- round_half_even ---- *)

Lemma round_half_even_exact (t : Q) (n : Z) : (t == inject_Z n)%Q -> round_half_even t = n.
Proof.
  intros E. unfold round_half_even.
  assert (F : Qfloor t = n) by (rewrite E; apply Qfloor_Z).
  rewrite F.
  assert (H : (t - inject_Z n ?= 1 # 2)%Q = Lt).
  { apply (proj1 (Qlt_alt _ _)). lra. }
  now rewrite H.
Qed.

Lemma round_half_even_near (t : Q) :
  (Qabs (inject_Z (round_half_even t) - t) <= 1 # 2)%Q.
Proof.
  unfold round_half_even.
  pose proof (Qfloor_le t) as H1. pose proof (Qlt_floor t) as H2.
  rewrite inject_Z_plus in H2. change (inject_Z 1) with 1%Q in H2.
  destruct (t - inject_Z (Qfloor t) ?= 1 # 2)%Q eqn:C.
  - apply (proj2 (Qeq_alt _ _)) in C. destruct (Z.even (Qfloor t));
      rewrite ?inject_Z_plus; change (inject_Z 1) with 1%Q;
      apply Qabs_Qle_condition; split; lra.
  - apply (proj2 (Qlt_alt _ _)) in C. apply Qabs_Qle_condition. split; lra.
  - apply (proj2 (Qgt_alt _ _)) in C. rewrite inject_Z_plus. change (inject_Z 1) with 1%Q.
    apply Qabs_Qle_condition. split; lra.
Qed.

Lemma round_half_even_bounds (t : Q) (a b : Z) :
  (inject_Z a <= t)%Q -> (t <= inject_Z b)%Q -> a <= round_half_even t <= b.
Proof.
  intros Ha Hb. unfold round_half_even.
  pose proof (Qfloor_le t) as H1. pose proof (Qlt_floor t) as H2.
  assert (Hfa : a <= Qfloor t).
  { rewrite <- (Qfloor_Z a). now apply Qfloor_resp_le. }
  assert (Hfb : Qfloor t <= b).
  { rewrite <- (Qfloor_Z b). now apply Qfloor_resp_le. }
  destruct (t - inject_Z (Qfloor t) ?= 1 # 2)%Q eqn:C.
  - apply (proj2 (Qeq_alt _ _)) in C. destruct (Z.even (Qfloor t)); [lia |].
    split; [lia |]. destruct (Z.eq_dec (Qfloor t) b) as [E | E]; [| lia].
    rewrite E in C. lra.
  - lia.
  - apply (proj2 (Qgt_alt _ _)) in C. split; [lia |].
    destruct (Z.eq_dec (Qfloor t) b) as [E | E]; [| lia].
    rewrite E in C. lra.
Qed.

(* ---- what rounding gives ---- *)

Lemma odd_pos_lt (m : positive) : odd_pos m = true -> Z.pos m <= 2 ^ 53 -> Z.pos m < 2 ^ 53.
Proof.
  intros Ho Hle. destruct (Z.eq_dec (Z.pos m) (2 ^ 53)) as [E | E]; [| lia].
  exfalso. destruct m; simpl in Ho; try discriminate; vm_compute in E; discriminate.
Qed.

Lemma finite_or_inf_valid (neg : bool) (n ex : Z) :
  n <= 2 ^ 53 -> -1074 <= ex -> valid (finite_or_inf neg n ex) = true.
Proof.
  intros Hn Hex. unfold finite_or_inf. destruct n as [| m | m]; try reflexivity.
  pose proof (strip_spec m ex) as S. destruct (strip m ex) as [m' e'].
  destruct S as (Ho & He & Hv).
  destruct (Z.leb_spec 1024 (Z.log2 (Z.pos m') + e')) as [Hov | Hov]; [reflexivity |].
  cbn [valid]. rewrite Ho. cbn [andb].
  assert (Hm : Z.pos m' < 2 ^ 53).
  { apply odd_pos_lt; [exact Ho |].
    assert (0 < 2 ^ (e' - ex)) by (apply Z.pow_pos_nonneg; lia). nia. }
  rewrite !andb_true_iff, !Z.ltb_lt, Z.leb_le. lia.
Qed.

Lemma round_pos_scaled_bound (q : Q) :
  (0 < q)%Q ->
  let ex := Z.max (floor_log2 q - 52) (-1074) in
  (0 < q * Qpow 2 (- ex) < inject_Z (2 ^ 53))%Q.
Proof.
  intros Hq ex.
  destruct (floor_log2_spec q Hq) as [_ H2].
  pose proof (Qpow_pos 2 (- ex) ltac:(lia)) as Hp.
  split; [apply Qmult_lt_0_compat; assumption |].
  assert (Hle : (Qpow 2 (floor_log2 q + 1) * Qpow 2 (- ex) <= inject_Z (2 ^ 53))%Q).
  { rewrite <- Qpow_add by lia. rewrite <- (Qpow_nonneg 2 53) by lia.
    apply Qpow_le_mono; lia. }
  eapply Qlt_le_trans; [| exact Hle].
  apply Qmult_lt_compat_r; assumption.
Qed.

Lemma round_pos_valid (neg : bool) (q : Q) : (0 < q)%Q -> valid (round_pos neg q) = true.
Proof.
  intros Hq. unfold round_pos.
  destruct (round_pos_scaled_bound q Hq) as [H1 H2].
  apply finite_or_inf_valid; [| lia].
  apply (round_half_even_bounds _ 0 (2 ^ 53)); [| lra].
  change (inject_Z 0) with 0%Q. lra.
Qed.

Lemma Qnum_pos_iff (q : Q) : (0 < q)%Q <-> 0 < Qnum q.
Proof. unfold Qlt. simpl. lia. Qed.

Lemma Qnum_neg_iff (q : Q) : (q < 0)%Q <-> Qnum q < 0.
Proof. unfold Qlt. simpl. lia. Qed.

(* Every number that rounding gives is a double. *)
Lemma round64_valid (q : Q) : valid (round64 q) = true.
Proof.
  unfold round64. destruct (Qnum (Qred q)) as [| p | p] eqn:E; [reflexivity | |].
  - apply round_pos_valid. apply Qnum_pos_iff. lia.
  - apply round_pos_valid. apply Qnum_pos_iff. simpl. lia.
Qed.

Lemma round64_Qeq (q q' : Q) : (q == q')%Q -> round64 q = round64 q'.
Proof. intros E. unfold round64. now rewrite (Qred_complete q q' E). Qed.

Lemma finite_or_inf_neg (neg : bool) (n ex : Z) :
  finite_or_inf (negb neg) n ex = js_neg (finite_or_inf neg n ex).
Proof.
  unfold finite_or_inf. destruct n as [| m | m]; try reflexivity.
  destruct (strip m ex) as [m' e']. now destruct (1024 <=? Z.log2 (Z.pos m') + e').
Qed.

Lemma Qopp_opp_eq (q : Q) : (- - q)%Q = q.
Proof. destruct q as [n d]. unfold Qopp. simpl. now rewrite Z.opp_involutive. Qed.

Lemma round64_opp (q : Q) : ~ (q == 0)%Q -> round64 (- q) = js_neg (round64 q).
Proof.
  intros Hq. unfold round64. rewrite Qred_opp.
  assert (Hn : Qnum (Qred q) <> 0).
  { intros E. apply Hq. rewrite <- (Qred_correct q). unfold Qeq. simpl. rewrite E. lia. }
  destruct (Qred q) as [n d] eqn:R. simpl in *.
  destruct n as [| p | p]; [lia | |]; simpl; unfold round_pos.
  - unfold Qopp. simpl. change true with (negb false). apply finite_or_inf_neg.
  - unfold Qopp. simpl. change false with (negb true) at 1.
    rewrite finite_or_inf_neg. simpl. now destruct (finite_or_inf true _ _).
Qed.

(* ---- a double rounds to itself ---- *)

Lemma mantissa_binade (m : positive) (e : Z) :
  (Qpow 2 (Z.log2 (Z.pos m) + e) <= inject_Z (Z.pos m) * Qpow 2 e
   < Qpow 2 (Z.log2 (Z.pos m) + e + 1))%Q.
Proof.
  pose proof (Z.log2_spec (Z.pos m) ltac:(lia)) as [H1 H2].
  pose proof (Z.log2_nonneg (Z.pos m)) as Hn.
  rewrite <- Z.add_1_r in H2.
  pose proof (Qpow_pos 2 e ltac:(lia)) as Hp.
  replace (Z.log2 (Z.pos m) + e + 1) with ((Z.log2 (Z.pos m) + 1) + e) by lia.
  rewrite (Qpow_add 2 (Z.log2 (Z.pos m)) e), (Qpow_add 2 (Z.log2 (Z.pos m) + 1) e) by lia.
  rewrite (Qpow_nonneg 2 (Z.log2 (Z.pos m))), (Qpow_nonneg 2 (Z.log2 (Z.pos m) + 1)) by lia.
  split.
  - apply Qmult_le_compat_r; [| lra]. rewrite <- Zle_Qle. exact H1.
  - apply Qmult_lt_compat_r; [exact Hp |]. rewrite <- Zlt_Qlt. exact H2.
Qed.

Lemma round_pos_exact (neg : bool) (q : Q) (m : positive) (e : Z) :
  valid (Fin neg m e) = true ->
  (q == inject_Z (Z.pos m) * Qpow 2 e)%Q ->
  round_pos neg q = Fin neg m e.
Proof.
  intros Hv E. cbn [valid] in Hv.
  apply andb_true_iff in Hv as [Hv H4]. apply andb_true_iff in Hv as [Hv H3].
  apply andb_true_iff in Hv as [H1 H2].
  apply Z.ltb_lt in H2, H4. apply Z.leb_le in H3.
  assert (Hlog : Z.log2 (Z.pos m) < 53).
  { apply Z.log2_lt_pow2; lia. }
  pose proof (Z.log2_nonneg (Z.pos m)) as Hn.
  assert (HL : floor_log2 q = Z.log2 (Z.pos m) + e).
  { apply floor_log2_unique. rewrite E. apply mantissa_binade. }
  unfold round_pos. rewrite HL.
  set (ex := Z.max (Z.log2 (Z.pos m) + e - 52) (-1074)).
  assert (Hex : ex <= e) by (unfold ex; lia).
  assert (Ht : (q * Qpow 2 (- ex) == inject_Z (Z.pos m * 2 ^ (e - ex)))%Q).
  { rewrite E. rewrite <- Qmult_assoc. rewrite <- Qpow_add by lia.
    rewrite inject_Z_mult. rewrite <- Qpow_nonneg by lia.
    replace (e + - ex) with (e - ex) by lia. reflexivity. }
  rewrite (round_half_even_exact _ _ Ht).
  assert (Hpos : 0 < 2 ^ (e - ex)) by (apply Z.pow_pos_nonneg; lia).
  destruct (Z.pos m * 2 ^ (e - ex)) as [| n | n] eqn:En; try lia.
  unfold finite_or_inf.
  rewrite (strip_shift m (e - ex) ex n H1 ltac:(lia) ltac:(lia)).
  replace (ex + (e - ex)) with e by lia.
  destruct (Z.leb_spec 1024 (Z.log2 (Z.pos m) + e)); [lia | reflexivity].
Qed.

Lemma value_Fin_pos (m : positive) (e : Z) : (0 < inject_Z (Z.pos m) * Qpow 2 e)%Q.
Proof.
  apply Qmult_lt_0_compat; [| apply Qpow_pos; lia]. unfold Qlt. simpl. lia.
Qed.

(* A double is the nearest double to its own value. *)
Lemma round64_exact (x : jsnum) (q : Q) :
  valid x = true -> truthy_num x = true -> is_finite x = true ->
  (q == num_value x)%Q -> round64 q = x.
Proof.
  destruct x as [| s | s | neg m e]; try discriminate. intros Hv _ _ E.
  pose proof (value_Fin_pos m e) as Hp.
  unfold round64.
  pose proof (Qred_correct q) as R.
  destruct neg; simpl in E.
  - assert (Hq : (Qred q < 0)%Q) by (rewrite R, E; lra).
    apply Qnum_neg_iff in Hq. destruct (Qnum (Qred q)) as [| p | p] eqn:En; try lia.
    apply round_pos_exact; [exact Hv |]. rewrite R, E. ring.
  - assert (Hq : (0 < Qred q)%Q) by (rewrite R, E; lra).
    apply Qnum_pos_iff in Hq. destruct (Qnum (Qred q)) as [| p | p] eqn:En; try lia.
    apply round_pos_exact; [exact Hv |]. now rewrite R, E.
Qed.

(* ---- whole numbers ---- *)

Lemma Num_0 : Num 0 = Zero false.
Proof. reflexivity. Qed.

Lemma Num_pos_exact (z : Z) :
  0 < z < 2 ^ 53 ->
  exists m e, Num z = Fin false m e /\ 0 <= e /\ Z.pos m * 2 ^ e = z
              /\ valid (Fin false m e) = true.
Proof.
  intros [Hz1 Hz2]. destruct z as [| n | n]; try lia.
  pose proof (strip_spec n 0) as S. destruct (strip n 0) as [m e] eqn:Es.
  destruct S as (Ho & He & Hv). rewrite Z.sub_0_r in Hv.
  assert (Hpos : 0 < 2 ^ e) by (apply Z.pow_pos_nonneg; lia).
  assert (Hvalid : valid (Fin false m e) = true).
  { cbn [valid]. rewrite Ho. cbn [andb].
    assert (Z.log2 (Z.pos m) + e < 53).
    { assert (Z.log2 (Z.pos m * 2 ^ e) = Z.log2 (Z.pos m) + e) as <-.
      { rewrite <- Z.shiftl_mul_pow2 by lia.
        apply Z.log2_shiftl; lia. }
      rewrite <- Hv. apply Z.log2_lt_pow2; lia. }
    rewrite !andb_true_iff, !Z.ltb_lt, Z.leb_le. nia. }
  exists m, e. split; [| repeat split; auto; lia].
  unfold Num. apply round64_exact; auto.
  simpl. rewrite Hv. rewrite inject_Z_mult. now rewrite Qpow_nonneg by lia.
Qed.

Lemma Num_opp (z : Z) : Num (- z) = js_neg (Num z) \/ z = 0.
Proof.
  destruct (Z.eq_dec z 0) as [-> | Hz]; [now right | left].
  unfold Num. rewrite inject_Z_opp. apply round64_opp.
  unfold Qeq. simpl. lia.
Qed.

Lemma Num_value (z : Z) : Z.abs z < 2 ^ 53 -> (num_value (Num z) == inject_Z z)%Q.
Proof.
  intros Hz. destruct (Z.lt_trichotomy z 0) as [H | [-> | H]].
  - destruct (Num_pos_exact (- z) ltac:(lia)) as (m & e & E & He & Hv & _).
    destruct (Num_opp (- z)) as [Eo | ?]; [| lia].
    rewrite Z.opp_involutive in Eo. rewrite Eo, E. simpl.
    rewrite Qpow_nonneg by lia. rewrite <- inject_Z_opp, <- inject_Z_mult.
    f_equiv. lia.
  - reflexivity.
  - destruct (Num_pos_exact z ltac:(lia)) as (m & e & E & He & Hv & _).
    rewrite E. simpl. rewrite Qpow_nonneg by lia. rewrite <- inject_Z_mult. now rewrite Hv.
Qed.

Lemma Num_valid (z : Z) : valid (Num z) = true.
Proof. apply round64_valid. Qed.

(* ---- how far rounding moves ---- *)

Lemma finite_or_inf_cases (neg : bool) (n ex : Z) :
  (n <= 0 /\ finite_or_inf neg n ex = Zero neg)
  \/ (0 < n /\ finite_or_inf neg n ex = Inf neg
      /\ (Qpow 2 1024 <= inject_Z n * Qpow 2 ex)%Q)
  \/ (0 < n /\ exists m e, finite_or_inf neg n ex = Fin neg m e
                           /\ (inject_Z (Z.pos m) * Qpow 2 e == inject_Z n * Qpow 2 ex)%Q).
Proof.
  unfold finite_or_inf. destruct n as [| n | n]; [left; split; [lia | reflexivity] | | left; split; [lia | reflexivity]].
  right. pose proof (strip_spec n ex) as S. destruct (strip n ex) as [m e].
  destruct S as (Ho & He & Hv).
  assert (Hval : (inject_Z (Z.pos m) * Qpow 2 e == inject_Z (Z.pos n) * Qpow 2 ex)%Q).
  { rewrite Hv. rewrite inject_Z_mult. rewrite <- Qpow_nonneg by lia.
    rewrite <- Qmult_assoc. rewrite <- Qpow_add by lia.
    replace (e - ex + ex) with e by lia. reflexivity. }
  destruct (Z.leb_spec 1024 (Z.log2 (Z.pos m) + e)) as [Hov | Hov].
  - left. split; [lia |]. split; [reflexivity |].
    rewrite <- Hval. destruct (mantissa_binade m e) as [Hb _].
    eapply Qle_trans; [| exact Hb]. apply Qpow_le_mono; lia.
  - right. split; [lia |]. exists m, e. split; [reflexivity | exact Hval].
Qed.

Lemma round_pos_near (neg : bool) (q : Q) :
  (0 < q)%Q ->
  let ex := Z.max (floor_log2 q - 52) (-1074) in
  exists n, round_pos neg q = finite_or_inf neg n ex
            /\ (Qabs (inject_Z n * Qpow 2 ex - q) <= Qpow 2 ex * (1 # 2))%Q.
Proof.
  intros Hq ex. exists (round_half_even (q * Qpow 2 (- ex))). split; [reflexivity |].
  pose proof (round_half_even_near (q * Qpow 2 (- ex))) as Hn.
  pose proof (Qpow_pos 2 ex ltac:(lia)) as Hp.
  pose proof (Qpow_cancel 2 ex ltac:(lia)) as Hc.
  set (n := inject_Z (round_half_even (q * Qpow 2 (- ex)))) in *.
  set (P := Qpow 2 ex) in *. set (P' := Qpow 2 (- ex)) in *.
  apply Qabs_Qle_condition in Hn as [Hn1 Hn2].
  assert (E : (n * P - q == (n - q * P') * P)%Q).
  { transitivity (n * P - q * (P * P'))%Q; [rewrite Hc; ring | ring]. }
  apply Qabs_Qle_condition. rewrite E. split.
  - nra.
  - nra.
Qed.

(* The rounding step is below q * 2^-52, and 2^-1074 at least. *)
Lemma rounding_step (q : Q) :
  (0 < q)%Q ->
  let ex := Z.max (floor_log2 q - 52) (-1074) in
  (Qpow 2 ex <= q * Qpow 2 (-52))%Q \/ ex = -1074.
Proof.
  intros Hq ex. destruct (Z.max_spec (floor_log2 q - 52) (-1074)) as [[_ E] | [_ E]].
  - right. exact E.
  - left. unfold ex. rewrite E.
    replace (floor_log2 q - 52) with (floor_log2 q + -52) by lia.
    rewrite Qpow_add by lia. apply Qmult_le_compat_r.
    + now apply floor_log2_spec.
    + apply Qlt_le_weak, Qpow_pos. lia.
Qed.

(* ---- Math.ceil(count / size) ---- *)

Lemma Qdiv_inject (a b : Z) : 0 < b -> (inject_Z a / inject_Z b == a # Z.to_pos b)%Q.
Proof.
  intros Hb. rewrite Qmake_Qdiv. now rewrite Z2Pos.id by lia.
Qed.

Lemma ceil_of_fraction (m : positive) (e c : Z) :
  e < 0 ->
  (inject_Z (c - 1) < inject_Z (Z.pos m) * Qpow 2 e < inject_Z c)%Q ->
  - (- Z.pos m / 2 ^ (- e)) = c.
Proof.
  intros He [H1 H2].
  assert (Hpos : 0 < 2 ^ (- e)) by (apply Z.pow_pos_nonneg; lia).
  pose proof (Qpow_cancel 2 e ltac:(lia)) as Hc.
  pose proof (Qpow_pos 2 (- e) ltac:(lia)) as Hp.
  rewrite (Qpow_nonneg 2 (- e)) in Hc, Hp by lia.
  set (D := 2 ^ (- e)) in *.
  assert (HM : (inject_Z (Z.pos m) * Qpow 2 e * inject_Z D == inject_Z (Z.pos m))%Q).
  { rewrite <- Qmult_assoc, Hc. ring. }
  assert (L1 : (c - 1) * D < Z.pos m).
  { rewrite Zlt_Qlt, inject_Z_mult. rewrite <- HM.
    apply Qmult_lt_compat_r; assumption. }
  assert (L2 : Z.pos m < c * D).
  { rewrite Zlt_Qlt, inject_Z_mult. rewrite <- HM.
    apply Qmult_lt_compat_r; assumption. }
  assert (- Z.pos m / D = - c); [| lia].
  symmetry. apply (Z.div_unique_pos _ _ _ (- Z.pos m - (- c) * D)); lia.
Qed.

Lemma Math_ceil_integer (x : jsnum) (z : Z) :
  0 < z < 2 ^ 53 -> x = Num z -> Math_ceil x = x.
Proof.
  intros Hz ->. destruct (Num_pos_exact z Hz) as (m & e & E & He & _).
  rewrite E. unfold Math_ceil. destruct (Z.leb_spec 0 e); [reflexivity | lia].
Qed.

(* Math.ceil(count / size), computed on doubles, is the number of pages of
   the given size that hold count documents, for a count and a size that
   are whole numbers below 2^53. *)
Lemma Math_ceil_div_exact (count size : Z) :
  0 <= count < 2 ^ 53 -> 0 < size < 2 ^ 53 ->
  Math_ceil (js_div (Num count) (Num size)) = Num (- (- count / size)).
Proof.
  intros Hc Hs.
  destruct (Num_pos_exact size Hs) as (ms & es & Es & Hes & Hvs & Hvals).
  destruct (Z.eq_dec count 0) as [-> | Hc0].
  { rewrite Es. reflexivity. }
  destruct (Num_pos_exact count ltac:(lia)) as (mc & ec & Ec & Hec & Hvc & Hvalc).
  set (c := - (- count / size)).
  pose proof (Z.div_mod (- count) size ltac:(lia)) as Hdm.
  pose proof (Z.mod_pos_bound (- count) size ltac:(lia)) as Hmb.
  assert (Hc1 : (c - 1) * size < count <= c * size) by (unfold c; nia).
  assert (Hcpos : 0 < c < 2 ^ 53) by nia.
  assert (Hq : (num_value (Num count) / num_value (Num size) == inject_Z count / inject_Z size)%Q).
  { rewrite (Num_value count), (Num_value size) by lia. reflexivity. }
  assert (Qs : (0 < inject_Z size)%Q) by (unfold Qlt; simpl; lia).
  assert (Qc : (0 < inject_Z count)%Q) by (unfold Qlt; simpl; lia).
  assert (Hdiv : js_div (Num count) (Num size)
                 = match round64 (inject_Z count / inject_Z size) with
                   | Zero _ => Zero false
                   | r => r
                   end).
  { rewrite <- (round64_Qeq _ _ Hq). rewrite Ec, Es. reflexivity. }
  rewrite Hdiv. clear Hdiv Hq.
  set (q := (inject_Z count / inject_Z size)%Q).
  assert (Hqs : (q * inject_Z size == inject_Z count)%Q).
  { unfold q. field. lra. }
  destruct (Z.eq_dec count (c * size)) as [Ediv | Ediv].
  - (* the quotient is the whole number c *)
    assert (Eq : (q == inject_Z c)%Q).
    { unfold q. rewrite Ediv, inject_Z_mult. field. lra. }
    rewrite (round64_Qeq _ _ Eq). fold (Num c).
    destruct (Num_pos_exact c Hcpos) as (m & e & E & He & _).
    rewrite E. unfold Math_ceil. destruct (Z.leb_spec 0 e); [reflexivity | lia].
  - (* the quotient lies strictly between c - 1 and c, at 1 / size from both *)
    assert (Hlo : (inject_Z (c - 1) * inject_Z size + 1 <= q * inject_Z size)%Q).
    { rewrite Hqs. rewrite <- inject_Z_mult. change 1%Q with (inject_Z 1).
      rewrite <- inject_Z_plus. rewrite <- Zle_Qle. lia. }
    assert (Hhi : (q * inject_Z size + 1 <= inject_Z c * inject_Z size)%Q).
    { rewrite Hqs. rewrite <- inject_Z_mult. change 1%Q with (inject_Z 1).
      rewrite <- inject_Z_plus. rewrite <- Zle_Qle. lia. }
    assert (Hqpos : (0 < q)%Q).
    { unfold q. apply Qlt_shift_div_l; lra. }
    (* rounding moves q by less than 1 / size *)
    pose proof (Qred_correct q) as R.
    assert (Hrpos : (0 < Qred q)%Q) by now rewrite R.
    unfold round64. apply Qnum_pos_iff in Hrpos as Hnum.
    destruct (Qnum (Qred q)) as [| pn | pn] eqn:En; try lia.
    destruct (round_pos_near false (Qred q) Hrpos) as (n & Er & Hnear).
    set (ex := Z.max (floor_log2 (Qred q) - 52) (-1074)) in *.
    pose proof (Qpow_pos 2 ex ltac:(lia)) as Hp.
    assert (Hsmall : (Qpow 2 ex * (1 # 2) * inject_Z size < 1)%Q).
    { destruct (rounding_step (Qred q) Hrpos) as [Hstep | Hstep]; fold ex in Hstep.
      - rewrite R in Hstep.
        assert (Hcs : (inject_Z count < inject_Z (2 ^ 53))%Q) by (rewrite <- Zlt_Qlt; lia).
        assert (H53 : (Qpow 2 (-52) * (1 # 2) * inject_Z (2 ^ 53) == 1)%Q) by reflexivity.
        assert (Hb : (Qpow 2 ex * (1 # 2) * inject_Z size
                      <= q * Qpow 2 (-52) * (1 # 2) * inject_Z size)%Q).
        { apply Qmult_le_compat_r; [| lra]. apply Qmult_le_compat_r; lra. }
        eapply Qle_lt_trans; [exact Hb |].
        setoid_replace (q * Qpow 2 (-52) * (1 # 2) * inject_Z size)%Q
          with ((q * inject_Z size) * (Qpow 2 (-52) * (1 # 2)))%Q using relation Qeq by ring.
        rewrite Hqs.
        assert (Hk : (0 < Qpow 2 (-52) * (1 # 2))%Q) by reflexivity.
        assert (Hm : (inject_Z count * (Qpow 2 (-52) * (1 # 2))
                      < inject_Z (2 ^ 53) * (Qpow 2 (-52) * (1 # 2)))%Q)
          by (apply Qmult_lt_compat_r; assumption).
        eapply Qlt_le_trans; [exact Hm |].
        setoid_replace (inject_Z (2 ^ 53) * (Qpow 2 (-52) * (1 # 2)))%Q
          with (Qpow 2 (-52) * (1 # 2) * inject_Z (2 ^ 53))%Q using relation Qeq by ring.
        rewrite H53. lra.
      - rewrite Hstep.
        assert (Hss : (inject_Z size < inject_Z (2 ^ 53))%Q) by (rewrite <- Zlt_Qlt; lia).
        assert (Hk : (0 < Qpow 2 (-1074) * (1 # 2))%Q) by reflexivity.
        assert (Hm : (Qpow 2 (-1074) * (1 # 2) * inject_Z size
                      < Qpow 2 (-1074) * (1 # 2) * inject_Z (2 ^ 53))%Q).
        { rewrite !(Qmult_comm (Qpow 2 (-1074) * (1 # 2))).
          apply Qmult_lt_compat_r; assumption. }
        eapply Qlt_le_trans; [exact Hm |]. vm_compute. discriminate. }
    rewrite R in Hnear.
    apply Qabs_Qle_condition in Hnear as [Hn1 Hn2].
    set (v := (inject_Z n * Qpow 2 ex)%Q) in *.
    assert (Hv : (inject_Z (c - 1) < v < inject_Z c)%Q).
    { split; apply (Qmult_lt_r _ _ (inject_Z size) Qs); nra. }
    assert (Hc0' : (0 <= inject_Z (c - 1))%Q) by (unfold Qle; simpl; lia).
    assert (Hvpos : (0 < v)%Q) by (destruct Hv; lra).
    rewrite Er.
    destruct (finite_or_inf_cases false n ex)
      as [[Hn0 _] | [(Hn0 & _ & Hinf) | (Hn0 & m & e & Ef & Hval)]].
    + exfalso. assert ((inject_Z n <= 0)%Q) by (unfold Qle; simpl; lia).
      unfold v in Hvpos. nra.
    + exfalso. fold v in Hinf.
      assert ((inject_Z c <= Qpow 2 1024)%Q)
        by (rewrite Qpow_nonneg by lia; rewrite <- Zle_Qle; lia).
      destruct Hv; lra.
    + rewrite Ef. fold v in Hval. rewrite <- Hval in Hv.
      unfold Math_ceil. destruct (Z.leb_spec 0 e) as [He | He].
      * exfalso. rewrite Qpow_nonneg in Hv by lia.
        rewrite <- inject_Z_mult in Hv. destruct Hv as [Hv1 Hv2].
        rewrite <- Zlt_Qlt in Hv1, Hv2. lia.
      * rewrite (ceil_of_fraction m e c He Hv).
        destruct (Z.eqb_spec c 0); [lia | reflexivity].
Qed.

(* ---- Math.ceil(count / size) for a size beyond 2^53 ---- *)

(* Rounding a positive rational: the binade it lies in, and the multiple of
   the rounding step it is rounded to. *)
Lemma round64_pos_near (q : Q) :
  (0 < q)%Q ->
  exists L n,
    (Qpow 2 L <= q < Qpow 2 (L + 1))%Q
    /\ (Qabs (inject_Z n * Qpow 2 (Z.max (L - 52) (-1074)) - q)
        <= Qpow 2 (Z.max (L - 52) (-1074)) * (1 # 2))%Q
    /\ round64 q = finite_or_inf false n (Z.max (L - 52) (-1074)).
Proof.
  intros Hq. pose proof (Qred_correct q) as R.
  assert (Hr : (0 < Qred q)%Q) by now rewrite R.
  destruct (round_pos_near false (Qred q) Hr) as (n & Er & Hnear).
  pose proof (floor_log2_spec (Qred q) Hr) as HL.
  assert (E : round64 q = finite_or_inf false n (Z.max (floor_log2 (Qred q) - 52) (-1074))).
  { unfold round64. apply Qnum_pos_iff in Hr.
    destruct (Qnum (Qred q)) as [| p | p]; try lia. exact Er. }
  set (L := floor_log2 (Qred q)) in *. clearbody L.
  exists L, n. rewrite R in HL, Hnear. split; [exact HL |]. split; [exact Hnear | exact E].
Qed.

Lemma inject_Z_pos (z : Z) : 0 < z -> (0 < inject_Z z)%Q.
Proof. intros Hz. unfold Qlt. simpl. lia. Qed.

(* A whole number from 2^53 on that is not rounded to infinity is rounded
   to a double from 2^53 on. *)
Lemma Num_big (size : Z) :
  2 ^ 53 <= size -> is_finite (Num size) = true ->
  exists m e, Num size = Fin false m e
              /\ valid (Fin false m e) = true
              /\ (inject_Z (2 ^ 53) <= inject_Z (Z.pos m) * Qpow 2 e)%Q.
Proof.
  intros Hs Hfin.
  assert (Hq : (0 < inject_Z size)%Q) by (apply inject_Z_pos; lia).
  destruct (round64_pos_near (inject_Z size) Hq) as (L & n & [HL1 HL2] & Hnear & Er).
  fold (Num size) in Er.
  assert (H53 : (inject_Z (2 ^ 53) <= inject_Z size)%Q) by (rewrite <- Zle_Qle; exact Hs).
  assert (HL : 53 <= L).
  { assert (53 < L + 1); [| lia]. apply (Qpow_lt_inv 2); [lia |].
    rewrite (Qpow_nonneg 2 53) by lia. lra. }
  assert (Eex : Z.max (L - 52) (-1074) = L - 52) by lia.
  rewrite Eex in *.
  pose proof (Qpow_pos 2 (L - 52) ltac:(lia)) as Hp.
  assert (EL : (Qpow 2 L == inject_Z (2 ^ 52) * Qpow 2 (L - 52))%Q).
  { rewrite <- (Qpow_nonneg 2 52) by lia. rewrite <- Qpow_add by lia.
    replace (52 + (L - 52)) with L by lia. reflexivity. }
  set (P := Qpow 2 (L - 52)) in *.
  apply Qabs_Qle_condition in Hnear as [Hn1 _].
  assert (Hn : 2 ^ 52 <= n).
  { destruct (Z_lt_le_dec n (2 ^ 52)) as [Hlt | Hge]; [exfalso | exact Hge].
    assert (Hle : (inject_Z n + 1 <= inject_Z (2 ^ 52))%Q).
    { change 1%Q with (inject_Z 1). rewrite <- inject_Z_plus, <- Zle_Qle. lia. }
    assert (Hm : ((inject_Z n + 1) * P <= inject_Z (2 ^ 52) * P)%Q)
      by (apply Qmult_le_compat_r; lra).
    lra. }
  assert (Hval : (inject_Z (2 ^ 53) <= inject_Z n * P)%Q).
  { assert (Hm : (inject_Z (2 ^ 52) * P <= inject_Z n * P)%Q).
    { apply Qmult_le_compat_r; [| lra]. rewrite <- Zle_Qle. exact Hn. }
    rewrite <- EL in Hm. eapply Qle_trans; [| exact Hm].
    rewrite <- (Qpow_nonneg 2 53) by lia. apply Qpow_le_mono; lia. }
  destruct (finite_or_inf_cases false n (L - 52))
    as [[Hn0 _] | [(_ & Einf & _) | (_ & m & e & Ef & Hv)]].
  - exfalso. assert (0 < 2 ^ 52) by reflexivity. lia.
  - rewrite Er, Einf in Hfin. discriminate.
  - exists m, e. rewrite Er, Ef. split; [reflexivity |]. split.
    + rewrite <- Ef, <- Er. apply Num_valid.
    + fold P in Hv. rewrite Hv. exact Hval.
Qed.

(* A count below 2^53 divided by a double from 2^53 on lies between 0 and
   1, and so does the double nearest to the quotient. *)
Lemma ceil_small_quotient (count : Z) (m : positive) (e : Z) :
  0 < count < 2 ^ 53 ->
  valid (Fin false m e) = true ->
  (inject_Z (2 ^ 53) <= inject_Z (Z.pos m) * Qpow 2 e)%Q ->
  Math_ceil (js_div (Num count) (Fin false m e)) = Num 1.
Proof.
  intros Hc Hv Hbig.
  destruct (Num_pos_exact count Hc) as (mc & ec & Ec & _).
  pose proof (Num_value count ltac:(lia)) as Vc.
  rewrite Ec. unfold js_div. rewrite <- Ec.
  change (num_value (Fin false m e)) with (inject_Z (Z.pos m) * Qpow 2 e)%Q.
  set (v := (inject_Z (Z.pos m) * Qpow 2 e)%Q) in *.
  set (q := (num_value (Num count) / v)%Q).
  assert (Hvpos : (0 < v)%Q).
  { assert ((0 < inject_Z (2 ^ 53))%Q) by reflexivity. lra. }
  assert (Hcq : (0 < inject_Z count < inject_Z (2 ^ 53))%Q).
  { split; [apply inject_Z_pos; lia | rewrite <- Zlt_Qlt; lia]. }
  assert (Hqv : (q * v == inject_Z count)%Q).
  { unfold q. rewrite Vc. field. lra. }
  assert (Hq0 : (0 < q)%Q).
  { unfold q. rewrite Vc. apply Qlt_shift_div_l; lra. }
  assert (Hq1 : (q < 1)%Q).
  { unfold q. rewrite Vc. apply Qlt_shift_div_r; lra. }
  assert (Hvmax : (v < Qpow 2 1024)%Q).
  { cbn [valid] in Hv. bool_facts. destruct Hv as [[[_ _] _] Hlog].
    destruct (mantissa_binade m e) as [_ Hb]. fold v in Hb.
    eapply Qlt_le_trans; [exact Hb |]. apply Qpow_le_mono; lia. }
  assert (Hqmin : (Qpow 2 (-1024) < q)%Q).
  { assert (Hone : (1 <= inject_Z count)%Q).
    { change 1%Q with (inject_Z 1). rewrite <- Zle_Qle. lia. }
    pose proof (Qpow_cancel 2 1024 ltac:(lia)) as Hcan.
    pose proof (Qpow_pos 2 (-1024) ltac:(lia)) as Hpm.
    apply (Qmult_lt_r _ _ v Hvpos). rewrite Hqv.
    assert (Hm : (Qpow 2 (-1024) * v < Qpow 2 (-1024) * Qpow 2 1024)%Q).
    { rewrite !(Qmult_comm (Qpow 2 (-1024))). apply Qmult_lt_compat_r; assumption. }
    rewrite (Qmult_comm (Qpow 2 (-1024)) (Qpow 2 1024)), Hcan in Hm. lra. }
  destruct (round64_pos_near q Hq0) as (L & n & [HL1 HL2] & Hnear & Er).
  assert (HL : L < 0).
  { apply (Qpow_lt_inv 2); [lia |]. rewrite (Qpow_nonneg 2 0) by lia.
    change (inject_Z (2 ^ 0)) with 1%Q. lra. }
  set (ex := Z.max (L - 52) (-1074)) in *.
  assert (Hex : -1074 <= ex <= -53) by (unfold ex; lia).
  pose proof (Qpow_pos 2 ex ltac:(lia)) as Hp.
  pose proof (Qpow_cancel 2 ex ltac:(lia)) as Hcan.
  rewrite (Qpow_nonneg 2 (- ex)) in Hcan by lia.
  assert (HK : 0 < 2 ^ (- ex)) by (apply Z.pow_pos_nonneg; lia).
  set (K := 2 ^ (- ex)) in *.
  assert (Hhalf : (Qpow 2 ex * (1 # 2) < q)%Q).
  { destruct (Z.max_spec (L - 52) (-1074)) as [[_ E] | [_ E]]; fold ex in E.
    - rewrite E. assert ((Qpow 2 (-1074) * (1 # 2) < Qpow 2 (-1024))%Q) by reflexivity. lra.
    - rewrite E. replace (L - 52) with (L + -52) by lia. rewrite Qpow_add by lia.
      assert (H52 : (0 < Qpow 2 (-52) * (1 # 2) < 1)%Q) by (split; reflexivity).
      pose proof (Qpow_pos 2 L ltac:(lia)) as HpL.
      assert (Hm : (Qpow 2 L * (Qpow 2 (-52) * (1 # 2)) < Qpow 2 L * 1)%Q).
      { rewrite !(Qmult_comm (Qpow 2 L)). apply Qmult_lt_compat_r; [exact HpL | apply H52]. }
      lra. }
  set (P := Qpow 2 ex) in *.
  apply Qabs_Qle_condition in Hnear as [Hn1 Hn2].
  assert (Hnpos : 0 < n).
  { destruct (Z_lt_le_dec 0 n) as [Hlt | Hge]; [exact Hlt | exfalso].
    assert (Hle : (inject_Z n <= 0)%Q) by (unfold Qle; simpl; lia).
    assert (Hm : (inject_Z n * P <= 0 * P)%Q) by (apply Qmult_le_compat_r; lra).
    lra. }
  assert (HnK : n <= K).
  { destruct (Z_lt_le_dec K n) as [Hlt | Hge]; [exfalso | exact Hge].
    assert (Hle : (inject_Z K + 1 <= inject_Z n)%Q).
    { change 1%Q with (inject_Z 1). rewrite <- inject_Z_plus, <- Zle_Qle. lia. }
    assert (Hm : ((inject_Z K + 1) * P <= inject_Z n * P)%Q)
      by (apply Qmult_le_compat_r; lra).
    assert (HKP : (inject_Z K * P == 1)%Q) by (rewrite Qmult_comm; exact Hcan).
    lra. }
  assert (Hval1 : (inject_Z n * P <= 1)%Q).
  { assert (Hm : (inject_Z n * P <= inject_Z K * P)%Q).
    { apply Qmult_le_compat_r; [| lra]. rewrite <- Zle_Qle. exact HnK. }
    assert (HKP : (inject_Z K * P == 1)%Q) by (rewrite Qmult_comm; exact Hcan).
    lra. }
  destruct (finite_or_inf_cases false n ex)
    as [[Hn0 _] | [(_ & _ & Hinf) | (_ & m' & e' & Ef & Hv')]].
  - lia.
  - exfalso. fold P in Hinf.
    assert ((1 < Qpow 2 1024)%Q) by reflexivity. lra.
  - fold P in Hv'.
    assert (Hvalid : valid (Fin false m' e') = true).
    { rewrite <- Ef, <- Er. apply round64_valid. }
    rewrite Er, Ef. unfold Math_ceil.
    destruct (Z.leb_spec 0 e') as [He | He].
    + (* a whole number that is at most 1 *)
      rewrite Qpow_nonneg in Hv' by lia. rewrite <- inject_Z_mult in Hv'.
      assert (Hle : Z.pos m' * 2 ^ e' <= 1).
      { rewrite Zle_Qle. rewrite Hv'. exact Hval1. }
      assert (H2 : 0 < 2 ^ e') by (apply Z.pow_pos_nonneg; lia).
      assert (Em : Z.pos m' = 1) by nia.
      assert (Ee : e' = 0).
      { destruct (Z.eq_dec e' 0) as [E0 | E0]; [exact E0 | exfalso].
        assert (2 ^ 1 <= 2 ^ e') by (apply Z.pow_le_mono_r; lia).
        change (2 ^ 1) with 2 in *. nia. }
      injection Em as ->. subst e'. reflexivity.
    + (* a fraction below 1 *)
      pose proof (Qpow_cancel 2 e' ltac:(lia)) as Hcan'.
      rewrite (Qpow_nonneg 2 (- e')) in Hcan' by lia.
      assert (HD : 0 < 2 ^ (- e')) by (apply Z.pow_pos_nonneg; lia).
      set (D := 2 ^ (- e')) in *.
      pose proof (Qpow_pos 2 e' ltac:(lia)) as Hpe.
      assert (HDq : (0 < inject_Z D)%Q) by (apply inject_Z_pos; exact HD).
      assert (Hle : Z.pos m' <= D).
      { rewrite Zle_Qle.
        assert (Hm : (inject_Z (Z.pos m') * Qpow 2 e' * inject_Z D <= 1 * inject_Z D)%Q).
        { apply Qmult_le_compat_r; [rewrite Hv'; exact Hval1 | lra]. }
        rewrite <- Qmult_assoc, Hcan' in Hm. lra. }
      assert (Hne : Z.pos m' <> D).
      { cbn [valid] in Hvalid. bool_facts. destruct Hvalid as [[[Hodd _] _] _].
        unfold D. replace (- e') with (Z.succ (- e' - 1)) by lia.
        rewrite Z.pow_succ_r by lia.
        destruct m' as [m'' | m'' |]; [lia | discriminate Hodd |].
        assert (0 < 2 ^ (- e' - 1)) by (apply Z.pow_pos_nonneg; lia). lia. }
      assert (Ediv : - Z.pos m' / D = -1).
      { symmetry. apply (Z.div_unique_pos _ _ _ (D - Z.pos m')); lia. }
      rewrite Ediv. reflexivity.
Qed.

(* Math.ceil(count / size) on doubles is the number of pages for every
   positive whole size that is not rounded to infinity. *)
Lemma Math_ceil_div_finite (count size : Z) :
  0 <= count < 2 ^ 53 -> 0 < size -> is_finite (Num size) = true ->
  exists n, Math_ceil (js_div (Num count) (Num size)) = Num n
            /\ 0 <= n < 2 ^ 53
            /\ (n - 1) * size < count <= n * size.
Proof.
  intros Hc Hs Hfin.
  destruct (Z_lt_le_dec size (2 ^ 53)) as [Hsmall | Hbig].
  - rewrite Math_ceil_div_exact by lia.
    exists (- (- count / size)). split; [reflexivity |].
    pose proof (Z.div_mod (- count) size ltac:(lia)) as D.
    pose proof (Z.mod_pos_bound (- count) size Hs) as B.
    split; nia.
  - destruct (Num_big size Hbig Hfin) as (m & e & Es & Hv & Hval).
    assert (H53 : 0 < 2 ^ 53) by reflexivity.
    destruct (Z.eq_dec count 0) as [-> | Hnz].
    + exists 0. rewrite Es, Num_0. split; [reflexivity |]. lia.
    + exists 1. rewrite Es. split; [apply ceil_small_quotient; [lia | assumption..] |]. lia.
Qed.

(* ---- the digits of a number ---- *)

Lemma jsnum_eqb_eq (x y : jsnum) : jsnum_eqb x y = true -> x = y.
Proof.
  destruct x as [| a | a | a m e], y as [| b | b | b m' e']; simpl; try discriminate;
    try reflexivity.
  - intros E. apply Bool.eqb_prop in E. now subst.
  - intros E. apply Bool.eqb_prop in E. now subst.
  - intros E. apply andb_true_iff in E as [E E3]. apply andb_true_iff in E as [E1 E2].
    apply Bool.eqb_prop in E1. apply Pos.eqb_eq in E2. apply Z.eqb_eq in E3. now subst.
Qed.

Lemma jsnum_eqb_refl (x : jsnum) : jsnum_eqb x x = true.
Proof.
  destruct x as [| a | a | a m e]; simpl; try reflexivity; try apply Bool.eqb_reflx.
  now rewrite Bool.eqb_reflx, Pos.eqb_refl, Z.eqb_refl.
Qed.

Lemma candidate_sound (x : jsnum) (q : Q) (k s : Z) :
  candidate x q k = Some s -> 0 < s /\ decimal false s k = x.
Proof.
  unfold candidate.
  set (t := (q * Qpow 10 (- k))%Q). set (lo := Qfloor t).
  assert (Hok : forall c, (0 <? c) && jsnum_eqb (decimal false c k) x = true ->
                          0 < c /\ decimal false c k = x).
  { intros c Hc. apply andb_true_iff in Hc as [H1 H2].
    apply Z.ltb_lt in H1. apply jsnum_eqb_eq in H2. auto. }
  destruct (Qeq_bool t (inject_Z lo)).
  - destruct ((0 <? lo) && jsnum_eqb (decimal false lo k) x) eqn:E; [| discriminate].
    intros [= <-]. now apply Hok.
  - destruct ((0 <? lo) && jsnum_eqb (decimal false lo k) x) eqn:E1;
      destruct ((0 <? lo + 1) && jsnum_eqb (decimal false (lo + 1) k) x) eqn:E2;
      try discriminate.
    + destruct (t - inject_Z lo ?= 1 # 2)%Q; [destruct (Z.even lo) | |];
        intros [= <-]; now apply Hok.
    + intros [= <-]. now apply Hok.
    + intros [= <-]. now apply Hok.
Qed.

Lemma decimal_exact (x : jsnum) (s k : Z) :
  valid x = true -> truthy_num x = true -> is_finite x = true ->
  0 < s -> (inject_Z s * Qpow 10 k == num_value x)%Q -> decimal false s k = x.
Proof.
  intros Hv Ht Hf Hs E. unfold decimal.
  destruct (Z.eqb_spec s 0); [lia |]. now apply round64_exact.
Qed.

Lemma candidate_exact (x : jsnum) (q : Q) (k s : Z) :
  valid x = true -> truthy_num x = true -> is_finite x = true ->
  (q == num_value x)%Q -> 0 < s -> (q * Qpow 10 (- k) == inject_Z s)%Q ->
  candidate x q k = Some s.
Proof.
  intros Hv Ht Hf Eq Hs Et. unfold candidate.
  assert (Hlo : Qfloor (q * Qpow 10 (- k)) = s) by (rewrite Et; apply Qfloor_Z).
  rewrite Hlo.
  assert (Heq : Qeq_bool (q * Qpow 10 (- k)) (inject_Z s) = true)
    by now apply Qeq_bool_iff.
  rewrite Heq.
  assert (Hd : decimal false s k = x).
  { apply decimal_exact; auto. rewrite <- Eq, <- Et.
    rewrite <- Qmult_assoc. rewrite (Qmult_comm (Qpow 10 (- k))).
    rewrite Qpow_cancel by lia. ring. }
  rewrite Hd, jsnum_eqb_refl.
  destruct (Z.ltb_spec 0 s); [reflexivity | lia].
Qed.

Lemma shortest_found (x : jsnum) (q : Q) (fuel : nat) (k : Z) :
  candidate x q (k - Z.of_nat fuel) <> None ->
  exists s k', shortest fuel x q k = (s, k') /\ candidate x q k' = Some s.
Proof.
  revert k. induction fuel as [| f IH]; intros k Hc.
  - simpl in *. rewrite Z.sub_0_r in Hc.
    destruct (candidate x q k) as [s |] eqn:E; [eauto | congruence].
  - cbn [shortest]. destruct (candidate x q k) as [s |] eqn:E; [eauto |].
    apply IH. replace (k - 1 - Z.of_nat f) with (k - Z.of_nat (S f)) by lia. exact Hc.
Qed.

Lemma Qpow_10_succ (k : Z) : (Qpow 10 (k + 1) == Qpow 10 k * inject_Z 10)%Q.
Proof. rewrite Qpow_add by lia. reflexivity. Qed.

Lemma strip10_value (fuel : nat) (s k : Z) :
  0 < s ->
  let '(s', k') := strip10 fuel s k in
  0 < s' /\ (inject_Z s' * Qpow 10 k' == inject_Z s * Qpow 10 k)%Q.
Proof.
  revert s k. induction fuel as [| f IH]; intros s k Hs; simpl.
  - split; [exact Hs | reflexivity].
  - destruct (Z.ltb_spec 0 s); [| lia]. simpl.
    destruct (Z.eqb_spec (s mod 10) 0) as [E | E].
    + pose proof (Z.div_mod s 10 ltac:(lia)) as D. rewrite E, Z.add_0_r in D.
      specialize (IH (s / 10) (k + 1) ltac:(lia)).
      destruct (strip10 f (s / 10) (k + 1)) as [s' k'].
      destruct IH as [Hp Hv]. split; [exact Hp |].
      rewrite Hv. rewrite Qpow_10_succ. rewrite D at 2. rewrite inject_Z_mult. ring.
    + split; [exact Hs | reflexivity].
Qed.

(* Every double has a text: with enough digits the multiple of 10^-1074
   below it is the double itself. *)
Lemma exact_at_1074 (m : positive) (e : Z) :
  -1074 <= e ->
  (inject_Z (Z.pos m) * Qpow 2 e * Qpow 10 1074
   == inject_Z (Z.pos m * 2 ^ (e + 1074) * 5 ^ 1074))%Q.
Proof.
  intros He. rewrite (Qpow_nonneg 10 1074) by lia.
  change 10 with (2 * 5). rewrite Z.pow_mul_l.
  rewrite !inject_Z_mult. rewrite <- (Qpow_nonneg 2 (e + 1074)) by lia.
  rewrite <- (Qpow_nonneg 2 1074) by lia.
  rewrite (Qpow_add 2 e 1074) by lia. ring.
Qed.

Lemma shortest_digits_sound (m : positive) (e : Z) :
  valid (Fin false m e) = true ->
  let '(s, k) := shortest_digits m e in
  0 < s /\ decimal false s k = Fin false m e.
Proof.
  intros Hv. unfold shortest_digits.
  set (x := Fin false m e). set (q := num_value x).
  set (k0 := Z.max (floor_log10 q) (-1074)).
  assert (He : -1074 <= e).
  { cbn [valid] in Hv. rewrite !andb_true_iff in Hv. destruct Hv as [[_ H] _].
    now apply Z.leb_le in H. }
  assert (Hpos : 0 < Z.pos m * 2 ^ (e + 1074) * 5 ^ 1074).
  { assert (0 < 2 ^ (e + 1074)) by (apply Z.pow_pos_nonneg; lia).
    assert (0 < 5 ^ 1074) by (apply Z.pow_pos_nonneg; lia). nia. }
  assert (Hc : candidate x q (k0 - Z.of_nat (Z.to_nat (k0 + 1074))) <> None).
  { replace (k0 - Z.of_nat (Z.to_nat (k0 + 1074))) with (-1074) by (unfold k0; lia).
    rewrite (candidate_exact x q (-1074) (Z.pos m * 2 ^ (e + 1074) * 5 ^ 1074));
      auto; try reflexivity; try discriminate.
    apply exact_at_1074. exact He. }
  destruct (shortest_found x q _ k0 Hc) as (s & k & Es & Ec). rewrite Es.
  apply candidate_sound in Ec as [Hs Hd].
  pose proof (strip10_value (S (Z.to_nat (Z.log2 s))) s k Hs) as St.
  destruct (strip10 (S (Z.to_nat (Z.log2 s))) s k) as [s' k'].
  destruct St as [Hs' Hval]. split; [exact Hs' |].
  rewrite <- Hd. unfold decimal.
  destruct (Z.eqb_spec s' 0); [lia |]. destruct (Z.eqb_spec s 0); [lia |].
  now apply round64_Qeq.
Qed.

Lemma decimal_neg (s k : Z) : 0 < s -> decimal true s k = js_neg (decimal false s k).
Proof.
  intros Hs. unfold decimal. destruct (Z.eqb_spec s 0); [lia |].
  rewrite <- round64_opp.
  - apply round64_Qeq. ring.
  - intros E. pose proof (Qpow_pos 10 k ltac:(lia)).
    assert ((0 < inject_Z s)%Q) by (unfold Qlt; simpl; lia). nra.
Qed.

(* ---- texts ---- *)

Lemma append_cons (a : ascii) (r y : string) : String a r +:+ y = String a (r +:+ y).
Proof. reflexivity. Qed.

Lemma append_nil (y : string) : "" +:+ y = y.
Proof. reflexivity. Qed.

Lemma append_empty (s : string) : s +:+ "" = s.
Proof.
  induction s as [| a s IH]; [reflexivity |]. rewrite append_cons. now rewrite IH.
Qed.

Lemma length_append (x y : string) :
  String.length (x +:+ y) = (String.length x + String.length y)%nat.
Proof.
  induction x as [| a x IH]; [reflexivity |]. rewrite append_cons. simpl. now rewrite IH.
Qed.

Lemma number_char_cases (a : ascii) :
  number_char a = true -> is_ws a = false /\ Ascii.eqb a "_" = false.
Proof.
  unfold number_char, is_digit, digit_of, is_ws.
  destruct a as [[] [] [] [] [] [] [] []]; vm_compute; intros H; try discriminate; auto.
Qed.

Lemma number_text_clean (s : string) :
  number_text s = true -> no_ws s = true /\ occurs "_" s = false.
Proof.
  induction s as [| a s IH]; simpl; [auto |]. intros H.
  apply andb_true_iff in H as [Ha Hs]. destruct (IH Hs) as [H1 H2].
  destruct (number_char_cases a Ha) as [H3 H4]. now rewrite H1, H2, H3, H4.
Qed.

Lemma number_text_app (x y : string) :
  number_text (x +:+ y) = number_text x && number_text y.
Proof.
  induction x as [| a x IH]; [reflexivity |]. rewrite append_cons. simpl.
  now rewrite IH, andb_assoc.
Qed.

Lemma all_digits_number_text (s : string) : all_digits s = true -> number_text s = true.
Proof.
  induction s as [| a s IH]; simpl; [auto |]. intros H.
  apply andb_true_iff in H as [Ha Hs]. unfold number_char. now rewrite Ha, IH.
Qed.

Lemma all_digits_app (x y : string) :
  all_digits (x +:+ y) = all_digits x && all_digits y.
Proof.
  induction x as [| a x IH]; [reflexivity |]. rewrite append_cons. simpl.
  now rewrite IH, andb_assoc.
Qed.

Lemma all_digits_zeros (j : nat) : all_digits (zeros j) = true.
Proof. induction j; simpl; auto. Qed.

Lemma length_zeros (j : nat) : String.length (zeros j) = j.
Proof. induction j; simpl; auto. Qed.

Lemma take_drop (n : nat) (s : string) : take n s +:+ drop n s = s.
Proof.
  revert s. induction n as [| n IH]; intros [| a s]; simpl; try reflexivity.
  rewrite append_cons. now rewrite IH.
Qed.

Lemma all_digits_take (n : nat) (s : string) :
  all_digits s = true -> all_digits (take n s) = true.
Proof.
  revert s. induction n as [| n IH]; intros [| a s]; simpl; try reflexivity.
  intros H. apply andb_true_iff in H as [Ha Hs]. now rewrite Ha, IH.
Qed.

Lemma all_digits_drop (n : nat) (s : string) :
  all_digits s = true -> all_digits (drop n s) = true.
Proof.
  revert s. induction n as [| n IH]; intros [| a s]; simpl; try reflexivity; auto.
  intros H. apply andb_true_iff in H as [Ha Hs]. now apply IH.
Qed.

Lemma length_drop (n : nat) (s : string) :
  String.length (drop n s) = (String.length s - n)%nat.
Proof.
  revert s. induction n as [| n IH]; intros [| a s]; simpl; try reflexivity. apply IH.
Qed.

Lemma take_nonempty (n : nat) (s : string) :
  (0 < n)%nat -> s <> "" -> take n s <> "".
Proof. destruct n, s; simpl; try lia; congruence. Qed.

(* ---- digits ---- *)

Lemma string_of_uint_digits (d : Decimal.uint) :
  all_digits (NilEmpty.string_of_uint d) = true.
Proof. induction d; simpl; auto. Qed.

Lemma digits_from_acc (d : Decimal.uint) (a : positive) :
  digits_from (Z.pos a) (NilEmpty.string_of_uint d) = Some (Z.pos (Pos.of_uint_acc d a)).
Proof.
  revert a. induction d; intros a; simpl; try reflexivity;
    rewrite <- IHd; f_equal; vm_compute (nat_of_ascii _); lia.
Qed.

Lemma digits_from_zero (d : Decimal.uint) :
  digits_from 0 (NilEmpty.string_of_uint d) = Some (Z.of_N (Pos.of_uint d)).
Proof.
  induction d; simpl; try reflexivity; try exact IHd; apply digits_from_acc.
Qed.

Lemma string_of_nonneg_spec (n : Z) :
  0 <= n ->
  all_digits (string_of_nonneg n) = true
  /\ string_of_nonneg n <> ""
  /\ digits_from 0 (string_of_nonneg n) = Some n.
Proof.
  intros Hn. destruct n as [| p | p]; try lia; simpl.
  - repeat split; discriminate.
  - split; [apply string_of_uint_digits |]. split.
    + pose proof (DecimalPos.Unsigned.to_uint_nonnil p) as Hnil.
      destruct (Pos.to_uint p); simpl; congruence.
    + rewrite digits_from_zero. now rewrite DecimalPos.Unsigned.of_to.
Qed.

Lemma digits_from_app (x y : string) (a : Z) :
  digits_from a (x +:+ y)
  = match digits_from a x with
    | Some v => digits_from v y
    | None => None
    end.
Proof.
  revert a. induction x as [| c x IH]; intros a; [reflexivity |].
  rewrite append_cons. simpl. destruct (digit_of c); [apply IH | reflexivity].
Qed.

Lemma digits_from_zeros (v : Z) (j : nat) :
  digits_from v (zeros j) = Some (v * 10 ^ Z.of_nat j).
Proof.
  revert v. induction j as [| j IH]; intros v.
  - simpl. f_equal. lia.
  - change (digits_from v (zeros (S j))) with (digits_from (10 * v + 0) (zeros j)).
    rewrite IH. f_equal. rewrite Nat2Z.inj_succ, Z.pow_succ_r by lia. lia.
Qed.

Lemma digits_from_lead_zeros (j : nat) (x : string) :
  digits_from 0 (zeros j +:+ x) = digits_from 0 x.
Proof.
  rewrite digits_from_app, digits_from_zeros. now rewrite Z.mul_0_l.
Qed.

Lemma digits_from_total (x : string) (a : Z) :
  all_digits x = true -> exists v, digits_from a x = Some v.
Proof.
  revert a. induction x as [| c x IH]; intros a; simpl; [eauto |].
  intros H. apply andb_true_iff in H as [Hc Hx]. unfold is_digit in Hc.
  destruct (digit_of c); [now apply IH | discriminate].
Qed.

(* ---- reading a decimal literal ---- *)

Lemma span_digits_app (x y : string) :
  all_digits x = true -> digit_free_head y -> span_digits (x +:+ y) = (x, y).
Proof.
  intros Hx Hy. induction x as [| c x IH].
  - rewrite append_nil. destruct y as [| c y]; [reflexivity |]. simpl in *. now rewrite Hy.
  - rewrite append_cons. simpl in *. apply andb_true_iff in Hx as [Hc Hx].
    unfold is_digit in Hc. destruct (digit_of c); [| discriminate]. now rewrite IH.
Qed.

Lemma span_digits_all (x : string) : all_digits x = true -> span_digits x = (x, "").
Proof.
  intros Hx. rewrite <- (append_empty x) at 1. now apply span_digits_app.
Qed.

Lemma split_sign_digit (c : ascii) (r : string) :
  is_digit c = true -> split_sign (String c r) = (false, String c r).
Proof.
  unfold is_digit, digit_of.
  destruct c as [[] [] [] [] [] [] [] []]; vm_compute; intros H; try discriminate; auto.
Qed.

Lemma exponent_text_read (n : Z) : exponent_part (exponent_text n) = Some n.
Proof.
  unfold exponent_text, exponent_part. change (Ascii.eqb "e" "e") with true. cbn [orb].
  destruct (string_of_nonneg_spec (Z.abs n) ltac:(lia)) as (_ & Hne & Hv).
  destruct (Z.ltb_spec n 0); cbn [split_sign].
  - change (split_sign (String "-" (string_of_nonneg (Z.abs n))))
      with (true, string_of_nonneg (Z.abs n)). cbn iota.
    destruct (string_of_nonneg (Z.abs n)) eqn:E; [congruence |].
    rewrite Hv. f_equal. lia.
  - change (split_sign (String "+" (string_of_nonneg (Z.abs n))))
      with (false, string_of_nonneg (Z.abs n)). cbn iota.
    destruct (string_of_nonneg (Z.abs n)) eqn:E; [congruence |].
    rewrite Hv. f_equal. lia.
Qed.

Lemma exponent_text_head (n : Z) : digit_free_head (exponent_text n).
Proof. reflexivity. Qed.

Lemma exponent_text_chars (n : Z) : number_text (exponent_text n) = true.
Proof.
  unfold exponent_text. cbn [number_text].
  destruct (string_of_nonneg_spec (Z.abs n) ltac:(lia)) as (Hd & _).
  rewrite (all_digits_number_text _ Hd). now destruct (n <? 0).
Qed.

(* A literal without a fraction: digits, then an exponent part or nothing. *)
Lemma parse_decimal_integer (neg : bool) (ip es : string) (mant ex : Z) :
  all_digits ip = true -> ip <> "" ->
  digits_from 0 ip = Some mant ->
  (es = "" \/ exists n, es = exponent_text n) -> exponent_part es = Some ex ->
  parse_decimal ((if neg then "-" else "") +:+ ip +:+ es) = Some (decimal neg mant ex).
Proof.
  intros Hd Hne Hm Hes Hex. unfold parse_decimal.
  assert (Hsign : split_sign ((if neg then "-" else "") +:+ ip +:+ es) = (neg, ip +:+ es)).
  { destruct neg; [reflexivity |]. rewrite append_nil.
    destruct ip as [| c r]; [congruence |]. rewrite append_cons.
    apply split_sign_digit. simpl in Hd. now apply andb_true_iff in Hd as [Hc _]. }
  rewrite Hsign.
  assert (Hhead : digit_free_head es).
  { destruct Hes as [-> | [n ->]]; [exact I | apply exponent_text_head]. }
  rewrite (span_digits_app ip es Hd Hhead).
  assert (Hnodot : match es with String "." r => span_digits r | _ => ("", es) end = ("", es)).
  { destruct Hes as [-> | [n ->]]; reflexivity. }
  rewrite Hnodot. rewrite append_empty.
  destruct ip as [| c r]; [congruence |].
  rewrite Hex, Hm. cbn [String.length Z.of_nat]. now rewrite Z.sub_0_r.
Qed.

(* A literal with a fraction. *)
Lemma parse_decimal_fraction (neg : bool) (ip fp es : string) (mant ex : Z) :
  all_digits ip = true -> ip <> "" -> all_digits fp = true ->
  digits_from 0 (ip +:+ fp) = Some mant ->
  (es = "" \/ exists n, es = exponent_text n) -> exponent_part es = Some ex ->
  parse_decimal ((if neg then "-" else "") +:+ ip +:+ String "." (fp +:+ es))
  = Some (decimal neg mant (ex - Z.of_nat (String.length fp))).
Proof.
  intros Hd Hne Hf Hm Hes Hex. unfold parse_decimal.
  assert (Hsign : split_sign ((if neg then "-" else "") +:+ ip +:+ String "." (fp +:+ es))
                  = (neg, ip +:+ String "." (fp +:+ es))).
  { destruct neg; [reflexivity |]. rewrite append_nil.
    destruct ip as [| c r]; [congruence |]. rewrite append_cons.
    apply split_sign_digit. simpl in Hd. now apply andb_true_iff in Hd as [Hc _]. }
  rewrite Hsign.
  rewrite (span_digits_app ip (String "." (fp +:+ es)) Hd eq_refl).
  assert (Hhead : digit_free_head es).
  { destruct Hes as [-> | [n ->]]; [exact I | apply exponent_text_head]. }
  rewrite (span_digits_app fp es Hf Hhead).
  destruct (ip +:+ fp) as [| c r] eqn:E.
  - destruct ip; [congruence | discriminate].
  - now rewrite Hex, Hm.
Qed.

Lemma decimal_shift (neg : bool) (s : Z) (j : nat) :
  decimal neg (s * 10 ^ Z.of_nat j) 0 = decimal neg s (Z.of_nat j).
Proof.
  unfold decimal.
  assert (Hpos : 0 < 10 ^ Z.of_nat j) by (apply Z.pow_pos_nonneg; lia).
  destruct (Z.eqb_spec s 0) as [-> | Hs]; [reflexivity |].
  destruct (Z.eqb_spec (s * 10 ^ Z.of_nat j) 0); [nia |].
  apply round64_Qeq. rewrite (Qpow_nonneg 10 (Z.of_nat j)) by lia.
  destruct neg; rewrite inject_Z_mult; change (Qpow 10 0) with 1%Q; ring.
Qed.

(* ---- reading what Number::toString writes ---- *)

Lemma parse_format_digits (neg : bool) (ds : string) (n s : Z) :
  all_digits ds = true -> ds <> "" -> digits_from 0 ds = Some s ->
  parse_decimal ((if neg then "-" else "") +:+ format_digits ds n)
  = Some (decimal neg s (n - Z.of_nat (String.length ds))).
Proof.
  intros Hd Hne Hs. unfold format_digits.
  set (k := Z.of_nat (String.length ds)).
  destruct ((k <=? n) && (n <=? 21)) eqn:C1.
  { (* digits, then zeros *)
    apply andb_true_iff in C1 as [C1 _]. apply Z.leb_le in C1.
    rewrite <- (append_empty (ds +:+ zeros (Z.to_nat (n - k)))).
    rewrite (parse_decimal_integer neg (ds +:+ zeros (Z.to_nat (n - k))) ""
               (s * 10 ^ Z.of_nat (Z.to_nat (n - k))) 0).
    - rewrite decimal_shift. now rewrite Z2Nat.id by lia.
    - now rewrite all_digits_app, Hd, all_digits_zeros.
    - destruct ds; [congruence | discriminate].
    - now rewrite digits_from_app, Hs, digits_from_zeros.
    - now left.
    - reflexivity. }
  destruct ((0 <? n) && (n <=? 21)) eqn:C2.
  { (* a point inside the digits *)
    apply andb_true_iff in C2 as [C2 C2']. apply Z.ltb_lt in C2. apply Z.leb_le in C2'.
    assert (Hnk : n < k).
    { destruct (Z.leb_spec k n); [| lia]. simpl in C1.
      destruct (Z.leb_spec n 21); [discriminate | lia]. }
    rewrite <- (append_empty (drop (Z.to_nat n) ds)).
    rewrite (parse_decimal_fraction neg (take (Z.to_nat n) ds) (drop (Z.to_nat n) ds) "" s 0).
    - f_equal. f_equal. rewrite length_drop. unfold k. lia.
    - now apply all_digits_take.
    - apply take_nonempty; [lia | exact Hne].
    - now apply all_digits_drop.
    - now rewrite take_drop.
    - now left.
    - reflexivity. }
  destruct ((-6 <? n) && (n <=? 0)) eqn:C3.
  { (* zero, a point, zeros, the digits *)
    apply andb_true_iff in C3 as [C3 C3']. apply Z.ltb_lt in C3. apply Z.leb_le in C3'.
    rewrite <- (append_empty (zeros (Z.to_nat (- n)) +:+ ds)).
    change (String "0" (String "." ((zeros (Z.to_nat (- n)) +:+ ds) +:+ "")))
      with ("0" +:+ String "." ((zeros (Z.to_nat (- n)) +:+ ds) +:+ "")).
    rewrite (parse_decimal_fraction neg "0" (zeros (Z.to_nat (- n)) +:+ ds) "" s 0).
    - f_equal. f_equal. rewrite length_append, length_zeros. unfold k. lia.
    - reflexivity.
    - discriminate.
    - now rewrite all_digits_app, all_digits_zeros, Hd.
    - change ("0" +:+ (zeros (Z.to_nat (- n)) +:+ ds))
        with (zeros 1 +:+ (zeros (Z.to_nat (- n)) +:+ ds)).
      now rewrite !digits_from_lead_zeros.
    - now left.
    - reflexivity. }
  (* exponent notation *)
  fold (exponent_text (n - 1)).
  destruct ds as [| a [| b r]]; [congruence | |].
  - rewrite (parse_decimal_integer neg (String a "") (exponent_text (n - 1)) s (n - 1)).
    + reflexivity.
    + exact Hd.
    + discriminate.
    + exact Hs.
    + right. eauto.
    + apply exponent_text_read.
  - change (String a (String "." (String b r +:+ exponent_text (n - 1))))
      with (String a "" +:+ String "." (String b r +:+ exponent_text (n - 1))).
    rewrite (parse_decimal_fraction neg (String a "") (String b r) (exponent_text (n - 1))
               s (n - 1)).
    + f_equal. f_equal. unfold k. cbn [String.length]. lia.
    + simpl in *. apply andb_true_iff in Hd as [Ha _]. now rewrite Ha.
    + discriminate.
    + simpl in *. apply andb_true_iff in Hd as [_ Hb]. exact Hb.
    + exact Hs.
    + right. eauto.
    + apply exponent_text_read.
Qed.

Lemma format_digits_chars (ds : string) (n : Z) :
  all_digits ds = true -> number_text (format_digits ds n) = true.
Proof.
  intros Hd. pose proof (all_digits_number_text ds Hd) as Ht.
  unfold format_digits.
  destruct ((Z.of_nat (String.length ds) <=? n) && (n <=? 21)).
  { rewrite number_text_app, Ht. simpl.
    apply all_digits_number_text, all_digits_zeros. }
  destruct ((0 <? n) && (n <=? 21)).
  { rewrite number_text_app. cbn [number_text].
    rewrite (all_digits_number_text _ (all_digits_take _ _ Hd)).
    rewrite (all_digits_number_text _ (all_digits_drop _ _ Hd)). reflexivity. }
  destruct ((-6 <? n) && (n <=? 0)).
  { cbn [number_text]. rewrite number_text_app, Ht.
    rewrite (all_digits_number_text _ (all_digits_zeros _)). reflexivity. }
  fold (exponent_text (n - 1)).
  destruct ds as [| a [| b r]].
  - rewrite append_nil. apply exponent_text_chars.
  - rewrite number_text_app, Ht. apply exponent_text_chars.
  - change (number_text (String a (String "." (String b r +:+ exponent_text (n - 1)))))
      with (number_char a && number_text (String b r +:+ exponent_text (n - 1))).
    change (number_text (String a (String b r)))
      with (number_char a && number_text (String b r)) in Ht.
    apply andb_true_iff in Ht as [Ha Hr].
    now rewrite Ha, number_text_app, Hr, exponent_text_chars.
Qed.

(* ---- trimming ---- *)

Lemma trim_left_no_ws (s : string) : no_ws s = true -> trim_left s = s.
Proof.
  destruct s; simpl; [reflexivity |]. intros Hs.
  apply andb_true_iff in Hs as [Hs _]. apply negb_true_iff in Hs. now rewrite Hs.
Qed.

Lemma rev_string_no_ws (s acc : string) :
  no_ws s = true -> no_ws acc = true -> no_ws (rev_string s acc) = true.
Proof.
  revert acc. induction s as [| a s IH]; simpl; intros acc Hs Ha; [exact Ha |].
  apply andb_true_iff in Hs as [H1 H2]. apply IH; [exact H2 |]. simpl. now rewrite H1.
Qed.

Lemma rev_string_rev (s acc acc' : string) :
  rev_string (rev_string s acc) acc' = rev_string acc (s +:+ acc').
Proof.
  revert acc acc'. induction s as [| a s IH]; simpl; intros acc acc'; [reflexivity |].
  now rewrite IH.
Qed.

Lemma trim_no_ws (s : string) : no_ws s = true -> trim s = s.
Proof.
  intros Hs. unfold trim. rewrite (trim_left_no_ws s Hs).
  rewrite trim_left_no_ws by (apply rev_string_no_ws; auto).
  rewrite rev_string_rev. simpl. apply append_empty.
Qed.

(* ---- the text of a number reads back as the number ---- *)

Lemma Number_of_parsed (t : string) (x : jsnum) :
  no_ws t = true -> parse_decimal t = Some x -> Number_of_string t = x.
Proof.
  intros Hw Hp. unfold Number_of_string. rewrite (trim_no_ws t Hw).
  destruct t; [discriminate |]. now rewrite Hp.
Qed.

(* Number(String(x)) is x for every double but -0, whose text is 0. *)
Lemma Number_of_toString (x : jsnum) :
  valid x = true ->
  Number_of_string (toString_num x) = match x with Zero _ => Zero false | _ => x end.
Proof.
  intros Hv. destruct x as [| [] | s | neg m e]; try reflexivity.
  unfold toString_num.
  assert (Hv' : valid (Fin false m e) = true) by exact Hv.
  pose proof (shortest_digits_sound m e Hv') as S.
  destruct (shortest_digits m e) as [s k]. destruct S as [Hs Hd].
  destruct (string_of_nonneg_spec s ltac:(lia)) as (Hdig & Hne & Hval).
  set (ds := string_of_nonneg s) in *.
  pose proof (parse_format_digits neg ds (k + Z.of_nat (String.length ds)) s Hdig Hne Hval)
    as P.
  replace (k + Z.of_nat (String.length ds) - Z.of_nat (String.length ds)) with k in P by lia.
  pose proof (format_digits_chars ds (k + Z.of_nat (String.length ds)) Hdig) as Hc.
  destruct neg.
  - change ("-" +:+ format_digits ds (k + Z.of_nat (String.length ds)))
      with (String "-" (format_digits ds (k + Z.of_nat (String.length ds)))) in P.
    apply Number_of_parsed.
    + apply number_text_clean. cbn [number_text]. now rewrite Hc.
    + rewrite P. f_equal. rewrite decimal_neg by exact Hs. now rewrite Hd.
  - rewrite append_nil in P. apply Number_of_parsed.
    + now apply number_text_clean.
    + rewrite P. f_equal. exact Hd.
Qed.

(* The text of a number holds no underscore. *)
Lemma toString_num_clean (x : jsnum) : occurs "_" (toString_num x) = false.
Proof.
  destruct x as [| [] | s | neg m e]; try reflexivity.
  unfold toString_num. destruct (shortest_digits m e) as [s k].
  assert (Hdig : all_digits (string_of_nonneg s) = true).
  { destruct s; try reflexivity. apply string_of_uint_digits. }
  pose proof (format_digits_chars (string_of_nonneg s)
                (k + Z.of_nat (String.length (string_of_nonneg s))) Hdig) as Hc.
  destruct neg.
  - apply number_text_clean. cbn [number_text]. now rewrite Hc.
  - now apply number_text_clean.
Qed.

(* Two doubles with the same text are the same, up to the sign of zero. *)
Lemma toString_num_inj (x y : jsnum) :
  valid x = true -> valid y = true -> truthy_num x = true -> truthy_num y = true ->
  toString_num x = toString_num y -> x = y.
Proof.
  intros Hx Hy Tx Ty E.
  pose proof (Number_of_toString x Hx) as Rx. pose proof (Number_of_toString y Hy) as Ry.
  rewrite E in Rx. rewrite Rx in Ry.
  destruct x, y; try discriminate; congruence.
Qed.

Example cacheKey_default :
  cacheKey (page_of None) (keywordStr_of None) = "products_page_1_keyword_".
Proof. vm_compute. reflexivity. Qed.

Example cacheKey_shirt :
  cacheKey (page_of (Some (QStr " 12 "))) (keywordStr_of (Some (QStr "shirt")))
  = "products_page_12_keyword_shirt".
Proof. vm_compute. reflexivity. Qed.

(* The page of a pageNumber text, as the key shows it. *)
Example page_of_examples :
  map (fun q => toString_num (page_of (QStr <$> q)))
    [None; Some ""; Some "0"; Some "-0"; Some "abc"; Some "3"; Some "-2"; Some "+7";
     Some "-"; Some "5.0"; Some "1e3"; Some "0x10"; Some "1.5"; Some "2.0";
     Some "Infinity"; Some "1e21"; Some "9007199254740993"; Some ".5"; Some "1_0"]
  = ["1"; "1"; "1"; "1"; "1"; "3"; "-2"; "7";
     "1"; "5"; "1000"; "16"; "1.5"; "2";
     "Infinity"; "1e+21"; "9007199254740992"; "0.5"; "1"].
Proof. vm_compute. reflexivity. Qed.

(* A parameter given several times is an array: its number is read through
   its text, and so is its keyword text. *)
Example page_of_arrays :
  map (fun v => toString_num (page_of (Some v)))
    [QArr []; QArr [QStr "4"]; QArr [QStr "4"; QStr "5"]; QObj [("a", QStr "4")]]
  = ["1"; "4"; "1"; "1"]
  /\ keywordStr_of (Some (QArr [QStr "a"; QStr "b"])) = "a,b"
  /\ keywordStr_of (Some (QArr [])) = ""
  /\ keywordStr_of (Some (QObj [])) = "[object Object]".
Proof. vm_compute. auto. Qed.

(* ---- Numbers that the controller computes are doubles ------------------ *)

Lemma decimal_valid (neg : bool) (mant d : Z) : valid (decimal neg mant d) = true.
Proof.
  unfold decimal. destruct (mant =? 0); [reflexivity | apply round64_valid].
Qed.

Lemma parse_decimal_valid (t : string) (n : jsnum) :
  parse_decimal t = Some n -> valid n = true.
Proof.
  unfold parse_decimal. destruct (split_sign t) as [neg u].
  destruct (span_digits u) as [ip r1].
  destruct (match r1 with String "." r => span_digits r | _ => ("", r1) end) as [fp r2].
  destruct (ip +:+ fp); [discriminate |].
  destruct (exponent_part r2); [| discriminate].
  destruct (digits_from 0 _); [| discriminate].
  intros [= <-]. apply decimal_valid.
Qed.

Lemma Number_of_string_valid (s : string) : valid (Number_of_string s) = true.
Proof.
  unfold Number_of_string. destruct (trim s) as [| a t]; [reflexivity |].
  destruct (parse_decimal (String a t)) as [n |] eqn:P.
  - now apply parse_decimal_valid in P.
  - destruct (parse_radix (String a t)) as [n |] eqn:R.
    + unfold parse_radix in R.
      repeat match type of R with
             | match ?x with _ => _ end = _ => destruct x; try discriminate
             end; injection R as <-; apply Num_valid.
    + unfold parse_infinity. destruct (split_sign (String a t)) as [neg u].
      now destruct (String.eqb u "Infinity").
Qed.

Lemma Number_valid (q : option qvalue) : valid (Number q) = true.
Proof. destruct q; [apply Number_of_string_valid | reflexivity]. Qed.

Lemma page_of_valid (q : option qvalue) : valid (page_of q) = true.
Proof.
  unfold page_of. destruct (truthy_num (Number q)); [apply Number_valid | apply Num_valid].
Qed.

Lemma page_of_truthy (q : option qvalue) : truthy_num (page_of q) = true.
Proof.
  unfold page_of. destruct (truthy_num (Number q)) eqn:E; [exact E | reflexivity].
Qed.

(* ---- Key derivation ------------------------------------------------- *)

(* Two texts without underscore, each followed by an underscore: the
   first underscore of the whole tells where the first part ends. *)
Lemma split_at_underscore (a b x y : string) :
  occurs "_" a = false -> occurs "_" b = false ->
  a +:+ String "_" x = b +:+ String "_" y -> a = b /\ x = y.
Proof.
  revert b. induction a as [| c a IH]; intros [| d b]; simpl; intros Ha Hb E.
  - injection E as E. auto.
  - injection E as E1 E2. subst d. discriminate Hb.
  - injection E as E1 E2. subst c. discriminate Ha.
  - injection E as E1 E2. subst d.
    apply orb_false_iff in Ha as [_ Ha]. apply orb_false_iff in Hb as [_ Hb].
    destruct (IH b Ha Hb E2) as [-> ->]. auto.
Qed.

Lemma cacheKey_split (p1 p2 : jsnum) (k1 k2 : string) :
  cacheKey p1 k1 = cacheKey p2 k2 -> toString_num p1 = toString_num p2 /\ k1 = k2.
Proof.
  unfold cacheKey. intros E.
  change ("products_page_" +:+ toString_num p1 +:+ "_keyword_" +:+ k1)
    with ("products_page_" +:+ (toString_num p1 +:+ String "_" ("keyword_" +:+ k1))) in E.
  change ("products_page_" +:+ toString_num p2 +:+ "_keyword_" +:+ k2)
    with ("products_page_" +:+ (toString_num p2 +:+ String "_" ("keyword_" +:+ k2))) in E.
  cbn [String.append] in E.
  change (String "p" (String "r" (String "o" (String "d" (String "u" (String "c"
            (String "t" (String "s" (String "_" (String "p" (String "a" (String "g"
            (String "e" (String "_" ?x))))))))))))))
    with ("products_page_" +:+ x) in E.
  assert (E' : toString_num p1 +:+ String "_" ("keyword_" +:+ k1)
               = toString_num p2 +:+ String "_" ("keyword_" +:+ k2)).
  { revert E. generalize (toString_num p1 +:+ String "_" ("keyword_" +:+ k1)).
    generalize (toString_num p2 +:+ String "_" ("keyword_" +:+ k2)).
    intros s1 s2 E. now injection E. }
  apply split_at_underscore in E'; auto using toString_num_clean.
  destruct E' as [Ep Ek]. split; [exact Ep |].
  revert Ek. generalize k1 k2. intros a b Ek. now injection Ek.
Qed.

(* The key tells the page, up to the sign of a zero, and the keyword
   text. *)
Lemma cacheKey_inj (p1 p2 : jsnum) (k1 k2 : string) :
  valid p1 = true -> valid p2 = true ->
  cacheKey p1 k1 = cacheKey p2 k2 -> unsigned_zero p1 = unsigned_zero p2 /\ k1 = k2.
Proof.
  intros V1 V2 E. apply cacheKey_split in E as [Ep Ek]. split; [| exact Ek].
  pose proof (Number_of_toString p1 V1) as R1.
  pose proof (Number_of_toString p2 V2) as R2.
  rewrite Ep in R1. rewrite R1 in R2. exact R2.
Qed.

(* A page is never a zero: the key tells it exactly. *)
Lemma cacheKey_inj_page (p1 p2 : jsnum) (k1 k2 : string) :
  valid p1 = true -> valid p2 = true -> truthy_num p2 = true ->
  cacheKey p1 k1 = cacheKey p2 k2 -> p1 = p2 /\ k1 = k2.
Proof.
  intros V1 V2 T2 E. apply cacheKey_inj in E as [Ep Ek]; auto. split; [| exact Ek].
  destruct p1, p2; simpl in *; try discriminate; congruence.
Qed.

Lemma cacheKey_not_top (p : jsnum) (k : string) : cacheKey p k <> top_products_key.
Proof. unfold cacheKey, top_products_key. cbn [String.append]. discriminate. Qed.

Lemma key_of_discriminates (r1 r2 : Request) :
  key_of r1 = key_of r2 <-> normalized r1 = normalized r2.
Proof.
  unfold key_of, normalized. cbn [fst snd]. split.
  - intros E. apply cacheKey_inj_page in E as [-> ->];
      auto using page_of_valid, page_of_truthy.
  - intros E. injection E as -> ->. reflexivity.
Qed.

Lemma page_of_text (x : jsnum) :
  valid x = true -> truthy_num x = true -> page_of (Some (QStr (toString_num x))) = x.
Proof.
  intros V T. unfold page_of, Number. cbn [q_toString].
  rewrite (Number_of_toString x V).
  destruct x; try discriminate; reflexivity.
Qed.


Example shirt_vs_shoe :
  key_of (request None (Some "shirt") 0 None) <> key_of (request None (Some "shoe") 0 None).
Proof. vm_compute. discriminate. Qed.


(* Pages 1 and 1.5 have their own keys; 2 and 2.0 are the same page. *)
Example fractional_pages :
  key_of (request (Some "1.5") None 0 None) = "products_page_1.5_keyword_"
  /\ key_of (request (Some "1.5") None 0 None) <> key_of (request (Some "1") None 0 None)
  /\ key_of (request (Some "2.0") None 0 None) = key_of (request (Some "2") None 0 None).
Proof. vm_compute. repeat split. discriminate. Qed.

(* ---- Configuration -------------------------------------------------- *)

Lemma pageSize_unset (e : Env) :
  e !! "PAGINATION_LIMIT" = None -> pageSize e = VNum (Num 8).
Proof. unfold pageSize. now intros ->. Qed.

Lemma pageSize_set (e : Env) (s : string) :
  e !! "PAGINATION_LIMIT" = Some s -> s <> "" -> pageSize e = VStr s.
Proof. unfold pageSize. intros -> Hs. destruct s; [congruence | reflexivity]. Qed.

(** C7, as the code has it: the page size is taken from the environment
    variable PAGINATION_LIMIT whenever it is set to a non-empty text, and is
    the built-in 8 when the variable is absent (or empty); the time-to-live
    of the cache is the built-in 300 seconds whatever the environment
    holds. *)
Theorem configuration_defaults :
  (forall e : Env, stdTTL (module_cache e) = 300)
  /\ (forall e : Env, e !! "PAGINATION_LIMIT" = None -> pageSize e = VNum (Num 8))
  /\ (forall e : Env, e !! "PAGINATION_LIMIT" = Some "" -> pageSize e = VNum (Num 8))
  /\ (forall (e : Env) (s : string),
        s <> "" -> pageSize (<["PAGINATION_LIMIT" := s]> e) = VStr s).
Proof.
  repeat split.
  - apply pageSize_unset.
  - unfold pageSize. now intros e ->.
  - intros e s Hs. apply pageSize_set; [apply lookup_insert_eq | exact Hs].
Qed.

(** C7 as stated fails: no environment gives the cache a time-to-live
    other than the one of the empty environment, so the time-to-live cannot
    be overridden through the environment. *)
Lemma ttl_not_overridable :
  ~ (exists e : Env, stdTTL (module_cache e) <> stdTTL (module_cache ∅)).
Proof. intros [e He]. apply He. reflexivity. Qed.

Example pageSize_overridden :
  pageSize {[ "PAGINATION_LIMIT" := "12" ]} = VStr "12"
  /\ ToNumber (pageSize {[ "PAGINATION_LIMIT" := "12" ]}) = Num 12
  /\ ToNumber (pageSize {[ "PAGINATION_LIMIT" := "8.0" ]}) = Num 8
  /\ pageSize ∅ = VNum (Num 8).
Proof. vm_compute. auto. Qed.

(* ---- Parameter defaults ---------------------------------------------- *)

Lemma page_of_defaulted (q : option qvalue) : defaulted_page q -> page_of q = Num 1.
Proof.
  unfold page_of. intros [-> | [-> | [s ->]]]; reflexivity.
Qed.

Lemma defaulted_page_examples :
  defaulted_page None /\ defaulted_page (Some (QStr "abc")) /\ defaulted_page (Some (QStr "0"))
  /\ defaulted_page (Some (QStr "-0.0")) /\ defaulted_page (Some (QArr []))
  /\ ~ defaulted_page (Some (QStr "2")) /\ ~ defaulted_page (Some (QStr "5.0"))
  /\ ~ defaulted_page (Some (QStr "1.5")) /\ ~ defaulted_page (Some (QStr "0x10")).
Proof.
  unfold defaulted_page.
  split; [now left |].
  split; [right; left; vm_compute; reflexivity |].
  split; [right; right; exists false; vm_compute; reflexivity |].
  split; [right; right; exists true; vm_compute; reflexivity |].
  split; [right; right; exists false; vm_compute; reflexivity |].
  repeat split; intros [E | [E | [s E]]]; vm_compute in E; discriminate.
Qed.

Section Defaults.
Context {DB : Type} `{DataAccess DB}.

(* A list read depends on its request through the normalised page, the
   normalised keyword and the filter only. *)
Lemma getProducts_ext (r1 r2 : Request) :
  page_of (query_pageNumber r1) = page_of (query_pageNumber r2) ->
  keywordStr_of (query_keyword r1) = keywordStr_of (query_keyword r2) ->
  keyword_filter (query_keyword r1) = keyword_filter (query_keyword r2) ->
  getProducts (DB := DB) r1 = getProducts r2.
Proof. unfold getProducts. intros -> -> ->. reflexivity. Qed.

(** C10: a pageNumber that is missing, not numeric or zero is read as
    page 1 and a missing keyword as the empty keyword: the key and the
    query sent to the data-access layer are those of pageNumber=1 with an
    empty keyword, and the handler is the same function of the world as for
    that explicit request. *)
Theorem getProducts_default_parameters (req : Request) :
  defaulted_page (query_pageNumber req) ->
  query_keyword req = None ->
  let explicit := with_query (Some (QStr "1")) (Some (QStr "")) req in
  page_of (query_pageNumber req) = Num 1
  /\ keywordStr_of (query_keyword req) = ""
  /\ keyword_filter (query_keyword req) = FAll
  /\ key_of req = key_of explicit
  /\ key_of req = "products_page_1_keyword_"
  /\ (forall e, list_query e req = list_query e explicit)
  /\ getProducts (DB := DB) req = getProducts explicit.
Proof.
  intros Hp Hk explicit. pose proof (page_of_defaulted _ Hp) as Ep.
  assert (Ekey : key_of req = "products_page_1_keyword_").
  { unfold key_of, normalized. cbn [fst snd]. rewrite Ep, Hk. reflexivity. }
  repeat split; try assumption.
  - now rewrite Hk.
  - now rewrite Hk.
  - unfold list_query, explicit. cbn [query_keyword query_pageNumber with_query].
    now rewrite Ep, Hk.
  - apply getProducts_ext; unfold explicit; cbn [query_keyword query_pageNumber with_query];
      rewrite ?Ep, ?Hk; reflexivity.
Qed.

(* Each default alone. *)
Lemma getProducts_default_page (req : Request) :
  defaulted_page (query_pageNumber req) ->
  getProducts (DB := DB) req
  = getProducts (with_query (Some (QStr "1")) (query_keyword req) req).
Proof.
  intros Hp. apply getProducts_ext; cbn [query_keyword query_pageNumber with_query];
    auto using page_of_defaulted.
Qed.

Lemma getProducts_default_keyword (req : Request) :
  query_keyword req = None ->
  getProducts (DB := DB) req
  = getProducts (with_query (query_pageNumber req) (Some (QStr "")) req).
Proof.
  intros Hk. apply getProducts_ext; cbn [query_keyword query_pageNumber with_query];
    rewrite ?Hk; reflexivity.
Qed.

End Defaults.

Lemma getProducts_default_parameters_witness :
  key_of (request (Some "abc") None 0 None) = "products_page_1_keyword_"
  /\ getProducts (DB := MemDB) (request (Some "abc") None 0 None)
     = getProducts (with_query (Some (QStr "1")) (Some (QStr ""))
                      (request (Some "abc") None 0 None)).
Proof.
  assert (Hp : defaulted_page (query_pageNumber (request (Some "abc") None 0 None)))
    by (right; left; vm_compute; reflexivity).
  pose proof (getProducts_default_parameters (DB := MemDB)
                (request (Some "abc") None 0 None) Hp eq_refl) as P.
  cbv zeta in P. destruct P as (_ & _ & _ & _ & Hk & _ & Hg).
  split; [exact Hk | exact Hg].
Defined.

(* Texts that JavaScript reads as numbers are not defaulted: they have
   their own page, key and query. *)
Example numeric_texts_keep_their_page :
  map (fun s => (key_of (request (Some s) None 0 None),
                 toString_num <$> q_skip (list_query ∅ (request (Some s) None 0 None))))
    ["5.0"; "1e3"; "0x10"; "1.5"]
  = [("products_page_5_keyword_", Some "32");
     ("products_page_1000_keyword_", Some "7992");
     ("products_page_16_keyword_", Some "120");
     ("products_page_1.5_keyword_", Some "4")].
Proof. vm_compute. reflexivity. Qed.

(* ---- Values and the heap --------------------------------------------- *)

(* Induction on values, through the lists they nest in. *)
Lemma jsval_nested_ind (P : jsval -> Prop) :
  P VUndefined -> P VNull -> (forall b, P (VBool b)) ->
  (forall n, P (VNum n)) -> (forall s, P (VStr s)) ->
  (forall items, Forall P items -> P (VArr items)) ->
  (forall members, Forall (fun m => P (snd m)) members -> P (VObj members)) ->
  (forall p, P (VData p)) -> (forall l, P (VDoc l)) ->
  forall v, P v.
Proof.
  intros Hu Hn Hb Hnum Hs Ha Ho Hd Hl.
  fix IH 1.
  intros [| | b | n | s | items | members | p | l];
    [exact Hu | exact Hn | apply Hb | apply Hnum | apply Hs | | | apply Hd | apply Hl].
  - apply Ha. induction items as [| x xs IHxs]; constructor; [apply IH | exact IHxs].
  - apply Ho. induction members as [| m ms IHms]; constructor; [apply IH | exact IHms].
Qed.

(* The round trip severs every reference to a live document. *)
Lemma JSON_roundtrip_plain (h : Heap) (v : jsval) : plain (JSON_roundtrip h v) = true.
Proof.
  induction v as [| | b | n | s | items IH | members IH | p | l] using jsval_nested_ind.
  - reflexivity.
  - reflexivity.
  - reflexivity.
  - now destruct n.
  - reflexivity.
  - simpl. induction IH as [| x xs Hx _ IHxs]; simpl; [reflexivity |].
    rewrite IHxs, andb_true_r. now destruct (is_undefined x).
  - simpl. induction IH as [| m ms Hm _ IHms]; simpl; [reflexivity |].
    destruct (is_undefined (snd m)); simpl; [exact IHms |].
    now rewrite Hm, IHms.
  - reflexivity.
  - simpl. now destruct (h !! l).
Qed.

(* A normal value is its own round trip, whatever the heap. *)
Lemma JSON_roundtrip_normal (h : Heap) (v : jsval) :
  normal v = true -> JSON_roundtrip h v = v.
Proof.
  induction v as [| | b | n | s | items IH | members IH | p | l] using jsval_nested_ind.
  - reflexivity.
  - reflexivity.
  - reflexivity.
  - destruct n as [| sg | [|] | sg m e]; simpl; try discriminate; reflexivity.
  - reflexivity.
  - simpl. intros Hn. f_equal.
    induction IH as [| x xs Hx _ IHxs]; simpl in *; [reflexivity |].
    apply andb_true_iff in Hn as [Hnx Hnxs].
    rewrite (IHxs Hnxs), (Hx Hnx).
    destruct x; simpl in *; try reflexivity; discriminate.
  - simpl. intros Hn. f_equal.
    induction IH as [| [k x] ms Hm _ IHms]; simpl in *; [reflexivity |].
    apply andb_true_iff in Hn as [Hnx Hnms].
    rewrite (IHms Hnms), (Hm Hnx).
    destruct x; simpl in *; try reflexivity; discriminate.
  - reflexivity.
  - discriminate.
Qed.

Lemma normal_plain (v : jsval) : normal v = true -> plain v = true.
Proof.
  intros Hn. rewrite <- (JSON_roundtrip_normal [] v Hn). apply JSON_roundtrip_plain.
Qed.

Lemma json_num_normal (n : jsnum) : normal (json_num n) = true.
Proof. now destruct n. Qed.

Lemma list_payload_normal (ps : list Product) (page pages : jsnum) :
  normal (list_payload ps page pages) = true.
Proof.
  unfold list_payload. cbn [normal forallb snd].
  rewrite !json_num_normal. cbn [andb]. rewrite andb_true_r.
  induction ps; simpl; auto.
Qed.

(* What a plain value reads as does not depend on the heap. *)
Lemma JSON_roundtrip_heap (h h' : Heap) (v : jsval) :
  plain v = true -> JSON_roundtrip h v = JSON_roundtrip h' v.
Proof.
  induction v as [| | b | n | s | items IH | members IH | p | l] using jsval_nested_ind;
    try reflexivity.
  - simpl. intros Hp. f_equal.
    induction IH as [| x xs Hx _ IHxs]; simpl in *; [reflexivity |].
    apply andb_true_iff in Hp as [Hpx Hpxs]. now rewrite Hx, IHxs.
  - simpl. intros Hp. f_equal.
    induction IH as [| x xs Hx _ IHxs]; simpl in *; [reflexivity |].
    apply andb_true_iff in Hp as [Hpx Hpxs]. now rewrite Hx, IHxs.
  - discriminate.
Qed.

(* The copy of a plain value is the value; every copy is plain. *)
Lemma materialize_plain (h : Heap) (v : jsval) : plain v = true -> materialize h v = v.
Proof.
  induction v as [| | b | n | s | items IH | members IH | p | l] using jsval_nested_ind;
    try reflexivity.
  - simpl. intros Hp. f_equal.
    induction IH as [| x xs Hx _ IHxs]; simpl in *; [reflexivity |].
    apply andb_true_iff in Hp as [Hpx Hpxs]. now rewrite Hx, IHxs.
  - simpl. intros Hp. f_equal.
    induction IH as [| [k x] xs Hx _ IHxs]; simpl in *; [reflexivity |].
    apply andb_true_iff in Hp as [Hpx Hpxs]. now rewrite Hx, IHxs.
  - discriminate.
Qed.

Lemma materialize_is_plain (h : Heap) (v : jsval) : plain (materialize h v) = true.
Proof.
  induction v as [| | b | n | s | items IH | members IH | p | l] using jsval_nested_ind;
    try reflexivity.
  - simpl. induction IH as [| x xs Hx _ IHxs]; simpl in *; [reflexivity |].
    now rewrite Hx, IHxs.
  - simpl. induction IH as [| x xs Hx _ IHxs]; simpl in *; [reflexivity |].
    now rewrite Hx, IHxs.
  - simpl. now destruct (h !! l).
Qed.

Lemma alloc_all_spec (ps : list Product) (h : Heap) :
  alloc_all ps h = (seq (List.length h) (List.length ps), h ++ ps).
Proof.
  revert h. induction ps as [| p ps IH]; intros h; simpl.
  - now rewrite app_nil_r.
  - rewrite IH. rewrite length_app; simpl. rewrite Nat.add_1_r.
    now rewrite <- app_assoc.
Qed.

Lemma lookup_allocated (ps : list Product) (h : Heap) :
  map (fun l => (h ++ ps) !! l) (seq (List.length h) (List.length ps)) = map Some ps.
Proof.
  revert h. induction ps as [| p ps IH]; intros h; simpl; [reflexivity |].
  f_equal.
  - rewrite lookup_app_r by lia. now rewrite Nat.sub_diag.
  - specialize (IH (h ++ [p])). rewrite length_app in IH; simpl in IH.
    rewrite Nat.add_1_r, <- app_assoc in IH. exact IH.
Qed.

Lemma roundtrip_docs (h : Heap) (ls : list loc) (ps : list Product) :
  map (fun l => h !! l) ls = map Some ps ->
  map (fun x => if is_undefined x then VNull else JSON_roundtrip h x) (map VDoc ls)
  = map VData ps.
Proof.
  revert ps. induction ls as [| l ls IH]; intros [| p ps] L; simpl in *;
    try discriminate; [reflexivity |].
  injection L as L1 L2. rewrite L1. f_equal. now apply IH.
Qed.

Lemma materialize_docs (h : Heap) (ls : list loc) (ps : list Product) :
  map (fun l => h !! l) ls = map Some ps ->
  map (materialize h) (map VDoc ls) = map VData ps.
Proof.
  revert ps. induction ls as [| l ls IH]; intros [| p ps] L; simpl in *;
    try discriminate; [reflexivity |].
  injection L as L1 L2. rewrite L1. f_equal. now apply IH.
Qed.

(* Serialising freshly hydrated documents gives their data. *)
Lemma roundtrip_hydrated (ps : list Product) (h : Heap) :
  JSON_roundtrip (h ++ ps) (VArr (map VDoc (seq (List.length h) (List.length ps))))
  = VArr (map VData ps).
Proof.
  simpl. f_equal. apply roundtrip_docs, lookup_allocated.
Qed.

(* So does copying them. *)
Lemma materialize_hydrated (ps : list Product) (h : Heap) :
  materialize (h ++ ps) (VArr (map VDoc (seq (List.length h) (List.length ps))))
  = VArr (map VData ps).
Proof.
  simpl. f_equal. apply materialize_docs, lookup_allocated.
Qed.

Lemma roundtrip_responseData (ps : list Product) (h : Heap) (page n : jsnum) :
  JSON_roundtrip (h ++ ps)
    (VObj [("products", VArr (map VDoc (seq (List.length h) (List.length ps))));
           ("page", VNum page);
           ("pages", VNum n)])
  = list_payload ps page n.
Proof.
  pose proof (roundtrip_hydrated ps h) as R. simpl in R. injection R as R.
  unfold list_payload. simpl. rewrite R. reflexivity.
Qed.

(* ---- What each cached read does --------------------------------------- *)

Section Reads.
Context {DB : Type} `{DataAccess DB}.

(* A hit: the stored value is sent, nothing else happens. *)
Lemma getProducts_hit (req : Request) (w : World DB) :
  cache_has (clock w) (key_of req) (cache w) = true ->
  serve GET_products req w =
  (Ok tt,
   mkRes 200 (<["X-Cache" := "HIT"]> ∅)
     (Some (JSON_roundtrip (heap w)
              (default VUndefined (cache_get (clock w) (key_of req) (cache w))))),
   mkWorld (env w) (db w) (heap w) (cache w) (clock w)
     (log w ++ [CacheHas (key_of req); CacheGet (key_of req); Send 200])).
Proof.
  intros Hhit. unfold_handlers. red_world.
  change (cacheKey (page_of (query_pageNumber req)) (keywordStr_of (query_keyword req)))
    with (key_of req).
  rewrite Hhit. red_world. unfold emit. red_world. now rewrite <- !app_assoc.
Qed.

(* A miss answered by the data-access layer: the payload is built from
   the count and the documents found, stored under the key, and sent. *)
Lemma getProducts_miss (req : Request) (w : World DB) (count : Z) (ps : list Product) :
  cache_has (clock w) (key_of req) (cache w) = false ->
  countDocuments (keyword_filter (query_keyword req)) (db w) = inr count ->
  find (list_query (env w) req) (db w) = inr ps ->
  let payload :=
    list_payload ps (page_of (query_pageNumber req)) (pages_for (env w) count) in
  serve GET_products req w =
  (Ok tt,
   mkRes 200 (<["X-Cache" := "MISS"]> ∅) (Some payload),
   mkWorld (env w) (db w) (heap w ++ ps)
     (cache_set (clock w) (key_of req) payload (cache w)) (clock w)
     (log w ++ [CacheHas (key_of req); DbQuery; DbQuery; CacheSet (key_of req); Send 200])).
Proof.
  intros Hmiss Hcount Hfind payload. unfold_handlers. red_world.
  change (cacheKey (page_of (query_pageNumber req)) (keywordStr_of (query_keyword req)))
    with (key_of req).
  rewrite Hmiss. red_world. rewrite Hcount. red_world.
  unfold list_query, pageSize in Hfind. rewrite Hfind. red_world.
  rewrite alloc_all_spec. red_world.
  rewrite roundtrip_responseData.
  fold (pageSize (env w)). fold (pages_for (env w) count). fold payload.
  rewrite (materialize_plain _ payload) by apply normal_plain, list_payload_normal.
  rewrite (JSON_roundtrip_normal _ payload) by apply list_payload_normal.
  unfold emit, set_cache, set_heap. cbn -[payload].
  now rewrite <- !app_assoc.
Qed.

Lemma getTopProducts_hit (req : Request) (w : World DB) :
  cache_has (clock w) top_products_key (cache w) = true ->
  serve GET_products_top req w =
  (Ok tt,
   mkRes 200 (<["X-Cache" := "HIT"]> ∅)
     (Some (JSON_roundtrip (heap w)
              (default VUndefined (cache_get (clock w) top_products_key (cache w))))),
   mkWorld (env w) (db w) (heap w) (cache w) (clock w)
     (log w ++ [CacheHas top_products_key; CacheGet top_products_key; Send 200])).
Proof.
  intros Hhit. unfold_handlers. red_world. rewrite Hhit. red_world.
  unfold emit. red_world. now rewrite <- !app_assoc.
Qed.

(* A miss of the top-rated read: the handler hands the array of the live
   documents to the store, which keeps the data they hold at that moment. *)
Lemma getTopProducts_miss (req : Request) (w : World DB) (ps : list Product) :
  cache_has (clock w) top_products_key (cache w) = false ->
  find top_query (db w) = inr ps ->
  serve GET_products_top req w =
  (Ok tt,
   mkRes 200 (<["X-Cache" := "MISS"]> ∅) (Some (VArr (map VData ps))),
   mkWorld (env w) (db w) (heap w ++ ps)
     (cache_set (clock w) top_products_key (VArr (map VData ps)) (cache w)) (clock w)
     (log w ++ [CacheHas top_products_key; DbQuery; CacheSet top_products_key; Send 200])).
Proof.
  intros Hmiss Hfind. unfold_handlers. red_world.
  rewrite Hmiss. red_world. unfold top_query in Hfind. rewrite Hfind. red_world.
  rewrite alloc_all_spec. red_world. rewrite roundtrip_hydrated, materialize_hydrated.
  unfold emit, set_cache, set_heap. red_world. now rewrite <- !app_assoc.
Qed.

End Reads.

(* ---- What no request changes ------------------------------------------ *)

Section Frames.
Context {DB : Type} `{DataAccess DB}.

Lemma serve_frame (r : Route) (req : Request) (w : World DB) :
  env (after (serve r req w)) = env w
  /\ clock (after (serve r req w)) = clock w
  /\ stdTTL (cache (after (serve r req w))) = stdTTL (cache w).
Proof.
  destruct r; unfold after; unfold_handlers; red_world; cases; auto.
Qed.

(* The four things a request can do to the cache. *)
Lemma serve_cache_cases (r : Route) (req : Request) (w : World DB) :
  let w' := after (serve r req w) in
  cache w' = cache w
  \/ (is_mutation r = true /\ is_ok (outcome_of (serve r req w)) = true /\
      cache w' = cache_flushAll (cache w))
  \/ (exists ps count, r = GET_products /\
        cache_has (clock w) (key_of req) (cache w) = false /\
        countDocuments (keyword_filter (query_keyword req)) (db w) = inr count /\
        find (list_query (env w) req) (db w) = inr ps /\
        cache w' = cache_set (clock w) (key_of req)
                     (list_payload ps (page_of (query_pageNumber req))
                        (pages_for (env w) count))
                     (cache w))
  \/ (exists ps, r = GET_products_top /\
        cache_has (clock w) top_products_key (cache w) = false /\
        find top_query (db w) = inr ps /\
        heap w' = heap w ++ ps /\
        cache w' = cache_set (clock w) top_products_key (VArr (map VData ps)) (cache w)).
Proof.
  destruct r; unfold after, outcome_of; unfold_handlers; red_world; cases; auto.
  - rewrite alloc_all_spec in *. simplify_eq.
    rewrite roundtrip_responseData.
    rewrite materialize_plain by apply normal_plain, list_payload_normal.
    right; right; left. eexists; eexists; repeat split; first [eassumption | reflexivity].
  - rewrite alloc_all_spec in *. simplify_eq. rewrite materialize_hydrated.
    right; right; right; eexists; repeat split; first [eassumption | reflexivity].
Qed.

(* A request only adds documents to the heap: the documents that were
   there stay as they are. *)
Lemma insert_fresh (h : Heap) (x p : Product) :
  <[List.length h := x]> (h ++ [p]) = h ++ [x].
Proof.
  rewrite insert_app_r_alt by lia. now rewrite Nat.sub_diag.
Qed.

Lemma heap_extends (r : Route) (req : Request) (w : World DB) :
  exists ext, heap (after (serve r req w)) = heap w ++ ext.
Proof.
  destruct r; unfold after; unfold_handlers; red_world; cases.
  all: rewrite ?alloc_all_spec in *; simplify_eq; red_world.
  all: rewrite ?insert_fresh.
  all: first [ exists []; symmetry; apply app_nil_r | eexists; reflexivity ].
Qed.

(* A request that fails wrote nothing to the cache. *)
Lemma failure_frame (r : Route) (req : Request) (w w' : World DB) (res : Res) (e : Error) :
  serve r req w = (Throw e, res, w') ->
  cache w' = cache w
  /\ exists evs, log w' = log w ++ evs
                 /\ forallb (fun ev => negb (is_cache_write ev)) evs = true.
Proof.
  destruct r; unfold_handlers; red_world; intros E; cases;
    (split; [reflexivity | new_events]).
Qed.

(** C9: the single-product read never touches the cache: found or not,
    failing or not, it leaves the store as it was and none of the events it
    adds is a call of has, get, set or flushAll. *)
Theorem getProductById_no_cache (req : Request) (w : World DB) :
  cache (after (serve GET_products_id req w)) = cache w
  /\ exists evs, log (after (serve GET_products_id req w)) = log w ++ evs
                 /\ forallb (fun ev => negb (is_cache_event ev)) evs = true.
Proof.
  unfold after; unfold_handlers; red_world; cases;
    (split; [reflexivity | new_events]).
Qed.

End Frames.

(* ---- The worlds a process reaches -------------------------------------- *)

Section Invariant.
Context {DB : Type} `{DataAccess DB}.

Lemma boot_ok (e : Env) (d : DB) (t : Z) : world_ok (boot e d t).
Proof.
  split; [reflexivity |]. intros p kw c _ L. simpl in L.
  rewrite lookup_empty in L. discriminate.
Qed.

Lemma advance_ok (d : Z) (w : World DB) : 0 <= d -> world_ok w -> world_ok (advance d w).
Proof.
  intros Hd [Httl Hent]. split; [exact Httl |].
  intros p kw c V L. simpl in L. destruct (Hent p kw c V L) as (Hv & Ht & Hs).
  split; [exact Hv | split; [exact Ht | simpl; lia]].
Qed.

Lemma serve_ok (r : Route) (req : Request) (w : World DB) :
  world_ok w -> world_ok (after (serve r req w)).
Proof.
  intros [Httl Hent].
  destruct (serve_frame r req w) as (Eenv & Eclock & Estd).
  split; [congruence |].
  intros p kw c V L. rewrite Eenv, Eclock.
  destruct (serve_cache_cases r req w)
    as [E | [(_ & _ & E) | [(ps & n & _ & _ & Hn & _ & E) | (ps & _ & _ & _ & _ & E)]]];
    rewrite E in L; simpl in L.
  - now apply (Hent p kw).
  - rewrite lookup_empty in L. discriminate.
  - destruct (decide (key_of req = cacheKey p kw)) as [Ek | Ek].
    + rewrite Ek, lookup_insert_eq in L. injection L as <-.
      symmetry in Ek. unfold key_of, normalized in Ek. cbn [fst snd] in Ek.
      apply cacheKey_inj_page in Ek as [Ep _];
        [| exact V | apply page_of_valid | apply page_of_truthy].
      subst p.
      split; [| split; [exact Httl | simpl; lia]].
      exists ps, n. split; [now apply count_range in Hn | reflexivity].
    + rewrite lookup_insert_ne in L by exact Ek. now apply (Hent p kw).
  - rewrite lookup_insert_ne in L.
    + now apply (Hent p kw).
    + intros Ek. symmetry in Ek. now apply cacheKey_not_top in Ek.
Qed.

Lemma reachable_ok (w : World DB) : reachable w -> world_ok w.
Proof.
  induction 1 as [e d t | r req w _ IH | d w Hd _ IH | d w _ IH].
  - apply boot_ok.
  - now apply serve_ok.
  - now apply advance_ok.
  - exact IH.
Qed.

Lemma boot_snapshots (e : Env) (d : DB) (t : Z) : snapshots_ok (boot e d t).
Proof. intros k c L. simpl in L. rewrite lookup_empty in L. discriminate. Qed.

Lemma serve_snapshots (r : Route) (req : Request) (w : World DB) :
  snapshots_ok w -> snapshots_ok (after (serve r req w)).
Proof.
  intros Hr k c L.
  destruct (serve_cache_cases r req w)
    as [E | [(_ & _ & E) | [(ps & n & _ & _ & _ & _ & E) | (ps & _ & _ & _ & _ & E)]]];
    rewrite E in L; simpl in L.
  - now apply (Hr k).
  - rewrite lookup_empty in L. discriminate.
  - destruct (decide (key_of req = k)) as [Ek | Ek].
    + rewrite Ek, lookup_insert_eq in L. injection L as <-. cbn [value].
      apply normal_plain, list_payload_normal.
    + rewrite lookup_insert_ne in L by exact Ek. now apply (Hr k).
  - destruct (decide (top_products_key = k)) as [Ek | Ek].
    + rewrite Ek, lookup_insert_eq in L. injection L as <-. cbn [value].
      rewrite <- (materialize_hydrated ps []). apply materialize_is_plain.
    + rewrite lookup_insert_ne in L by exact Ek. now apply (Hr k).
Qed.

Lemma reachable_snapshots (w : World DB) : reachable w -> snapshots_ok w.
Proof.
  induction 1 as [e d t | r req w _ IH | d w Hd _ IH | d w _ IH].
  - apply boot_snapshots.
  - now apply serve_snapshots.
  - exact IH.
  - exact IH.
Qed.

(* In a reachable world a list key holds a list payload for its page. *)
Lemma cached_list_value (req : Request) (w : World DB) (now : Z) (v : jsval) :
  world_ok w ->
  cache_get now (key_of req) (cache w) = Some v ->
  exists ps count,
    0 <= count < 2 ^ 53
    /\ v = list_payload ps (page_of (query_pageNumber req)) (pages_for (env w) count).
Proof.
  intros [_ Hent] G. unfold cache_get in G.
  destruct (data (cache w) !! key_of req) as [c |] eqn:L; [| discriminate].
  destruct (live now c); [| discriminate]. injection G as <-.
  apply (Hent _ _ c (page_of_valid _) L).
Qed.

End Invariant.

(* ---- The store ---------------------------------------------------------- *)

Lemma cache_has_iff (now : Z) (key : string) (c : CacheStore) :
  cache_has now key c = true <->
  exists e, data c !! key = Some e /\ now < storedAt e + ttl e.
Proof.
  unfold cache_has, live. destruct (data c !! key) as [e |]; split.
  - intros L. exists e. split; [reflexivity | lia].
  - intros (e' & [= <-] & L). lia.
  - discriminate.
  - intros (e' & [=] & _).
Qed.

Lemma cache_get_has (now : Z) (key : string) (c : CacheStore) :
  cache_has now key c = true <-> exists v, cache_get now key c = Some v.
Proof.
  unfold cache_has, cache_get. destruct (data c !! key) as [e |].
  - destruct (live now e); split; eauto; try discriminate. intros [v [=]].
  - split; [discriminate | intros [v [=]]].
Qed.

Lemma cache_get_lookup (now : Z) (key : string) (c : CacheStore) (v : jsval) :
  cache_get now key c = Some v ->
  exists e, data c !! key = Some e /\ value e = v.
Proof.
  unfold cache_get. destruct (data c !! key) as [e |]; [| discriminate].
  destruct (live now e); [| discriminate]. intros [= <-]. eauto.
Qed.

Lemma cache_set_lookup (now : Z) (key : string) (v : jsval) (c : CacheStore) :
  data (cache_set now key v c) !! key = Some (mkEntry v now (stdTTL c)).
Proof. simpl. apply lookup_insert_eq. Qed.

Lemma cache_flushAll_has (now : Z) (key : string) (c : CacheStore) :
  cache_has now key (cache_flushAll c) = false.
Proof. unfold cache_has. simpl. now rewrite lookup_empty. Qed.

(* ---- Reads between mutations -------------------------------------------- *)

Section Quiet.
Context {DB : Type} `{DataAccess DB}.

Lemma X_Cache_getProducts (req : Request) (w : World DB) :
  X_Cache (res_of (serve GET_products req w))
  = Some (if cache_has (clock w) (key_of req) (cache w) then "HIT" else "MISS").
Proof.
  unfold X_Cache, res_of, key_of, normalized. unfold_handlers. red_world. cases;
    apply lookup_insert_eq.
Qed.

Lemma X_Cache_getTopProducts (req : Request) (w : World DB) :
  X_Cache (res_of (serve GET_products_top req w))
  = Some (if cache_has (clock w) top_products_key (cache w) then "HIT" else "MISS").
Proof.
  unfold X_Cache, res_of. unfold_handlers. red_world. cases; apply lookup_insert_eq.
Qed.

(* A list read that misses succeeds exactly when both of its queries are
   answered. *)
Lemma getProducts_miss_answered (req : Request) (w : World DB) :
  cache_has (clock w) (key_of req) (cache w) = false ->
  is_ok (outcome_of (serve GET_products req w)) = true ->
  exists count ps,
    countDocuments (keyword_filter (query_keyword req)) (db w) = inr count
    /\ find (list_query (env w) req) (db w) = inr ps.
Proof.
  unfold outcome_of, key_of, normalized, list_query, pageSize.
  unfold_handlers. red_world. intros Hmiss. rewrite Hmiss. red_world.
  intros Hok. cases; eauto.
Qed.

Lemma getTopProducts_miss_answered (req : Request) (w : World DB) :
  cache_has (clock w) top_products_key (cache w) = false ->
  is_ok (outcome_of (serve GET_products_top req w)) = true ->
  exists ps, find top_query (db w) = inr ps.
Proof.
  unfold outcome_of, top_query. unfold_handlers. red_world.
  intros Hmiss. rewrite Hmiss. red_world. intros Hok. cases; eauto.
Qed.

Lemma quiet_step_clock (s : Step) (w : World DB) :
  quiet s w = true -> clock w <= clock (step s w).
Proof.
  destruct s as [r req | d]; simpl; intros Hq.
  - destruct (serve_frame r req w) as (_ & -> & _). lia.
  - apply Z.leb_le in Hq. lia.
Qed.

(* A quiet step leaves in place every entry that is live after it. *)
Lemma quiet_step_entry (s : Step) (w : World DB) (k : string) (c : CacheEntry) :
  quiet s w = true ->
  data (cache w) !! k = Some c ->
  clock (step s w) < storedAt c + ttl c ->
  data (cache (step s w)) !! k = Some c.
Proof.
  destruct s as [r req | d]; simpl; intros Hq L Hlive; [| exact L].
  destruct (serve_frame r req w) as (_ & Eclock & _). rewrite Eclock in Hlive.
  assert (Hhas : cache_has (clock w) k (cache w) = true).
  { apply cache_has_iff. eauto. }
  destruct (serve_cache_cases r req w)
    as [E | [(Hm & Hok & _) | [(ps & n & _ & Hmiss & _ & _ & E)
                              | (ps & _ & Hmiss & _ & _ & E)]]].
  - now rewrite E.
  - unfold is_mutation in Hm. apply negb_true_iff in Hm.
    rewrite Hm, Hok in Hq. discriminate.
  - rewrite E. simpl. rewrite lookup_insert_ne; [exact L |].
    intros Ek. subst k. congruence.
  - rewrite E. simpl. rewrite lookup_insert_ne; [exact L |].
    intros Ek. subst k. congruence.
Qed.

Lemma quiet_steps_clock (l : list Step) (w : World DB) :
  all_quiet l w = true -> clock w <= clock (steps l w).
Proof.
  unfold steps. revert w. induction l as [| s l IH]; intros w; simpl; [lia |].
  intros Hq. apply andb_true_iff in Hq as [Hs Hl].
  pose proof (quiet_step_clock s w Hs). specialize (IH _ Hl). lia.
Qed.

Lemma quiet_steps_entry (l : list Step) (w : World DB) (k : string) (c : CacheEntry) :
  all_quiet l w = true ->
  data (cache w) !! k = Some c ->
  clock (steps l w) < storedAt c + ttl c ->
  data (cache (steps l w)) !! k = Some c.
Proof.
  unfold steps. revert w. induction l as [| s l IH]; intros w; simpl; [auto |].
  intros Hq L Hlive. apply andb_true_iff in Hq as [Hs Hl].
  apply IH; [exact Hl | | exact Hlive].
  apply quiet_step_entry; [exact Hs | exact L |].
  pose proof (quiet_steps_clock l _ Hl) as Hc. unfold steps in Hc. lia.
Qed.

End Quiet.

(* ---- Hits ---------------------------------------------------------------- *)

Section Hits.
Context {DB : Type} `{DataAccess DB}.

(** C5: a list read that misses and is answered is tagged MISS; a second
    read with the same normalised (page, keyword), served after any run of
    waits, reads and failed mutations and before the time-to-live of the
    entry has elapsed, is tagged HIT and carries the same body. *)
Theorem hit_determinism (req req' : Request) (w : World DB) (between : list Step) :
  cache_has (clock w) (key_of req) (cache w) = false ->
  is_ok (outcome_of (serve GET_products req w)) = true ->
  normalized req' = normalized req ->
  all_quiet between (after (serve GET_products req w)) = true ->
  clock (steps between (after (serve GET_products req w))) < clock w + stdTTL (cache w) ->
  let first := serve GET_products req w in
  let second := serve GET_products req' (steps between (after first)) in
  X_Cache (res_of first) = Some "MISS"
  /\ X_Cache (res_of second) = Some "HIT"
  /\ outcome_of second = Ok tt
  /\ body (res_of second) = body (res_of first)
  /\ exists payload, body (res_of first) = Some payload.
Proof.
  intros Hmiss Hok Hnorm Hquiet Hlive first second.
  destruct (getProducts_miss_answered req w Hmiss Hok) as (count & ps & Hc & Hf).
  pose proof (getProducts_miss req w count ps Hmiss Hc Hf) as E. cbv zeta in E.
  set (payload := list_payload ps (page_of (query_pageNumber req))
                    (pages_for (env w) count)) in *.
  assert (Ek : key_of req' = key_of req) by (unfold key_of; now rewrite Hnorm).
  set (w2 := steps between (after first)).
  assert (L : data (cache w2) !! key_of req
              = Some (mkEntry payload (clock w) (stdTTL (cache w)))).
  { apply quiet_steps_entry; [exact Hquiet | | exact Hlive].
    unfold first. rewrite E. apply cache_set_lookup. }
  assert (Hhit : cache_has (clock w2) (key_of req') (cache w2) = true).
  { rewrite Ek. apply cache_has_iff. eexists. split; [exact L | exact Hlive]. }
  assert (Hget : cache_get (clock w2) (key_of req') (cache w2) = Some payload).
  { rewrite Ek. unfold cache_get. rewrite L. unfold live. simpl.
    destruct (Z.ltb_spec (clock w2) (clock w + stdTTL (cache w))); [reflexivity | ].
    unfold w2, first in *. lia. }
  pose proof (getProducts_hit req' w2 Hhit) as E2. rewrite Hget in E2.
  change (default VUndefined (Some payload)) with payload in E2.
  rewrite (JSON_roundtrip_normal _ payload) in E2 by apply list_payload_normal.
  unfold second. fold w2. rewrite E2. unfold first. rewrite E. simpl.
  repeat split; try reflexivity; try apply lookup_insert_eq; eauto.
Qed.

End Hits.

Lemma hit_determinism_witness :
  X_Cache (res_of (serve GET_products list_all w0)) = Some "MISS"
  /\ X_Cache (res_of (serve GET_products (request (Some "1.0") (Some "") 5 (Some ann))
                        (steps meantime w1))) = Some "HIT"
  /\ body (res_of (serve GET_products (request (Some "1.0") (Some "") 5 (Some ann))
                     (steps meantime w1)))
     = body (res_of (serve GET_products list_all w0)).
Proof.
  pose proof (hit_determinism (DB := MemDB) list_all
                (request (Some "1.0") (Some "") 5 (Some ann)) w0 meantime) as P.
  assert (H1 : cache_has (clock w0) (key_of list_all) (cache w0) = false)
    by (vm_compute; reflexivity).
  assert (H2 : is_ok (outcome_of (serve GET_products list_all w0)) = true)
    by (vm_compute; reflexivity).
  assert (H3 : normalized (request (Some "1.0") (Some "") 5 (Some ann)) = normalized list_all)
    by (vm_compute; reflexivity).
  assert (H4 : all_quiet meantime (after (serve GET_products list_all w0)) = true)
    by (vm_compute; reflexivity).
  assert (H5 : clock (steps meantime (after (serve GET_products list_all w0)))
               < clock w0 + stdTTL (cache w0))
    by (vm_compute; reflexivity).
  destruct (P H1 H2 H3 H4 H5) as (Q1 & Q2 & _ & Q4 & _).
  repeat split; assumption.
Defined.

(* Page texts that JavaScript reads as the same number are the same page:
   2, 2.0, 2e0 and 0x2 share an entry; 2 and 2.5 do not. *)
Example same_number_same_entry :
  map (fun s => normalized (request (Some s) None 0 None)) ["2.0"; "2e0"; "0x2"; " 2 "]
  = map (fun _ => normalized (request (Some "2") None 0 None)) ["2.0"; "2e0"; "0x2"; " 2 "]
  /\ normalized (request (Some "2.5") None 0 None) <> normalized (request (Some "2") None 0 None).
Proof. vm_compute. split; [reflexivity | discriminate]. Qed.

(* ---- Expiry ---------------------------------------------------------------- *)

Section Expiry.
Context {DB : Type} `{DataAccess DB}.

(* Looking an entry up changes nothing in the store. *)
Lemma lookups_keep_store (key : string) (s : World DB * Res) :
  cache (fst (snd (do_cache_has key s))) = cache (fst s)
  /\ cache (fst (snd (do_cache_get key s))) = cache (fst s).
Proof. split; reflexivity. Qed.

(** C6: an entry counts as present exactly while now < storedAt + ttl.
    Once that time has passed, has answers false and get answers absent, a
    list read for the key is a miss, and when the data-access layer answers
    the read sends the fresh payload and stores it with the current time;
    when it fails the expired entry stays as it was. *)
Theorem ttl_expiry (req : Request) (w : World DB) (c : CacheEntry) :
  data (cache w) !! key_of req = Some c ->
  storedAt c + ttl c <= clock w ->
  (forall now, cache_has now (key_of req) (cache w) = true <-> now < storedAt c + ttl c)
  /\ cache_has (clock w) (key_of req) (cache w) = false
  /\ cache_get (clock w) (key_of req) (cache w) = None
  /\ X_Cache (res_of (serve GET_products req w)) = Some "MISS"
  /\ (forall count ps,
        countDocuments (keyword_filter (query_keyword req)) (db w) = inr count ->
        find (list_query (env w) req) (db w) = inr ps ->
        let payload :=
          list_payload ps (page_of (query_pageNumber req)) (pages_for (env w) count) in
        outcome_of (serve GET_products req w) = Ok tt
        /\ body (res_of (serve GET_products req w)) = Some payload
        /\ data (cache (after (serve GET_products req w))) !! key_of req
           = Some (mkEntry payload (clock w) (stdTTL (cache w)))
        /\ log (after (serve GET_products req w))
           = log w ++ [CacheHas (key_of req); DbQuery; DbQuery;
                       CacheSet (key_of req); Send 200])
  /\ (is_ok (outcome_of (serve GET_products req w)) = false ->
      data (cache (after (serve GET_products req w))) !! key_of req = Some c).
Proof.
  intros L Hexp.
  assert (Hiff : forall now,
             cache_has now (key_of req) (cache w) = true <-> now < storedAt c + ttl c).
  { intros now. unfold cache_has, live. rewrite L. apply Z.ltb_lt. }
  assert (Hmiss : cache_has (clock w) (key_of req) (cache w) = false).
  { destruct (cache_has (clock w) (key_of req) (cache w)) eqn:E; [| reflexivity].
    apply Hiff in E. lia. }
  split; [exact Hiff |]. split; [exact Hmiss |]. split; [| split; [| split]].
  - destruct (cache_get (clock w) (key_of req) (cache w)) as [v |] eqn:G; [| reflexivity].
    assert (cache_has (clock w) (key_of req) (cache w) = true)
      by (apply cache_get_has; eauto).
    congruence.
  - rewrite X_Cache_getProducts, Hmiss. reflexivity.
  - intros count ps Hc Hf payload.
    rewrite (getProducts_miss req w count ps Hmiss Hc Hf). simpl.
    repeat split. apply lookup_insert_eq.
  - intros Hfail.
    destruct (serve GET_products req w) as [[o res] w'] eqn:E.
    destruct o as [u | e]; [discriminate |].
    apply failure_frame in E as [E' _]. unfold after. simpl. rewrite E'. exact L.
Qed.

End Expiry.

Lemma ttl_expiry_witness :
  cache_has (clock (advance 300 w1)) (key_of list_all) (cache (advance 300 w1)) = false
  /\ X_Cache (res_of (serve GET_products list_all (advance 300 w1))) = Some "MISS"
  /\ cache_has 1299 (key_of list_all) (cache (advance 300 w1)) = true.
Proof.
  assert (L : data (cache (advance 300 w1)) !! key_of list_all = Some entry0)
    by (vm_compute; reflexivity).
  assert (T : storedAt entry0 + ttl entry0 <= clock (advance 300 w1))
    by (vm_compute; discriminate).
  destruct (ttl_expiry (DB := MemDB) list_all (advance 300 w1) entry0 L T)
    as (Hiff & Hhas & _ & Hx & _).
  split; [exact Hhas | split; [exact Hx |]].
  apply Hiff. vm_compute. reflexivity.
Defined.

Example expired_read_refetches :
  outcome_of (serve GET_products list_all (advance 300 w1)) = Ok tt
  /\ (storedAt <$> data (cache (after (serve GET_products list_all (advance 300 w1))))
                     !! key_of list_all) = Some 1300
  /\ (storedAt <$> data (cache (after (serve GET_products list_all (advance 299 w1))))
                     !! key_of list_all) = Some 1000.
Proof. vm_compute. auto. Qed.

(* ---- Mutations --------------------------------------------------------------- *)

Section Mutations.
Context {DB : Type} `{DataAccess DB}.

(* A mutation that succeeds: its events, and what it leaves behind. *)
Lemma mutation_ok_shape (r : Route) (req : Request) (w w' : World DB) (res : Res) :
  is_mutation r = true ->
  serve r req w = (Ok tt, res, w') ->
  (exists pre,
      log w' = log w ++ pre ++ [DbCommit; CacheFlushAll; Send (success_status r)]
      /\ forallb is_db_read pre = true)
  /\ cache w' = cache_flushAll (cache w)
  /\ mutation_answer r req (db w) = Some (inr (db w'))
  /\ env w' = env w /\ clock w' = clock w.
Proof.
  destruct r; try discriminate; intros _; unfold mutation_answer, alreadyReviewed, reviewed,
    review_of, sample_for; unfold_handlers; red_world; intros E; cases; heap_facts.
  all: split; [repeat rewrite <- app_assoc; simpl;
               first [ exists []; split; reflexivity
                     | exists [DbQuery]; split; reflexivity ] |].
  all: split; [reflexivity |].
  all: split; [| split; reflexivity].
  all: same_branches.
  all: try reflexivity.
  all: repeat match goal with
         | Hs : _ = _ |- _ => rewrite Hs
         end; try reflexivity.
Qed.

(* Only a mutation route commits, and whenever the data-access layer has
   committed the request succeeds: no handler fails between the commit and
   the response. *)
Lemma commit_is_success (r : Route) (req : Request) (w w' : World DB) (res : Res)
    (o : outcome unit) (evs : list Event) :
  serve r req w = (o, res, w') ->
  log w' = log w ++ evs -> In DbCommit evs ->
  is_mutation r = true /\ o = Ok tt.
Proof.
  destruct r; unfold_handlers; red_world; intros E; cases.
  all: repeat rewrite <- app_assoc; simpl; intros L;
    first [ apply app_inv_head in L
          | rewrite <- (app_nil_r (log w)) in L at 1; apply app_inv_head in L
          | rewrite <- (app_nil_r (log w')) in L at 1; apply app_inv_head in L ];
    subst evs; simpl; intros HI.
  all: try (exfalso; clear - HI; intuition discriminate).
  all: try congruence.
  all: split; reflexivity.
Qed.

(* The data-access layer answers the mutation of a route: the handler
   succeeds, and the database it leaves is the one answered. *)
Lemma answered_mutation_succeeds (r : Route) (req : Request) (w : World DB) (d' : DB) :
  mutation_answer r req (db w) = Some (inr d') ->
  is_mutation r = true
  /\ outcome_of (serve r req w) = Ok tt
  /\ db (after (serve r req w)) = d'
  /\ statusCode (res_of (serve r req w)) = success_status r.
Proof.
  destruct r; try discriminate; unfold mutation_answer, alreadyReviewed, reviewed,
    review_of, sample_for; intros Ha; cases;
    unfold after, outcome_of, res_of; unfold_handlers; red_world.
  all: repeat (match goal with
               | Hs : ?x = _ |- context [match ?x with _ => _ end] => rewrite Hs
               end; settle).
  all: repeat split.
Qed.

(* The data-access layer refuses the mutation of a route: the handler
   fails with that error, and the database and the cache stay as they
   were. *)
Lemma refused_mutation_fails (r : Route) (req : Request) (w : World DB) (e : Error) :
  mutation_answer r req (db w) = Some (inl e) ->
  outcome_of (serve r req w) = Throw e
  /\ db (after (serve r req w)) = db w
  /\ cache (after (serve r req w)) = cache w.
Proof.
  destruct r; try discriminate; unfold mutation_answer, alreadyReviewed, reviewed,
    review_of, sample_for; intros Ha; cases;
    unfold after, outcome_of, res_of; unfold_handlers; red_world.
  all: repeat (match goal with
               | Hs : ?x = _ |- context [match ?x with _ => _ end] => rewrite Hs
               end; settle).
  all: repeat split.
Qed.

(* A mutation that succeeds flushes after its commit, and the reads served
   afterwards are misses answered from the database it left. *)
Lemma successful_mutation_flushes (r : Route) (req : Request) (w : World DB) :
  is_mutation r = true ->
  is_ok (outcome_of (serve r req w)) = true ->
  let w' := after (serve r req w) in
  (exists pre,
      log w' = log w ++ pre ++ [DbCommit; CacheFlushAll; Send (success_status r)]
      /\ forallb is_db_read pre = true)
  /\ data (cache w') = ∅
  /\ mutation_answer r req (db w) = Some (inr (db w'))
  /\ (forall rq d,
        X_Cache (res_of (serve GET_products rq (advance d w'))) = Some "MISS"
        /\ X_Cache (res_of (serve GET_products_top rq (advance d w'))) = Some "MISS")
  /\ (forall rq d count ps,
        countDocuments (keyword_filter (query_keyword rq)) (db w') = inr count ->
        find (list_query (env w') rq) (db w') = inr ps ->
        body (res_of (serve GET_products rq (advance d w')))
        = Some (list_payload ps (page_of (query_pageNumber rq)) (pages_for (env w') count)))
  /\ (forall rq d ps,
        find top_query (db w') = inr ps ->
        body (res_of (serve GET_products_top rq (advance d w')))
        = Some (VArr (map VData ps))).
Proof.
  intros Hm Hok w'. subst w'.
  destruct (serve r req w) as [[o res] w'] eqn:E. unfold after, outcome_of in *.
  simpl in *. destruct o as [[] | e]; [| discriminate].
  destruct (mutation_ok_shape r req w w' res Hm E) as (Hlog & Hc & Hdb & _ & _).
  assert (Hmiss : forall now key, cache_has now key (cache w') = false).
  { intros now key. rewrite Hc. apply cache_flushAll_has. }
  split; [exact Hlog |]. split; [now rewrite Hc |]. split; [exact Hdb |].
  split; [| split].
  - intros rq d. rewrite X_Cache_getProducts, X_Cache_getTopProducts.
    simpl. now rewrite !Hmiss.
  - intros rq d count ps Hcount Hfind.
    rewrite (getProducts_miss rq (advance d w') count ps); auto.
  - intros rq d ps Hfind.
    rewrite (getTopProducts_miss rq (advance d w') ps); auto.
Qed.

(** C1: whenever the data-access layer answers the mutation of one of
    the four mutating routes (the save of createProduct, updateProduct and
    createProductReview, the deleteOne of deleteProduct) with success, the
    handler succeeds with the status of the route, the database is the one
    the mutation left, and the events the handler adds are data-access reads,
    then the commit, then flushAll, then the response, in this order.  The
    cache is empty afterwards, so any list or top-rated read served later is
    a miss, and its body is built from what the data-access layer answers on
    the database the mutation left. *)
Theorem mutation_flushes_after_commit (r : Route) (req : Request) (w : World DB) (d' : DB) :
  mutation_answer r req (db w) = Some (inr d') ->
  let w' := after (serve r req w) in
  is_mutation r = true
  /\ outcome_of (serve r req w) = Ok tt
  /\ statusCode (res_of (serve r req w)) = success_status r
  /\ db w' = d'
  /\ (exists pre,
        log w' = log w ++ pre ++ [DbCommit; CacheFlushAll; Send (success_status r)]
        /\ forallb is_db_read pre = true)
  /\ data (cache w') = ∅
  /\ (forall rq d,
        X_Cache (res_of (serve GET_products rq (advance d w'))) = Some "MISS"
        /\ X_Cache (res_of (serve GET_products_top rq (advance d w'))) = Some "MISS")
  /\ (forall rq d count ps,
        countDocuments (keyword_filter (query_keyword rq)) d' = inr count ->
        find (list_query (env w) rq) d' = inr ps ->
        body (res_of (serve GET_products rq (advance d w')))
        = Some (list_payload ps (page_of (query_pageNumber rq)) (pages_for (env w) count)))
  /\ (forall rq d ps,
        find top_query d' = inr ps ->
        body (res_of (serve GET_products_top rq (advance d w')))
        = Some (VArr (map VData ps))).
Proof.
  intros Ha w'. subst w'.
  destruct (answered_mutation_succeeds r req w d' Ha) as (Hm & Ho & Hd & Hst).
  assert (Hok : is_ok (outcome_of (serve r req w)) = true) by now rewrite Ho.
  destruct (successful_mutation_flushes r req w Hm Hok)
    as (Hlog & Hempty & _ & Hx & Hlist & Htop).
  destruct (serve_frame r req w) as (Eenv & _ & _).
  rewrite Hd, Eenv in Hlist. rewrite Hd in Htop.
  repeat split; try assumption; apply Hx.
Qed.

(* Conversely, a mutating route succeeds only when the data-access layer
   has answered its mutation with success. *)
Lemma success_is_answered_mutation (r : Route) (req : Request) (w : World DB) :
  is_mutation r = true ->
  is_ok (outcome_of (serve r req w)) = true ->
  mutation_answer r req (db w) = Some (inr (db (after (serve r req w)))).
Proof.
  intros Hm Hok. now destruct (successful_mutation_flushes r req w Hm Hok) as (_ & _ & Ha & _).
Qed.

(** C3: a request that fails, whichever the route and the reason
    (product absent, product already reviewed, data-access error, no
    user), leaves the cache exactly as it was and calls neither set nor
    flushAll.  A list read that was cached before is still a hit afterwards
    and carries the value cached before the attempt, and a cached
    top-rated read gets the very response it would have got without the
    attempt. *)
Theorem failed_request_leaves_cache (r : Route) (req : Request) (w : World DB) :
  reachable w ->
  is_ok (outcome_of (serve r req w)) = false ->
  let w' := after (serve r req w) in
  cache w' = cache w
  /\ (exists evs, log w' = log w ++ evs
                  /\ forallb (fun ev => negb (is_cache_write ev)) evs = true)
  /\ (forall rq d v,
        cache_get (clock w + d) (key_of rq) (cache w) = Some v ->
        X_Cache (res_of (serve GET_products rq (advance d w'))) = Some "HIT"
        /\ body (res_of (serve GET_products rq (advance d w'))) = Some v)
  /\ (forall rq d,
        cache_has (clock w + d) top_products_key (cache w) = true ->
        X_Cache (res_of (serve GET_products_top rq (advance d w'))) = Some "HIT"
        /\ res_of (serve GET_products_top rq (advance d w'))
           = res_of (serve GET_products_top rq (advance d w))).
Proof.
  intros Hreach Hfail w'. subst w'.
  pose proof (reachable_ok w Hreach) as Hinv.
  pose proof (reachable_snapshots w Hreach) as Hsnap.
  destruct (serve_frame r req w) as (_ & Eclock & _).
  destruct (serve r req w) as [[o res] w'] eqn:E. unfold after, outcome_of in *.
  simpl in *. destruct o as [u | e]; [discriminate |].
  destruct (failure_frame r req w w' res e E) as (Ec & Hlog).
  split; [exact Ec |]. split; [exact Hlog |]. split.
  - intros rq d v G.
    assert (Hhit : cache_has (clock (advance d w')) (key_of rq) (cache (advance d w')) = true).
    { simpl. rewrite Ec, Eclock. apply cache_get_has. eauto. }
    rewrite (getProducts_hit rq (advance d w') Hhit). simpl.
    rewrite Ec, Eclock, G. simpl.
    destruct (cached_list_value rq w _ v Hinv G) as (ps & n & _ & ->).
    split; [apply lookup_insert_eq |].
    now rewrite JSON_roundtrip_normal by apply list_payload_normal.
  - intros rq d Hhit.
    split; [rewrite X_Cache_getTopProducts; simpl; now rewrite Ec, Eclock, Hhit |].
    assert (Hhit' : cache_has (clock (advance d w')) top_products_key
                      (cache (advance d w')) = true).
    { simpl. now rewrite Ec, Eclock. }
    rewrite (getTopProducts_hit rq (advance d w') Hhit').
    rewrite (getTopProducts_hit rq (advance d w) Hhit).
    unfold res_of. cbn [fst snd advance set_clock heap cache clock].
    rewrite Ec, Eclock.
    apply cache_get_has in Hhit as [v G]. rewrite G.
    apply cache_get_lookup in G as (c & L & <-).
    change (default VUndefined (Some ?x)) with x.
    now rewrite (JSON_roundtrip_heap (heap w') (heap w) _ (Hsnap _ _ L)).
Qed.

End Mutations.

Lemma mutation_flushes_after_commit_witness :
  outcome_of (serve POST_products create_request w1) = Ok tt
  /\ data (cache (after (serve POST_products create_request w1))) = ∅
  /\ X_Cache (res_of (serve GET_products list_all
                        (advance 0 (after (serve POST_products create_request w1)))))
     = Some "MISS".
Proof.
  assert (H1 : mutation_answer POST_products create_request (db w1)
               = Some (inr (mkMemDB [shirt; shoe; sample] true)))
    by (vm_compute; reflexivity).
  destruct (mutation_flushes_after_commit (DB := MemDB) POST_products create_request w1
              (mkMemDB [shirt; shoe; sample] true) H1)
    as (_ & Ho & _ & _ & _ & Hempty & Hx & _).
  destruct (Hx list_all 0) as [Hy _].
  split; [exact Ho | split; [exact Hempty | exact Hy]].
Defined.

Lemma w1_reachable : reachable w1.
Proof. apply reach_serve, reach_boot. Qed.

Lemma failed_request_leaves_cache_witness :
  cache (after (serve PUT_products_id update_absent w1)) = cache w1
  /\ X_Cache (res_of (serve GET_products list_all
                        (advance 10 (after (serve PUT_products_id update_absent w1)))))
     = Some "HIT".
Proof.
  assert (H2 : is_ok (outcome_of (serve PUT_products_id update_absent w1)) = false)
    by (vm_compute; reflexivity).
  destruct (failed_request_leaves_cache (DB := MemDB) PUT_products_id update_absent w1
              w1_reachable H2)
    as (Hc & _ & Hhit & _).
  assert (G : cache_get (clock w1 + 10) (key_of list_all) (cache w1) = Some (value entry0))
    by (vm_compute; reflexivity).
  destruct (Hhit list_all 10 (value entry0) G) as [Hy _].
  split; [exact Hc | exact Hy].
Defined.

(* The mutation each route performs on the catalogue of [w0], and the
   requests for which it performs none. *)
Example mutation_answers :
  mutation_answer PUT_products_id update_shirt (db w0)
  = Some (inr (mkMemDB [assign_body update_shirt shirt; shoe] true))
  /\ mutation_answer DELETE_products_id delete_shoe (db w0) = Some (inr (mkMemDB [shirt] true))
  /\ mutation_answer POST_products_id_reviews review_shoe (db w0)
     = Some (inr (mkMemDB [shirt; reviewed review_shoe admin shoe] true))
  /\ mutation_answer PUT_products_id update_absent (db w0) = None
  /\ mutation_answer POST_products_id_reviews review_shirt_again (db w0) = None
  /\ mutation_answer POST_products list_all (db w0) = None
  /\ mutation_answer POST_products create_request (db w0_down) = Some (inl offline_error).
Proof. vm_compute. repeat split. Qed.

(* The three kinds of failure, and the body of a list read before and
   after a product is created. *)
Example update_of_absent_product :
  outcome_of (serve PUT_products_id update_absent w1) = Throw (mkError "Product not found")
  /\ statusCode (res_of (serve PUT_products_id update_absent w1)) = 404.
Proof. vm_compute. auto. Qed.

Example second_review_by_same_user :
  outcome_of (serve POST_products_id_reviews (request None None 1 (Some ann)) w1)
  = Throw (mkError "Product already reviewed")
  /\ statusCode (res_of (serve POST_products_id_reviews (request None None 1 (Some ann)) w1))
     = 400.
Proof. vm_compute. auto. Qed.

Example read_with_database_down :
  outcome_of (serve GET_products list_all w0_down) = Throw offline_error
  /\ data (cache (after (serve GET_products list_all w0_down))) = ∅.
Proof. vm_compute. auto. Qed.

Example created_product_is_listed :
  (member "products" <$> body (res_of (serve GET_products list_all w1)))
  = Some (Some (VArr [VData shirt; VData shoe]))
  /\ (member "products" <$>
        body (res_of (serve GET_products list_all
                       (after (serve POST_products create_request w1)))))
     = Some (Some (VArr [VData shirt; VData shoe; VData sample])).
Proof. vm_compute. auto. Qed.

(* ---- The body of a list response ------------------------------------------------ *)

(* Math.ceil(count / size) for a positive size is the least number of
   pages of that size that hold count documents. *)
Lemma Math_ceil_div_spec (count size : Z) :
  0 <= count < 2 ^ 53 -> 0 < size -> is_finite (Num size) = true ->
  exists n, Math_ceil_div (Num count) (Num size) = Num n
            /\ 0 <= n < 2 ^ 53
            /\ (n - 1) * size < count <= n * size.
Proof.
  intros Hc Hs Hfin. unfold Math_ceil_div. now apply Math_ceil_div_finite.
Qed.

(* A whole number that a double holds exactly is written as itself. *)
Lemma json_num_Num (z : Z) : 0 <= z < 2 ^ 53 -> json_num (Num z) = VNum (Num z).
Proof.
  intros Hz. destruct (Z.eq_dec z 0) as [-> | Hnz]; [reflexivity |].
  destruct (Num_pos_exact z ltac:(lia)) as (m & e & -> & _). reflexivity.
Qed.

Lemma data_array_normal (ps : list Product) : normal (VArr (map VData ps)) = true.
Proof.
  cbn [normal]. induction ps as [| p ps IH]; [reflexivity | exact IH].
Qed.

Section ListBody.
Context {DB : Type} `{DataAccess DB}.

(** C8, as the code has it: in every world the process reaches, with a
    page size that is a positive whole number (and not so large that it is
    read as Infinity), the body of a list read that succeeds is an object
    with the members products (the data of the documents), page (the
    normalised page, as JSON writes it) and pages, where pages is the count
    of matching documents divided by the page size and rounded up; the
    response carries the header X-Cache, set to HIT or to MISS.  On a miss
    the count and the documents are the ones the data-access layer has just
    answered. *)
Theorem list_response_shape (req : Request) (w : World DB) (size : Z) :
  reachable w ->
  ToNumber (pageSize (env w)) = Num size ->
  0 < size ->
  is_finite (Num size) = true ->
  is_ok (outcome_of (serve GET_products req w)) = true ->
  exists ps count pages,
    body (res_of (serve GET_products req w))
    = Some (VObj [("products", VArr (map VData ps));
                  ("page", json_num (page_of (query_pageNumber req)));
                  ("pages", VNum (Num pages))])
    /\ (pages - 1) * size < count <= pages * size
    /\ (X_Cache (res_of (serve GET_products req w)) = Some "HIT"
        \/ X_Cache (res_of (serve GET_products req w)) = Some "MISS")
    /\ (cache_has (clock w) (key_of req) (cache w) = false ->
        countDocuments (keyword_filter (query_keyword req)) (db w) = inr count
        /\ find (list_query (env w) req) (db w) = inr ps).
Proof.
  intros Hreach Hsize Hpos Hfin Hok.
  pose proof (reachable_ok w Hreach) as Hinv.
  assert (Hpages : forall count, 0 <= count < 2 ^ 53 -> exists n,
             json_num (pages_for (env w) count) = VNum (Num n)
             /\ (n - 1) * size < count <= n * size).
  { intros count Hc. unfold pages_for. rewrite Hsize.
    destruct (Math_ceil_div_spec count size Hc Hpos Hfin) as (n & -> & Hn & Hb).
    exists n. split; [now apply json_num_Num | exact Hb]. }
  rewrite X_Cache_getProducts.
  destruct (cache_has (clock w) (key_of req) (cache w)) eqn:Hhas.
  - pose proof Hhas as Hget. apply cache_get_has in Hget as [v G].
    destruct (cached_list_value req w _ v Hinv G) as (ps & count & Hc & ->).
    destruct (Hpages count Hc) as (n & En & Hn).
    exists ps, count, n.
    pose proof (getProducts_hit req w Hhas) as E. rewrite G in E.
    change (default VUndefined (Some ?x)) with x in E.
    rewrite JSON_roundtrip_normal in E by apply list_payload_normal.
    rewrite E. unfold res_of. cbn [fst snd body].
    unfold list_payload. rewrite En.
    repeat split; auto; try lia; discriminate.
  - destruct (getProducts_miss_answered req w Hhas Hok) as (count & ps & Hc & Hf).
    destruct (Hpages count (count_range _ _ _ Hc)) as (n & En & Hn).
    exists ps, count, n. rewrite (getProducts_miss req w count ps Hhas Hc Hf).
    unfold res_of. cbn [fst snd body].
    unfold list_payload. rewrite En.
    repeat split; auto; lia.
Qed.

End ListBody.

Lemma list_response_shape_witness :
  exists ps count pages,
    body (res_of (serve GET_products list_all w1))
    = Some (VObj [("products", VArr (map VData ps));
                  ("page", VNum (Num 1));
                  ("pages", VNum (Num pages))])
    /\ (pages - 1) * 8 < count <= pages * 8.
Proof.
  assert (H2 : ToNumber (pageSize (env w1)) = Num 8) by reflexivity.
  assert (H3 : 0 < 8) by reflexivity.
  assert (H3' : is_finite (Num 8) = true) by reflexivity.
  assert (H4 : is_ok (outcome_of (serve GET_products list_all w1)) = true)
    by (vm_compute; reflexivity).
  destruct (list_response_shape (DB := MemDB) list_all w1 8 w1_reachable H2 H3 H3' H4)
    as (ps & count & pages & Hb & Hp & _).
  exists ps, count, pages. split; [exact Hb | exact Hp].
Defined.

(** C8 as stated fails: the body of a list response has no member named
    items and none named totalPages; the documents are under products and
    the number of pages under pages. *)
Lemma list_body_member_names :
  exists b,
    body (res_of (serve GET_products list_all w0)) = Some b
    /\ member "items" b = None
    /\ member "totalPages" b = None
    /\ member "products" b = Some (VArr [VData shirt; VData shoe])
    /\ member "page" b = Some (VNum (Num 1))
    /\ member "pages" b = Some (VNum (Num 1)).
Proof. eexists. vm_compute. repeat split. Qed.

(* A page size beyond 2^53: every count the data-access layer can answer
   fits one page. *)
Example pages_for_a_huge_page_size :
  map (fun count => Math_ceil_div (Num count) (Number_of_string "1e300")) [0; 1; 9007199254740991]
  = [Num 0; Num 1; Num 1].
Proof. vm_compute. reflexivity. Qed.

Example pages_round_up :
  map (fun count => Math_ceil_div (Num count) (ToNumber (pageSize ∅))) [0; 1; 8; 9; 16; 17]
  = [Num 0; Num 1; Num 1; Num 2; Num 2; Num 3].
Proof. vm_compute. reflexivity. Qed.

Example pages_with_zero_page_size :
  member "pages" <$>
    body (res_of (serve GET_products list_all
                    (boot {[ "PAGINATION_LIMIT" := "0" ]} (mkMemDB [shirt; shoe] true) 0)))
  = Some (Some VNull).
Proof. vm_compute. reflexivity. Qed.

(* ---- Snapshots --------------------------------------------------------------------- *)

Section Snapshots.
Context {DB : Type} `{DataAccess DB}.

(* What the list read hands to the store is plain data already: the
   handler has serialised it and read it back. *)
Lemma getProducts_stores_snapshot (req : Request) (w : World DB) :
  cache_has (clock w) (key_of req) (cache w) = false ->
  is_ok (outcome_of (serve GET_products req w)) = true ->
  exists c,
    data (cache (after (serve GET_products req w))) !! key_of req = Some c
    /\ plain (value c) = true
    /\ body (res_of (serve GET_products req w)) = Some (value c)
    /\ forall h : Heap, observe h (value c) = value c.
Proof.
  intros Hmiss Hok.
  destruct (getProducts_miss_answered req w Hmiss Hok) as (count & ps & Hc & Hf).
  rewrite (getProducts_miss req w count ps Hmiss Hc Hf). simpl.
  eexists. split; [apply lookup_insert_eq |]. simpl value.
  pose proof (list_payload_normal ps (page_of (query_pageNumber req))
                (pages_for (env w) count)) as Hn.
  split; [now apply normal_plain |]. split; [reflexivity |].
  intros h. now apply JSON_roundtrip_normal.
Qed.

(* The top-rated read hands the live documents to the store; what the
   store keeps is their data. *)
Lemma getTopProducts_stores_snapshot (req : Request) (w : World DB) :
  cache_has (clock w) top_products_key (cache w) = false ->
  is_ok (outcome_of (serve GET_products_top req w)) = true ->
  exists c,
    data (cache (after (serve GET_products_top req w))) !! top_products_key = Some c
    /\ plain (value c) = true
    /\ body (res_of (serve GET_products_top req w)) = Some (value c)
    /\ forall h : Heap, observe h (value c) = value c.
Proof.
  intros Hmiss Hok.
  destruct (getTopProducts_miss_answered req w Hmiss Hok) as (ps & Hf).
  rewrite (getTopProducts_miss req w ps Hmiss Hf). simpl.
  eexists. split; [apply lookup_insert_eq |]. simpl value.
  pose proof (data_array_normal ps) as Hn.
  split; [now apply normal_plain |]. split; [reflexivity |].
  intros h. now apply JSON_roundtrip_normal.
Qed.


End Snapshots.



(* The entry of the top-rated read on the catalogue of [w0], before and
   after the shirt is updated through another request: the update empties
   the cache, and the entry stored before it never changes in between. *)
Example top_entry_is_data :
  (value <$> data (cache w_top) !! top_products_key) = Some (VArr [VData shirt; VData shoe])
  /\ (value <$> data (cache (after (serve GET_products_id get_shirt w_top))) !! top_products_key)
     = Some (VArr [VData shirt; VData shoe])
  /\ data (cache (after (serve PUT_products_id update_shirt w_top))) = ∅.
Proof. vm_compute. repeat split. Qed.

(* ===================================================================== *)
(* Further properties of the handlers                                    *)
(* ===================================================================== *)

(* ---- Keys and pages --------------------------------------------------------------- *)

(* For keywords that are texts the filter is a function of the keyword
   text of the key. *)
Lemma keyword_filter_of_keywordStr (q1 q2 : option qvalue) :
  is_text q1 -> is_text q2 ->
  keywordStr_of q1 = keywordStr_of q2 -> keyword_filter q1 = keyword_filter q2.
Proof.
  destruct q1 as [[[| a1 s1] | |] |], q2 as [[[| a2 s2] | |] |]; simpl; intros T1 T2 E;
    try contradiction; try reflexivity; try discriminate. now injection E as -> ->.
Qed.

Section SameKey.
Context {DB : Type} `{DataAccess DB}.

(** X1: two list requests with the same cache key whose keywords are
    texts (or missing) send the same filter and the same query to the
    data-access layer, and are handled by the same function of the world: an
    entry is only ever shared by such requests when they ask the database the
    same thing. *)
Theorem same_key_same_query (r1 r2 : Request) :
  key_of r1 = key_of r2 ->
  is_text (query_keyword r1) -> is_text (query_keyword r2) ->
  page_of (query_pageNumber r1) = page_of (query_pageNumber r2)
  /\ keyword_filter (query_keyword r1) = keyword_filter (query_keyword r2)
  /\ (forall e, list_query e r1 = list_query e r2)
  /\ getProducts (DB := DB) r1 = getProducts r2.
Proof.
  intros E T1 T2. apply key_of_discriminates in E. injection E as Ep Ek.
  pose proof (keyword_filter_of_keywordStr _ _ T1 T2 Ek) as Ef.
  split; [exact Ep |]. split; [exact Ef |]. split.
  - intros e. unfold list_query. now rewrite Ef, Ep.
  - now apply getProducts_ext.
Qed.

(** X20: a keyword given twice in the query string arrives as an array;
    its key is built from the array's text, its filter from the array
    itself.  The request ?keyword=a&keyword=b has the key of ?keyword=a,b
    and another filter, and once the entry of the latter is cached the
    former is answered from it. *)
Theorem repeated_keyword_shares_key :
  key_of keyword_twice = key_of keyword_joined
  /\ key_of keyword_twice = "products_page_1_keyword_a,b"
  /\ keyword_filter (query_keyword keyword_twice) = FNameRegex (QArr [QStr "a"; QStr "b"]) "i"
  /\ keyword_filter (query_keyword keyword_joined) = FNameRegex (QStr "a,b") "i"
  /\ keyword_filter (query_keyword keyword_twice)
     <> keyword_filter (query_keyword keyword_joined)
  /\ (forall w : World DB,
        cache_has (clock w) (key_of keyword_joined) (cache w) = true ->
        serve GET_products keyword_twice w = serve GET_products keyword_joined w
        /\ X_Cache (res_of (serve GET_products keyword_twice w)) = Some "HIT").
Proof.
  assert (Ek : key_of keyword_twice = key_of keyword_joined) by (vm_compute; reflexivity).
  split; [exact Ek |]. split; [vm_compute; reflexivity |].
  split; [reflexivity |]. split; [reflexivity |]. split; [discriminate |].
  intros w Hhit. pose proof Hhit as Hhit'. rewrite <- Ek in Hhit'.
  split.
  - rewrite (getProducts_hit keyword_twice w Hhit'), (getProducts_hit keyword_joined w Hhit).
    now rewrite Ek.
  - rewrite X_Cache_getProducts. now rewrite Hhit'.
Qed.

End SameKey.

Lemma same_key_same_query_witness :
  list_query ∅ list_all = list_query ∅ (request (Some "1") (Some "") 5 (Some ann)).
Proof.
  assert (E : key_of list_all = key_of (request (Some "1") (Some "") 5 (Some ann)))
    by (vm_compute; reflexivity).
  destruct (same_key_same_query (DB := MemDB) list_all
              (request (Some "1") (Some "") 5 (Some ann)) E I I) as (_ & _ & Hq & _).
  exact (Hq ∅).
Defined.

(** X2: the normalised page is a number other than NaN and the zeros,
    and the page text written into a key reads back as the page: Number of
    the text of a number is that number (the zeros read back as +0), so a
    request whose pageNumber is the text of a page (negative, fractional and
    infinite ones included: the handler does not clamp) is normalised to that
    page and gets the key of that page. *)
Theorem page_text_round_trip :
  (forall q : option qvalue, truthy_num (page_of q) = true /\ valid (page_of q) = true)
  /\ (forall x : jsnum, valid x = true ->
        Number (Some (QStr (toString_num x))) = unsigned_zero x)
  /\ (forall x : jsnum, valid x = true -> truthy_num x = true ->
        page_of (Some (QStr (toString_num x))) = x)
  /\ (forall (x : jsnum) (kw : string), valid x = true -> truthy_num x = true ->
        cacheKey (page_of (Some (QStr (toString_num x)))) kw = cacheKey x kw).
Proof.
  split; [intros q; split; [apply page_of_truthy | apply page_of_valid] |].
  split.
  - intros x V. unfold Number. cbn [q_toString]. rewrite (Number_of_toString x V).
    now destruct x.
  - split; [apply page_of_text |]. intros x kw V T. now rewrite page_of_text.
Qed.

(* Whole numbers beyond 2^53 and numbers written with an exponent, as the
   key shows them. *)
Example large_pages :
  map (fun s => key_of (request (Some s) None 0 None))
    ["9007199254740993"; "1000000000000000000000"; "123456789012345680000"; "1e-7"; "-1.5"]
  = ["products_page_9007199254740992_keyword_"; "products_page_1e+21_keyword_";
     "products_page_123456789012345680000_keyword_"; "products_page_1e-7_keyword_";
     "products_page_-1.5_keyword_"].
Proof. vm_compute. reflexivity. Qed.

(* ---- What the X-Cache header tells ------------------------------------------------- *)

Section Observed.
Context {DB : Type} `{DataAccess DB}.

(** X3: the X-Cache header tells what happened.  When a response says
    HIT, the request succeeded without any call of the data-access layer and
    left the database, the heap and the cache as they were; when it says
    MISS, the data-access layer was called; a response without the header
    comes from a route other than the two cached reads. *)
Theorem X_Cache_tells (r : Route) (req : Request) (w : World DB) :
  let w' := after (serve r req w) in
  exists evs, log w' = log w ++ evs
  /\ (X_Cache (res_of (serve r req w)) = Some "HIT" ->
        forallb (fun ev => negb (is_db_event ev)) evs = true
        /\ db w' = db w /\ heap w' = heap w /\ cache w' = cache w
        /\ outcome_of (serve r req w) = Ok tt)
  /\ (X_Cache (res_of (serve r req w)) = Some "MISS" ->
        existsb is_db_event evs = true)
  /\ (X_Cache (res_of (serve r req w)) = None ->
        r <> GET_products /\ r <> GET_products_top).
Proof.
  destruct r; unfold after, res_of, outcome_of, X_Cache; unfold_handlers; red_world; cases.
  all: unfold Heap, loc in *.
  all: rewrite ?lookup_insert_eq, ?lookup_empty.
  all: (eexists; split; [log_is |]).
  all: simpl.
  all: repeat split; try discriminate; try reflexivity; try (intros _; reflexivity);
    try (intros; congruence).
Qed.

(** X4: reads and failed requests never write to the database: after a
    GET, or after any request that throws, the database is the one before
    and no commit event was added.  Each mutation writes once, as its last
    data-access call, so a failure leaves no partial write. *)
Theorem reads_and_failures_keep_database (r : Route) (req : Request) (w : World DB) :
  is_GET r = true \/ is_ok (outcome_of (serve r req w)) = false ->
  db (after (serve r req w)) = db w
  /\ exists evs, log (after (serve r req w)) = log w ++ evs
                 /\ existsb (fun ev => match ev with DbCommit => true | _ => false end) evs
                    = false.
Proof.
  destruct r; unfold after, outcome_of; unfold_handlers; red_world; cases; intros [Hg | Hf];
    try discriminate; try congruence;
    (split; [reflexivity | eexists; split; [log_is | reflexivity]]).
Qed.


(** X6: a handler responds exactly once when it succeeds and never when
    it fails.  On success the response is the last event of the run, with
    status 201 for the two POST routes and 200 for the others, and a body
    is set; on failure no response event is added and no body is set. *)
Theorem responds_once (r : Route) (req : Request) (w : World DB) :
  let o := outcome_of (serve r req w) in
  let res := res_of (serve r req w) in
  exists evs, log (after (serve r req w)) = log w ++ evs
  /\ (is_ok o = true ->
        statusCode res = success_status r /\ body res <> None
        /\ exists pre, evs = pre ++ [Send (success_status r)]
                       /\ forallb (fun ev => negb (is_send ev)) pre = true)
  /\ (is_ok o = false ->
        body res = None /\ forallb (fun ev => negb (is_send ev)) evs = true).
Proof.
  destruct r; unfold after, outcome_of, res_of; unfold_handlers; red_world; cases.
  all: (eexists; split; [log_is |]).
  all: split; intros Hx; try discriminate.
  all: repeat split; try discriminate.
  all: match goal with
       | |- exists pre, ?l = _ /\ _ => exists (removelast l); split; reflexivity
       end.
Qed.

End Observed.

Lemma reads_and_failures_keep_database_witness :
  db (after (serve PUT_products_id update_absent w1)) = db w1.
Proof.
  assert (Hf : is_GET PUT_products_id = true
               \/ is_ok (outcome_of (serve PUT_products_id update_absent w1)) = false)
    by (right; vm_compute; reflexivity).
  destruct (reads_and_failures_keep_database (DB := MemDB) PUT_products_id update_absent w1 Hf)
    as [Hd _].
  exact Hd.
Defined.


(* ---- What each single-product handler answers -------------------------------------- *)

Section Answers.
Context {DB : Type} `{DataAccess DB}.

(** X7: the single-product read answers by what findById answers: the
    data of the document with status 200 when it is found, 'Product not
    found' with status 404 when it is absent, and the error of the
    data-access layer, with the status untouched, when the call fails. *)
Theorem getProductById_answers (req : Request) (w : World DB) :
  let o := outcome_of (serve GET_products_id req w) in
  let res := res_of (serve GET_products_id req w) in
  (forall p, findById (params_id req) (db w) = inr (Some p) ->
     o = Ok tt /\ statusCode res = 200 /\ body res = Some (VData p))
  /\ (findById (params_id req) (db w) = inr None ->
     o = Throw (mkError "Product not found") /\ statusCode res = 404 /\ body res = None)
  /\ (forall e, findById (params_id req) (db w) = inl e ->
     o = Throw e /\ statusCode res = 200 /\ body res = None).
Proof.
  cbv zeta. repeat split; intros; run_with H0; answer.
Qed.

(** X8: createProduct saves the sample document, owned by the user of
    the request and carrying a fresh id.  When the save succeeds the answer
    is 201 with the document as stored and the database is the one the save
    left; when it fails the error is passed on and neither the database nor
    the cache has changed. *)
Theorem createProduct_answers (req : Request) (w : World DB) (u : User) :
  req_user req = Some u ->
  let doc := sample_for (newObjectId (db w)) u in
  let o := outcome_of (serve POST_products req w) in
  let res := res_of (serve POST_products req w) in
  let w' := after (serve POST_products req w) in
  (forall p' d', save doc (db w) = inr (p', d') ->
     o = Ok tt /\ statusCode res = 201 /\ body res = Some (VData p') /\ db w' = d')
  /\ (forall e, save doc (db w) = inl e ->
     o = Throw e /\ body res = None /\ db w' = db w /\ cache w' = cache w).
Proof.
  intros Hu. cbv zeta. unfold sample_for.
  split; intros; run_with Hu;
    match goal with Hs : save _ _ = _ |- _ => rewrite Hs end; red_world; answer.
Qed.

(** X9: updateProduct saves the document it found with the seven members
    of the request body written over it; the id, the owner, the reviews,
    the rating and the number of reviews are kept.  When the save succeeds
    the answer is 200 with the document as stored; when it fails the error
    is passed on and neither the database nor the cache has changed. *)
Theorem updateProduct_answers (req : Request) (w : World DB) (p : Product) :
  findById (params_id req) (db w) = inr (Some p) ->
  let doc := assign_body req p in
  let o := outcome_of (serve PUT_products_id req w) in
  let res := res_of (serve PUT_products_id req w) in
  let w' := after (serve PUT_products_id req w) in
  (p_id doc, p_user doc, p_numReviews doc, p_rating doc, p_reviews doc)
  = (p_id p, p_user p, p_numReviews p, p_rating p, p_reviews p)
  /\ (p_name doc, p_price doc, p_description doc, p_image doc, p_brand doc,
      p_category doc, p_countInStock doc)
     = (body_name req, body_price req, body_description req, body_image req,
        body_brand req, body_category req, body_countInStock req)
  /\ (forall p' d', save doc (db w) = inr (p', d') ->
     o = Ok tt /\ statusCode res = 200 /\ body res = Some (VData p') /\ db w' = d')
  /\ (forall e, save doc (db w) = inl e ->
     o = Throw e /\ body res = None /\ db w' = db w /\ cache w' = cache w).
Proof.
  intros Hf. cbv zeta. split; [reflexivity |]. split; [reflexivity |].
  split; intros; run_with Hf;
    match goal with Hs : save _ _ = _ |- _ => rewrite Hs end; red_world; answer.
Qed.

(** X10: deleteProduct deletes by the id of the document it found.  When
    the deletion succeeds the answer is 200 with the message 'Product
    removed' and the database is the one the deletion left; when it fails
    the error is passed on and neither the database nor the cache has
    changed. *)
Theorem deleteProduct_answers (req : Request) (w : World DB) (p : Product) :
  findById (params_id req) (db w) = inr (Some p) ->
  let o := outcome_of (serve DELETE_products_id req w) in
  let res := res_of (serve DELETE_products_id req w) in
  let w' := after (serve DELETE_products_id req w) in
  (forall d', deleteOne (p_id p) (db w) = inr d' ->
     o = Ok tt /\ statusCode res = 200
     /\ body res = Some (VObj [("message", VStr "Product removed")]) /\ db w' = d')
  /\ (forall e, deleteOne (p_id p) (db w) = inl e ->
     o = Throw e /\ body res = None /\ db w' = db w /\ cache w' = cache w).
Proof.
  intros Hf. cbv zeta.
  split; intros; run_with Hf;
    match goal with Hs : deleteOne _ _ = _ |- _ => rewrite Hs end; red_world; answer.
Qed.

(** X11: on the four routes that name a product by id, an absent product
    gives 'Product not found' with status 404 after the one findById call:
    nothing is saved or deleted, the cache is left alone and no body is
    sent. *)
Theorem absent_product_is_404 (r : Route) (req : Request) (w : World DB) :
  (r = GET_products_id \/ r = PUT_products_id \/ r = DELETE_products_id
   \/ r = POST_products_id_reviews) ->
  findById (params_id req) (db w) = inr None ->
  outcome_of (serve r req w) = Throw (mkError "Product not found")
  /\ statusCode (res_of (serve r req w)) = 404
  /\ body (res_of (serve r req w)) = None
  /\ db (after (serve r req w)) = db w
  /\ cache (after (serve r req w)) = cache w
  /\ log (after (serve r req w)) = log w ++ [DbQuery].
Proof.
  intros [-> | [-> | [-> | ->]]] Hf; run_with Hf; repeat split.
Qed.


End Answers.

Lemma createProduct_answers_witness :
  outcome_of (serve POST_products create_request w0) = Ok tt
  /\ body (res_of (serve POST_products create_request w0)) = Some (VData sample).
Proof.
  assert (Hu : req_user create_request = Some admin) by reflexivity.
  destruct (createProduct_answers (DB := MemDB) create_request w0 admin Hu) as [Hok _].
  assert (Hs : save (sample_for (newObjectId (db w0)) admin) (db w0)
               = inr (sample, mkMemDB [shirt; shoe; sample] true)) by reflexivity.
  destruct (Hok sample (mkMemDB [shirt; shoe; sample] true) Hs) as (Ho & _ & Hb & _).
  split; [exact Ho | exact Hb].
Defined.

Lemma updateProduct_answers_witness :
  outcome_of (serve PUT_products_id update_shirt w0) = Ok tt
  /\ body (res_of (serve PUT_products_id update_shirt w0))
     = Some (VData (assign_body update_shirt shirt)).
Proof.
  assert (Hf : findById (params_id update_shirt) (db w0) = inr (Some shirt)) by reflexivity.
  destruct (updateProduct_answers (DB := MemDB) update_shirt w0 shirt Hf)
    as (_ & _ & Hok & _).
  assert (Hs : save (assign_body update_shirt shirt) (db w0)
               = inr (assign_body update_shirt shirt,
                      mkMemDB [assign_body update_shirt shirt; shoe] true)) by reflexivity.
  destruct (Hok _ _ Hs) as (Ho & _ & Hb & _).
  split; [exact Ho | exact Hb].
Defined.

Lemma deleteProduct_answers_witness :
  outcome_of (serve DELETE_products_id delete_shoe w0) = Ok tt
  /\ db (after (serve DELETE_products_id delete_shoe w0)) = mkMemDB [shirt] true.
Proof.
  assert (Hf : findById (params_id delete_shoe) (db w0) = inr (Some shoe)) by reflexivity.
  destruct (deleteProduct_answers (DB := MemDB) delete_shoe w0 shoe Hf) as [Hok _].
  assert (Hd : deleteOne (p_id shoe) (db w0) = inr (mkMemDB [shirt] true)) by reflexivity.
  destruct (Hok _ Hd) as (Ho & _ & _ & Hdb).
  split; [exact Ho | exact Hdb].
Defined.

Lemma absent_product_is_404_witness :
  statusCode (res_of (serve DELETE_products_id update_absent w0)) = 404.
Proof.
  assert (Hr : DELETE_products_id = GET_products_id \/ DELETE_products_id = PUT_products_id
               \/ DELETE_products_id = DELETE_products_id
               \/ DELETE_products_id = POST_products_id_reviews)
    by (right; right; left; reflexivity).
  assert (Hf : findById (params_id update_absent) (db w0) = inr None) by reflexivity.
  destruct (absent_product_is_404 (DB := MemDB) DELETE_products_id update_absent w0 Hr Hf)
    as (_ & Hs & _).
  exact Hs.
Defined.


(* ---- The document a review leaves ---------------------------------------------------- *)

(* Adding whole numbers is exact while the sum stays below 2^53. *)
Lemma js_add_whole (a b : Z) :
  0 <= a -> 0 <= b -> a + b < 2 ^ 53 -> js_add (Num a) (Num b) = Num (a + b).
Proof.
  intros Ha Hb Hs.
  destruct (Z.eq_dec a 0) as [-> | Ha0]; destruct (Z.eq_dec b 0) as [-> | Hb0].
  - reflexivity.
  - rewrite Num_0, Z.add_0_l.
    destruct (Num_pos_exact b ltac:(lia)) as (m & e & -> & _). reflexivity.
  - rewrite Num_0, Z.add_0_r.
    destruct (Num_pos_exact a ltac:(lia)) as (m & e & -> & _). reflexivity.
  - destruct (Num_pos_exact a ltac:(lia)) as (ma & ea & Ea & _).
    destruct (Num_pos_exact b ltac:(lia)) as (mb & eb & Eb & _).
    rewrite Ea, Eb. unfold js_add. rewrite <- Ea, <- Eb.
    unfold Num at 3. apply round64_Qeq.
    rewrite (Num_value a), (Num_value b) by lia. now rewrite inject_Z_plus.
Qed.

Lemma sum_Z_nonneg (zs : list Z) : Forall (fun z => 0 <= z <= 5) zs -> 0 <= sum_Z zs.
Proof. induction 1; simpl; lia. Qed.

Lemma sum_Z_bound (zs : list Z) :
  Forall (fun z => 0 <= z <= 5) zs -> sum_Z zs <= 5 * Z.of_nat (List.length zs).
Proof. induction 1; simpl List.length; simpl sum_Z; lia. Qed.

(* The reduce of line 168 over whole ratings is their sum. *)
Lemma fold_whole_ratings (rs : list Review) (zs : list Z) (a : Z) :
  whole_ratings zs rs -> 0 <= a -> a + sum_Z zs < 2 ^ 53 ->
  fold_left (fun acc item => js_add (r_rating item) acc) rs (Num a) = Num (a + sum_Z zs).
Proof.
  revert zs a. induction rs as [| r rs IH]; intros [| z zs] a [Hm Hf] Ha Hs;
    simpl in Hm; try discriminate.
  - simpl. now rewrite Z.add_0_r.
  - injection Hm as Hr Hm. inversion Hf as [| ? ? Hz Hzs]; subst.
    pose proof (sum_Z_nonneg zs Hzs) as Hn. simpl sum_Z in Hs.
    cbn [fold_left]. rewrite Hr, js_add_whole by lia.
    rewrite (IH zs (z + a)); [| split; assumption | lia | lia].
    f_equal. simpl sum_Z. lia.
Qed.

Lemma reduce_whole_ratings (rs : list Review) (zs : list Z) :
  whole_ratings zs rs -> sum_Z zs < 2 ^ 53 -> reduce_ratings rs = Num (sum_Z zs).
Proof.
  intros Hw Hs. unfold reduce_ratings.
  now rewrite (fold_whole_ratings rs zs 0 Hw) by lia.
Qed.

(* Rounding a positive rational never gives -0. *)
Lemma round64_pos_sign (q : Q) : (0 < q)%Q -> forall s, round64 q = Zero s -> s = false.
Proof.
  intros Hq s. unfold round64.
  assert (Hr : (0 < Qred q)%Q) by now rewrite Qred_correct.
  apply Qnum_pos_iff in Hr. destruct (Qnum (Qred q)) as [| p | p]; try lia.
  unfold round_pos, finite_or_inf.
  destruct (round_half_even _) as [| n | n]; try (intros [= <-]; reflexivity).
  destruct (strip n _) as [m e]. destruct (1024 <=? _); discriminate.
Qed.

(* Dividing whole numbers gives the number nearest to the quotient. *)
Lemma js_div_whole (a b : Z) :
  0 <= a < 2 ^ 53 -> 0 < b < 2 ^ 53 ->
  js_div (Num a) (Num b) = round64 (inject_Z a / inject_Z b).
Proof.
  intros Ha Hb.
  destruct (Num_pos_exact b Hb) as (mb & eb & Eb & _).
  destruct (Z.eq_dec a 0) as [-> | Ha0].
  - rewrite Num_0, Eb. reflexivity.
  - destruct (Num_pos_exact a ltac:(lia)) as (ma & ea & Ea & _).
    assert (Hq : (num_value (Num a) / num_value (Num b) == inject_Z a / inject_Z b)%Q).
    { rewrite (Num_value a), (Num_value b) by lia. reflexivity. }
    rewrite <- (round64_Qeq _ _ Hq). rewrite Ea, Eb. unfold js_div. cbn [xorb].
    rewrite <- Ea, <- Eb.
    destruct (round64 (num_value (Num a) / num_value (Num b))) as [| | s |] eqn:E;
      try reflexivity.
    f_equal. symmetry.
    apply (round64_pos_sign (num_value (Num a) / num_value (Num b))); [| exact E].
    rewrite Hq. apply Qlt_shift_div_l.
    + unfold Qlt; simpl; lia.
    + rewrite Qmult_0_l. unfold Qlt; simpl; lia.
Qed.

(** X13: the document createProductReview saves has the new review at
    the end of its reviews and a number of reviews equal to their count; the
    reviewer now counts as having reviewed it, and the other members are
    those of the document found.  Its rating is the sum of all ratings,
    added from the first review on starting with 0, divided by their number,
    both computed on doubles; when the ratings are whole numbers from 0 to 5
    the sum is exact and the rating is the double nearest to their mean. *)
Theorem reviewed_document (req : Request) (u : User) (p : Product) :
  let q := assign_rating (assign_numReviews (push_review (review_of req u) p)) in
  p_reviews q = p_reviews p ++ [review_of req u]
  /\ r_rating (review_of req u) = ToNumber (body_rating req)
  /\ p_numReviews q = Z.of_nat (List.length (p_reviews p)) + 1
  /\ p_rating q = js_div (reduce_ratings (p_reviews q)) (Num (p_numReviews q))
  /\ (forall zs : list Z,
        whole_ratings zs (p_reviews q) ->
        Z.of_nat (List.length zs) < 2 ^ 50 ->
        reduce_ratings (p_reviews q) = Num (sum_Z zs)
        /\ p_rating q = round64 (inject_Z (sum_Z zs) / inject_Z (Z.of_nat (List.length zs))))
  /\ alreadyReviewed u q = true
  /\ (p_id q, p_name q, p_price q, p_user q, p_image q, p_brand q, p_category q,
      p_countInStock q, p_description q)
     = (p_id p, p_name p, p_price p, p_user p, p_image p, p_brand p, p_category p,
        p_countInStock p, p_description p).
Proof.
  cbv zeta. unfold assign_rating, assign_numReviews, push_review.
  cbn [p_reviews p_numReviews p_rating p_id p_name p_price p_user p_image p_brand
       p_category p_countInStock p_description].
  assert (Hlen : Z.of_nat (List.length (p_reviews p ++ [review_of req u]))
                 = Z.of_nat (List.length (p_reviews p)) + 1).
  { rewrite length_app. simpl. lia. }
  split; [reflexivity |]. split; [reflexivity |]. split; [exact Hlen |].
  split; [reflexivity |]. split; [| split; [| reflexivity]].
  - intros zs Hw Hl.
    assert (Hzl : List.length zs = List.length (p_reviews p ++ [review_of req u])).
    { destruct Hw as [Hm _]. apply (f_equal (@List.length _)) in Hm.
      rewrite !length_map in Hm. congruence. }
    pose proof (sum_Z_bound zs (proj2 Hw)) as Hb.
    pose proof (sum_Z_nonneg zs (proj2 Hw)) as Hn.
    assert (H53 : 5 * 2 ^ 50 < 2 ^ 53) by reflexivity.
    rewrite (reduce_whole_ratings _ zs Hw) by lia.
    split; [reflexivity |]. rewrite <- Hzl.
    apply js_div_whole; lia.
  - unfold alreadyReviewed. cbn [p_reviews]. rewrite existsb_app. simpl.
    rewrite Nat.eqb_refl. now rewrite orb_true_r.
Qed.

(* The ratings 5, 4, 4, 5, 4, 3, 4 have the sum 29 and the mean 29/7; the
   rating is the double nearest to it, and 7 times the rating is not 29. *)
Example mean_of_seven_ratings :
  let rs := map (fun z => mkReview "n" (Num z) "c" 0) [5; 4; 4; 5; 4; 3; 4] in
  reduce_ratings rs = Num 29
  /\ toString_num (js_div (reduce_ratings rs) (Num 7)) = "4.142857142857143"
  /\ toString_num (js_mul (js_div (reduce_ratings rs) (Num 7)) (Num 7))
     = "29.000000000000004".
Proof. vm_compute. repeat split. Qed.

(* A rating that is no number gives a rating that is none. *)
Example rating_of_a_text :
  p_rating (reviewed (with_query None None
                        (mkRequest None None 2 (Some admin) "" 0 "" "" "" "" 0
                           (VStr "good") "great")) admin shoe) = NaN.
Proof. vm_compute. reflexivity. Qed.

(* ---- The top-rated read, and entries over time --------------------------------------- *)

Section TopRead.
Context {DB : Type} `{DataAccess DB}.

(** X14: the top-rated read is deterministic on hits too.  A top-rated
    read that misses asks for all products sorted by rating, best first,
    limited to 3, and sends the data of the documents found; served again
    after any run of waits, reads and failed mutations, before the
    time-to-live has elapsed, it is tagged HIT and carries the same body. *)
Theorem top_hit_determinism (req req' : Request) (w : World DB) (between : list Step) :
  cache_has (clock w) top_products_key (cache w) = false ->
  is_ok (outcome_of (serve GET_products_top req w)) = true ->
  all_quiet between (after (serve GET_products_top req w)) = true ->
  clock (steps between (after (serve GET_products_top req w))) < clock w + stdTTL (cache w) ->
  let first := serve GET_products_top req w in
  let second := serve GET_products_top req' (steps between (after first)) in
  X_Cache (res_of first) = Some "MISS"
  /\ X_Cache (res_of second) = Some "HIT"
  /\ outcome_of second = Ok tt
  /\ body (res_of second) = body (res_of first)
  /\ exists ps, find (mkQuery FAll true (VNum (Num 3)) None) (db w) = inr ps
                /\ body (res_of first) = Some (VArr (map VData ps)).
Proof.
  intros Hmiss Hok Hquiet Hlive first second.
  destruct (getTopProducts_miss_answered req w Hmiss Hok) as (ps & Hf).
  pose proof (getTopProducts_miss req w ps Hmiss Hf) as E.
  set (v := VArr (map VData ps)) in *.
  set (wl := steps between (after first)).
  assert (L : data (cache wl) !! top_products_key
              = Some (mkEntry v (clock w) (stdTTL (cache w)))).
  { apply quiet_steps_entry; [exact Hquiet | | exact Hlive].
    unfold first. rewrite E. apply cache_set_lookup. }
  assert (Hhit : cache_has (clock wl) top_products_key (cache wl) = true).
  { apply cache_has_iff. eexists. split; [exact L | exact Hlive]. }
  assert (Hget : cache_get (clock wl) top_products_key (cache wl) = Some v).
  { unfold cache_get. rewrite L. unfold live. simpl.
    destruct (Z.ltb_spec (clock wl) (clock w + stdTTL (cache w))); [reflexivity | ].
    unfold wl, first in *. lia. }
  pose proof (getTopProducts_hit req' wl Hhit) as E2. rewrite Hget in E2.
  change (default VUndefined (Some v)) with v in E2.
  rewrite (JSON_roundtrip_normal _ v) in E2 by apply data_array_normal.
  unfold second. fold wl. rewrite E2. unfold first. rewrite E. simpl.
  repeat split; try reflexivity; try apply lookup_insert_eq; eauto.
Qed.

(** X15: waits, reads and failed mutations never remove or change a live
    entry: whatever key a value can be got from at the end of such a run,
    counting from the cache at its start, can still be got from the cache at
    its end, and the clock has not gone back. *)
Theorem live_entries_survive (l : list Step) (w : World DB) (k : string) (v : jsval) :
  all_quiet l w = true ->
  cache_get (clock (steps l w)) k (cache w) = Some v ->
  cache_get (clock (steps l w)) k (cache (steps l w)) = Some v
  /\ clock w <= clock (steps l w).
Proof.
  intros Hq G. split; [| now apply quiet_steps_clock].
  unfold cache_get in *.
  destruct (data (cache w) !! k) as [c |] eqn:L; [| discriminate].
  destruct (live (clock (steps l w)) c) eqn:Hl; [| discriminate].
  rewrite (quiet_steps_entry l w k c Hq L).
  - now rewrite Hl.
  - unfold live in Hl. now apply Z.ltb_lt in Hl.
Qed.

(** X16: in every world the process reaches, the entry under the key of
    page p holds a list payload whose page member is p, stored with the
    time-to-live 300 and not in the future, and its value is plain data: a
    key never leads to the payload of another page. *)
Theorem cached_entry_matches_key (w : World DB) (p : jsnum) (kw : string) (c : CacheEntry) :
  reachable w ->
  valid p = true ->
  data (cache w) !! cacheKey p kw = Some c ->
  (exists ps count, value c = list_payload ps p (pages_for (env w) count))
  /\ member "page" (value c) = Some (json_num p)
  /\ ttl c = 300 /\ storedAt c <= clock w
  /\ plain (value c) = true.
Proof.
  intros Hr V L. destruct (reachable_ok w Hr) as [_ Hent].
  destruct (Hent p kw c V L) as ((ps & n & _ & E) & Ht & Hs).
  split; [eauto |]. rewrite E. repeat split; auto.
  apply normal_plain, list_payload_normal.
Qed.

(** X17: a request never changes a document object that existed before
    it: handlers assign only to the documents they have loaded or created
    themselves, so every cell of the heap reads the same after any request. *)
Theorem documents_never_modified (r : Route) (req : Request) (w : World DB)
    (l : loc) (p : Product) :
  heap w !! l = Some p ->
  heap (after (serve r req w)) !! l = Some p.
Proof.
  intros L. destruct (heap_extends r req w) as [ext ->].
  unfold Heap, loc in *. now apply lookup_app_l_Some.
Qed.

(** X18: the mount point of the product routes adds the header
    Cache-Control: public, s-maxage=3600 to the response of every GET,
    successful or not, and to no other response; it changes nothing else:
    outcome, status, body, X-Cache header and the world afterwards are those
    of the handler alone. *)
Theorem http_cache_header (r : Route) (req : Request) (w : World DB) :
  outcome_of (app_products r req w) = outcome_of (serve r req w)
  /\ after (app_products r req w) = after (serve r req w)
  /\ statusCode (res_of (app_products r req w)) = statusCode (res_of (serve r req w))
  /\ body (res_of (app_products r req w)) = body (res_of (serve r req w))
  /\ headers (res_of (app_products r req w))
     = (if is_GET r
        then <["Cache-Control" := "public, s-maxage=3600"]> (headers (res_of (serve r req w)))
        else headers (res_of (serve r req w)))
  /\ X_Cache (res_of (app_products r req w)) = X_Cache (res_of (serve r req w))
  /\ headers (res_of (app_products r req w)) !! "Cache-Control"
     = (if is_GET r then Some "public, s-maxage=3600" else None).
Proof.
  destruct r; unfold app_products, http_cache, outcome_of, after, res_of, X_Cache;
    unfold_handlers; red_world; cases.
  all: same_branches.
  all: try congruence.
  all: repeat split.
  all: unfold fresh_res; simpl.
  all: try (rewrite insert_insert_ne by discriminate; reflexivity).
  all: try (rewrite lookup_insert_ne by discriminate; reflexivity).
  all: try apply lookup_insert_eq.
  all: try (rewrite lookup_insert_ne by discriminate; apply lookup_insert_eq).
Qed.

(** X19: the page size is not validated: when PAGINATION_LIMIT holds a
    text that reads as zero, a list read that misses and is answered
    succeeds, and the pages member of its body is null. *)
Theorem pages_null_for_bad_page_size (req : Request) (w : World DB) :
  (exists s, ToNumber (pageSize (env w)) = Zero s) ->
  cache_has (clock w) (key_of req) (cache w) = false ->
  is_ok (outcome_of (serve GET_products req w)) = true ->
  exists b, body (res_of (serve GET_products req w)) = Some b
            /\ member "pages" b = Some VNull
            /\ member "page" b = Some (json_num (page_of (query_pageNumber req))).
Proof.
  intros [s Hsize] Hmiss Hok.
  destruct (getProducts_miss_answered req w Hmiss Hok) as (count & ps & Hc & Hf).
  rewrite (getProducts_miss req w count ps Hmiss Hc Hf).
  eexists. split; [reflexivity |]. unfold list_payload, pages_for.
  rewrite Hsize. split; [| reflexivity].
  cbn [member assoc String.eqb Ascii.eqb Bool.eqb]. f_equal.
  pose proof (count_range _ _ _ Hc) as Hr.
  destruct (Z.eq_dec count 0) as [-> | Hnz].
  - rewrite Num_0. reflexivity.
  - destruct (Num_pos_exact count ltac:(lia)) as (m & e & -> & _). reflexivity.
Qed.

End TopRead.

Lemma top_hit_determinism_witness :
  X_Cache (res_of (serve GET_products_top list_all (steps meantime w_top))) = Some "HIT"
  /\ body (res_of (serve GET_products_top list_all (steps meantime w_top)))
     = body (res_of (serve GET_products_top list_all w0)).
Proof.
  assert (H1 : cache_has (clock w0) top_products_key (cache w0) = false)
    by (vm_compute; reflexivity).
  assert (H2 : is_ok (outcome_of (serve GET_products_top list_all w0)) = true)
    by (vm_compute; reflexivity).
  assert (H3 : all_quiet meantime (after (serve GET_products_top list_all w0)) = true)
    by (vm_compute; reflexivity).
  assert (H4 : clock (steps meantime (after (serve GET_products_top list_all w0)))
               < clock w0 + stdTTL (cache w0))
    by (vm_compute; reflexivity).
  destruct (top_hit_determinism (DB := MemDB) list_all list_all w0 meantime H1 H2 H3 H4)
    as (_ & Q2 & _ & Q4 & _).
  split; [exact Q2 | exact Q4].
Defined.

Lemma live_entries_survive_witness :
  cache_get (clock (steps meantime w1)) (key_of list_all) (cache (steps meantime w1))
  = Some (value entry0).
Proof.
  assert (H1 : all_quiet meantime w1 = true) by (vm_compute; reflexivity).
  assert (H2 : cache_get (clock (steps meantime w1)) (key_of list_all) (cache w1)
               = Some (value entry0)) by (vm_compute; reflexivity).
  destruct (live_entries_survive (DB := MemDB) meantime w1 (key_of list_all)
              (value entry0) H1 H2) as [Hg _].
  exact Hg.
Defined.

Lemma cached_entry_matches_key_witness :
  member "page" (value entry0) = Some (json_num (Num 1)) /\ plain (value entry0) = true.
Proof.
  assert (L : data (cache w1) !! cacheKey (Num 1) "" = Some entry0)
    by (vm_compute; reflexivity).
  assert (V : valid (Num 1) = true) by reflexivity.
  destruct (cached_entry_matches_key (DB := MemDB) w1 (Num 1) "" entry0 w1_reachable V L)
    as (_ & Hp & _ & _ & Hpl).
  split; [exact Hp | exact Hpl].
Defined.

Lemma documents_never_modified_witness :
  heap (after (serve PUT_products_id update_shirt w_top)) !! 0%nat = Some shirt.
Proof.
  assert (L : heap w_top !! 0%nat = Some shirt) by reflexivity.
  exact (documents_never_modified (DB := MemDB) PUT_products_id update_shirt w_top
           0%nat shirt L).
Defined.

Lemma pages_null_for_bad_page_size_witness :
  exists b, body (res_of (serve GET_products list_all w_badsize)) = Some b
            /\ member "pages" b = Some VNull.
Proof.
  assert (H1 : exists s, ToNumber (pageSize (env w_badsize)) = Zero s)
    by (exists false; vm_compute; reflexivity).
  assert (H2 : cache_has (clock w_badsize) (key_of list_all) (cache w_badsize) = false)
    by (vm_compute; reflexivity).
  assert (H3 : is_ok (outcome_of (serve GET_products list_all w_badsize)) = true)
    by (vm_compute; reflexivity).
  destruct (pages_null_for_bad_page_size (DB := MemDB) list_all w_badsize H1 H2 H3)
    as (b & Hb & Hp & _).
  exists b. split; [exact Hb | exact Hp].
Defined.

Example cache_control_on_a_failed_get :
  outcome_of (app_products GET_products_id update_absent w0)
  = Throw (mkError "Product not found")
  /\ headers (res_of (app_products GET_products_id update_absent w0)) !! "Cache-Control"
     = Some "public, s-maxage=3600"
  /\ headers (res_of (app_products DELETE_products_id delete_shoe w0)) !! "Cache-Control"
     = None.
Proof. vm_compute. auto. Qed.

Example single_product_read :
  body (res_of (serve GET_products_id get_shirt w0)) = Some (VData shirt)
  /\ statusCode (res_of (serve GET_products_id update_absent w0)) = 404
  /\ outcome_of (serve GET_products_id get_shirt w0_down) = Throw offline_error.
Proof. vm_compute. auto. Qed.
